(** * links2rss: the message-to-feed pipeline of [src/main.py]

    A shallow embedding of the Telegram link collector: the URL extractor
    ([URL_PATTERN.findall]), the Open Graph fetcher ([fetch_og_tags]), the
    SQLite link store ([get_group_token], [save_link], [get_links],
    [delete_group_links]), the ingestion handler ([handle_message]) and the
    feed endpoint ([generate_rss], [rss_feed]).

    Strings are [string] (a Python [str] seen as its UTF-8 bytes: the URL
    pattern only ever accepts bytes below 128, so scanning bytes and scanning
    code points find the same matches).  Integers are [Z].  Stateful code is
    written in a state-and-exception monad over the program state.  What the
    program prints on its console is left out. *)

From Stdlib Require Import ZArith Ascii String List Lia Bool Permutation Sorted.
From stdpp Require Import base list strings pretty.

Open Scope string_scope.
Open Scope list_scope.

(** ** Strings as Python slices *)

Module Str.

(** [s[:n]] *)
Fixpoint take (n : nat) (s : string) : string :=
  match n, s with
  | S k, String c s' => String c (take k s')
  | _, _ => ""
  end.

(** [s[n:]] *)
Fixpoint drop (n : nat) (s : string) : string :=
  match n, s with
  | S k, String _ s' => drop k s'
  | _, _ => s
  end.

Fixpoint forallb (p : ascii -> bool) (s : string) : bool :=
  match s with
  | "" => true
  | String c s' => p c && forallb p s'
  end.

(** Length of the longest prefix of [s] whose characters all satisfy [p]. *)
Fixpoint span (p : ascii -> bool) (s : string) : nat :=
  match s with
  | "" => 0
  | String c s' => if p c then S (span p s') else 0
  end.

(** [s.removeprefix(p)] when [s.startswith(p)]. *)
Fixpoint strip_prefix (p s : string) : option string :=
  match p with
  | "" => Some s
  | String a p' =>
      match s with
      | String b s' => if Ascii.eqb b a then strip_prefix p' s' else None
      | "" => None
      end
  end.

(** Python truthiness of a [str]. *)
Definition truthy (s : string) : bool :=
  match s with "" => false | _ => true end.

End Str.

(** ** A backtracking regular-expression engine

    Enough of Python's [re] to run [URL_PATTERN] as it is written: literals,
    character classes with ranges, concatenation, ordered alternation, and
    the greedy quantifiers [?] and [+].  Matching is by backtracking with a
    continuation, alternatives tried left to right and quantifiers taking as
    much as they can first, which is the order in which [re] explores. *)

Module Re.

Inductive cls_item : Type :=
| One (c : ascii)            (* a single character of a class *)
| Range (lo hi : ascii).     (* lo-hi *)

Inductive regex : Type :=
| Lit (c : ascii)
| Class (items : list cls_item)
| Cat (r1 r2 : regex)
| Or (r1 r2 : regex)
| Opt (r : regex)
| Plus (r : regex).

Definition code (c : ascii) : N := N_of_ascii c.

Definition item_matches (c : ascii) (i : cls_item) : bool :=
  match i with
  | One c' => Ascii.eqb c c'
  | Range lo hi => (code lo <=? code c)%N && (code c <=? code hi)%N
  end.

Definition class_matches (items : list cls_item) (c : ascii) : bool :=
  existsb (item_matches c) items.

Definition orelse {A} (x y : option A) : option A :=
  match x with Some _ => x | None => y end.

(** [run r n s k]: match [r] at the head of [s], [n] characters having been
    consumed so far, then continue with [k]; the answer is the total number
    of characters consumed by the first successful exploration.  A [Plus]
    iterates at most [length s] times, which is no restriction for a body
    that consumes at least one character per iteration. *)
Fixpoint run (r : regex) (n : nat) (s : string)
         (k : nat -> string -> option nat) {struct r} : option nat :=
  match r with
  | Lit c =>
      match s with
      | String c' s' => if Ascii.eqb c' c then k (S n) s' else None
      | "" => None
      end
  | Class items =>
      match s with
      | String c' s' => if class_matches items c' then k (S n) s' else None
      | "" => None
      end
  | Cat r1 r2 => run r1 n s (fun n' s' => run r2 n' s' k)
  | Or r1 r2 => orelse (run r1 n s k) (run r2 n s k)
  | Opt r1 => orelse (run r1 n s k) (k n s)
  | Plus r1 =>
      (fix loop (fuel : nat) (n : nat) (s : string) {struct fuel} : option nat :=
         run r1 n s (fun n' s' =>
           match fuel with
           | O => k n' s'
           | S fuel' => orelse (loop fuel' n' s') (k n' s')
           end)) (String.length s) n s
  end.

(** The iteration of a [Plus], as a function of its own. *)
Fixpoint plus_loop (r : regex) (k : nat -> string -> option nat)
         (fuel n : nat) (s : string) {struct fuel} : option nat :=
  run r n s (fun n' s' =>
    match fuel with
    | O => k n' s'
    | S fuel' => orelse (plus_loop r k fuel' n' s') (k n' s')
    end).

(** [pattern.match(s)]: the length of the match at the head of [s]. *)
Definition match_len (r : regex) (s : string) : option nat :=
  run r 0 s (fun n _ => Some n).

(** [pattern.finditer(s)] as (start, matched text) pairs: the text is
    scanned from left to right, and after a match the scan goes on at its
    end.  [skip] counts the characters of the current match still to be
    stepped over, [pos] is the offset of [s] in the whole text. *)
Fixpoint finditer_go (r : regex) (skip pos : nat) (s : string)
  : list (nat * string) :=
  match skip with
  | S skip' =>
      match s with
      | String _ s' => finditer_go r skip' (S pos) s'
      | "" => []
      end
  | O =>
      match match_len r s with
      | Some n =>
          (pos, Str.take n s) ::
          match s with
          | String _ s' => finditer_go r (Nat.pred n) (S pos) s'
          | "" => []
          end
      | None =>
          match s with
          | String _ s' => finditer_go r 0 (S pos) s'
          | "" => []
          end
      end
  end.

Definition finditer (r : regex) (s : string) : list (nat * string) :=
  finditer_go r 0 0 s.

(** [pattern.findall(s)] for a pattern without capture groups. *)
Definition findall (r : regex) (s : string) : list string :=
  map snd (finditer r s).

(** The language of a pattern: the strings it matches in full. *)
Inductive lang : regex -> string -> Prop :=
| lang_lit c : lang (Lit c) (String c "")
| lang_class items c :
    class_matches items c = true -> lang (Class items) (String c "")
| lang_cat r1 r2 s1 s2 :
    lang r1 s1 -> lang r2 s2 -> lang (Cat r1 r2) (s1 +:+ s2)
| lang_or_l r1 r2 s : lang r1 s -> lang (Or r1 r2) s
| lang_or_r r1 r2 s : lang r2 s -> lang (Or r1 r2) s
| lang_opt_skip r : lang (Opt r) ""
| lang_opt_take r s : lang r s -> lang (Opt r) s
| lang_plus_one r s : lang r s -> lang (Plus r) s
| lang_plus_more r s1 s2 :
    lang r s1 -> lang (Plus r) s2 -> lang (Plus r) (s1 +:+ s2).

End Re.

(** ** The URL pattern (main.py, line 52)

    [http[s]?://(?:[a-zA-Z]|[0-9]|[$-_@.&+]|[!*\\(\\),]|(?:%[0-9a-fA-F][0-9a-fA-F]))+]

    In the raw string, [\\] inside a class is an escaped backslash, and
    [$-_] is a range from [$] (0x24) to [_] (0x5F). *)

Definition letters : list Re.cls_item := [Re.Range "a" "z"; Re.Range "A" "Z"].
Definition digits : list Re.cls_item := [Re.Range "0" "9"].
Definition marks : list Re.cls_item :=
  [Re.Range "$" "_"; Re.One "@"; Re.One "."; Re.One "&"; Re.One "+"].
Definition extras : list Re.cls_item :=
  [Re.One "!"; Re.One "*"; Re.One "\"; Re.One "("; Re.One "\"; Re.One ")"; Re.One ","].
Definition hex_digits : list Re.cls_item :=
  [Re.Range "0" "9"; Re.Range "a" "f"; Re.Range "A" "F"].

Definition url_item : Re.regex :=
  Re.Or (Re.Class letters)
 (Re.Or (Re.Class digits)
 (Re.Or (Re.Class marks)
 (Re.Or (Re.Class extras)
        (Re.Cat (Re.Lit "%") (Re.Cat (Re.Class hex_digits) (Re.Class hex_digits)))))).

Definition URL_PATTERN : Re.regex :=
  Re.Cat (Re.Lit "h") (Re.Cat (Re.Lit "t") (Re.Cat (Re.Lit "t") (Re.Cat (Re.Lit "p")
 (Re.Cat (Re.Opt (Re.Class [Re.One "s"]))
 (Re.Cat (Re.Lit ":") (Re.Cat (Re.Lit "/") (Re.Cat (Re.Lit "/")
         (Re.Plus url_item)))))))).

(** The characters a URL may continue with: the four one-character
    alternatives of [url_item]. *)
Definition url_char (c : ascii) : bool :=
  Re.class_matches letters c || Re.class_matches digits c
  || Re.class_matches marks c || Re.class_matches extras c.

(** What [URL_PATTERN.match] finds at the head of [s], computed directly:
    the scheme, then the longest run of URL characters, which must not be
    empty. *)
Definition url_match (s : string) : option nat :=
  match Str.strip_prefix "https://" s with
  | Some body =>
      match Str.span url_char body with
      | O => None
      | S m => Some (8 + S m)
      end
  | None =>
      match Str.strip_prefix "http://" s with
      | Some body =>
          match Str.span url_char body with
          | O => None
          | S m => Some (7 + S m)
          end
      | None => None
      end
  end.

(** [u] is found at offset [p] of [s]: [s[p : p + len(u)] == u]. *)
Definition occurs_at (p : nat) (u s : string) : Prop :=
  p + String.length u <= String.length s /\
  Str.take (String.length u) (Str.drop p s) = u.

(** The strings of the URL grammar, spelled out: a scheme and a non-empty
    run of URL characters. *)
Definition url_form (u : string) : Prop :=
  exists scheme body,
    (scheme = "http://" \/ scheme = "https://") /\
    u = scheme +:+ body /\ body <> "" /\ Str.forallb url_char body = true.

(** A match ends before the next one starts. *)
Definition ends_before (a b : nat * string) : Prop :=
  fst a + String.length (snd a) <= fst b.

(** ** Data model (main.py, lines 18-36 and the schema of lines 81-107) *)

(** [OGData]: every field defaults to [None]. *)
Record OGData : Type := mkOGData {
  og_title : option string;
  og_description : option string;
  og_image : option string
}.

Definition OGData_empty : OGData := mkOGData None None None.

(** [LinkData].  A [datetime] is the number of microseconds of naive local
    time since a fixed origin; SQLite stores it as ISO text, whose
    lexicographic order is the order of these numbers, and
    [datetime.fromisoformat] reads the same instant back. *)
Record LinkData : Type := mkLinkData {
  url : string;
  title : string;
  description : string;
  date : Z;
  image : option string;
  message_id : option Z
}.

(** An SQLite INTEGER is a signed 64-bit number.  [sqlite3] refuses a Python
    [int] outside that range when it is bound as a parameter
    ([OverflowError: Python int too large to convert to SQLite INTEGER],
    before the statement runs).  The store functions are modelled for
    parameters within the range; a Telegram message identifier is within
    it. *)
Definition sqlite_integer (z : Z) : Prop := (- 2 ^ 63 <= z < 2 ^ 63)%Z.

(** The same for an [int | None], bound as INTEGER or NULL. *)
Definition sqlite_integer_or_null (o : option Z) : Prop :=
  match o with
  | Some z => sqlite_integer z
  | None => True
  end.

(** A chat identifier as the code receives it: [int | str]. *)
Inductive chat_ref : Type :=
| ChatInt (z : Z)
| ChatStr (s : string).

(** [str(chat_id)] *)
Definition chat_id_str (c : chat_ref) : string :=
  match c with
  | ChatInt z => pretty z
  | ChatStr s => s
  end.

(** A row of [groups(chat_id TEXT PRIMARY KEY, token TEXT UNIQUE NOT NULL,
    created_at)].  [created_at] is filled by SQLite and never selected. *)
Record group_row : Type := mkGroup {
  g_chat_id : string;
  g_token : string
}.

(** A row of [links]; the [id] column is the position in the table: rows are
    kept in rowid order, and AUTOINCREMENT gives a new row the largest id. *)
Record link_row : Type := mkLink {
  l_chat_id : string;
  l_data : LinkData
}.

Record DB : Type := mkDB {
  groups : list group_row;
  links : list link_row
}.

(** The program state: the global [db_conn] ([None] until [init_database]
    has run) and the number of interactions with the outside world made so
    far, which indexes the answers of the environment. *)
Record State : Type := mkState {
  db_conn : option DB;
  ticks : nat
}.

(** ** The parsed page, as far as [fetch_og_tags] looks at it *)

(** A [bs4] tag: [tag.get("content")] and [tag.string]. *)
Record Tag : Type := mkTag {
  tag_content : option string;
  tag_string : option string
}.

(** The three queries made on the soup; [None] is "no such tag". *)
Record Soup : Type := mkSoup {
  find_meta_property : string -> option Tag;   (* soup.find("meta", property=p) *)
  find_title : option Tag;                     (* soup.find("title") *)
  find_meta_name : string -> option Tag        (* soup.find("meta", attrs={"name": n}) *)
}.

(** What [client.get] does: it raises, or it returns the final response
    (redirects are followed).  [ConnectError] stands for every exception
    other than a timeout: they all end in the same [except Exception]. *)
Inductive http_outcome : Type :=
| ConnectError                                   (* network error *)
| TimeoutException                               (* no answer within 10 s *)
| HttpResponse (status_code : Z) (text : string).

(** ** XML elements and HTTP replies *)

#[warnings="-register-all"]
Inductive Element : Type :=
| Elem (tag : string) (attrib : list (string * string))
       (text : option string) (children : list Element).

Record Response : Type := mkResponse {
  status_code : Z;
  media_type : string;
  content : string
}.

(** ** Exceptions and the state monad *)

Inductive exn : Type :=
| IntegrityError (msg : string)
| HTTPException (status : Z) (detail : string).

Inductive result (A : Type) : Type :=
| Ok (a : A)
| Raise (e : exn).
Arguments Ok {A} a.
Arguments Raise {A} e.

Definition M (A : Type) : Type := State -> result A * State.

Definition ret {A} (a : A) : M A := fun st => (Ok a, st).

Definition bind {A B} (m : M A) (f : A -> M B) : M B :=
  fun st =>
    match m st with
    | (Ok a, st') => f a st'
    | (Raise e, st') => (Raise e, st')
    end.

Definition raise {A} (e : exn) : M A := fun st => (Raise e, st).

Definition get_db : M (option DB) := fun st => (Ok (db_conn st), st).

Definition put_db (db : DB) : M unit :=
  fun st => (Ok tt, mkState (Some db) (ticks st)).

(** One interaction with the outside world: returns its index. *)
Definition tick : M nat :=
  fun st => (Ok (ticks st), mkState (db_conn st) (S (ticks st))).

#[global] Instance M_ret : MRet M := @ret.
#[global] Instance M_bind : MBind M := fun A B f m => bind m f.

(** [for x in xs: body x] *)
Fixpoint for_each {A} (xs : list A) (body : A -> M unit) : M unit :=
  match xs with
  | [] => ret tt
  | x :: xs' => body x ;; for_each xs' body
  end.

(** Python's [str(x)] for [x : str | None]. *)
Definition py_str (o : option string) : string :=
  match o with Some s => s | None => "None" end.

(** Truthiness of [x : str | None]. *)
Definition opt_truthy (o : option string) : bool :=
  match o with Some s => Str.truthy s | None => false end.

(** [a or d] for [a : str | None] and a string [d]. *)
Definition or_str (a : option string) (d : string) : string :=
  match a with
  | Some s => if Str.truthy s then s else d
  | None => d
  end.

(** ** The chat events (the parts of [telegram.Update] the handlers read) *)

Module Telegram.

Record User : Type := mkUser { first_name : string }.

Record Message : Type := mkMessage {
  message_id : Z;
  chat_id : Z;
  from_user : option User;
  text : option string;
  caption : option string
}.

Record Update : Type := mkUpdate {
  message : option Message;
  edited_message : option Message
}.

End Telegram.

(** ** The outside world

    Everything the program asks of its libraries and of the network.  The
    answers of the network, of the clock and of the random generator are
    indexed by the number of interactions made so far ([ticks]), so that two
    requests for the same URL may be answered differently. *)
Record Env : Type := mkEnv {
  APP_URL : string;
  http_get : nat -> string -> http_outcome;  (* client.get(url, ...), redirects followed *)
  BeautifulSoup : string -> option Soup;     (* None: the parser raises *)
  datetime_now : nat -> Z;                   (* datetime.now() *)
  uuid4 : nat -> string;                     (* str(uuid.uuid4()) *)
  strftime : Z -> string;                    (* d.strftime("%a, %d %b %Y %H:%M:%S +0000") *)
  timestamp : Z -> string;                   (* str(d.timestamp()), a float *)
  ET_tostring : Element -> string            (* ET.tostring(e, "unicode", "xml") *)
}.

(** [ORDER BY date DESC]: [a] may come before [b]. *)
Definition date_desc (a b : link_row) : Prop :=
  (date (l_data b) <= date (l_data a))%Z.

(** The rows in descending order of [date].  SQL leaves the order of rows
    with equal dates open; here they keep their table order, which is what
    SQLite's sorter does.  No property below depends on that choice. *)
Fixpoint insert_desc (r : link_row) (rows : list link_row) : list link_row :=
  match rows with
  | [] => [r]
  | x :: rest =>
      if (date (l_data x) <? date (l_data r))%Z then r :: x :: rest
      else x :: insert_desc r rest
  end.

Definition order_by_date_desc (rows : list link_row) : list link_row :=
  fold_left (fun acc r => insert_desc r acc) rows [].

(** [LIMIT n]: a negative limit is no limit in SQLite. *)
Definition sql_limit {A} (limit : Z) (rows : list A) : list A :=
  if (limit <? 0)%Z then rows else firstn (Z.to_nat limit) rows.

(** [WHERE chat_id = ? AND message_id = ?]; a NULL [message_id] matches
    nothing. *)
Definition from_message (key : string) (mid : Z) (r : link_row) : bool :=
  String.eqb (l_chat_id r) key &&
  match message_id (l_data r) with
  | Some m => Z.eqb m mid
  | None => false
  end.

Definition in_group (key : string) (r : link_row) : bool :=
  String.eqb (l_chat_id r) key.

(** [SELECT ... FROM groups WHERE chat_id = ?] then [fetchone()]. *)
Definition select_group (key : string) (db : DB) : option group_row :=
  find (fun g => String.eqb (g_chat_id g) key) (groups db).

(** [SELECT ... FROM groups WHERE token = ?] then [fetchone()]. *)
Definition select_token (tok : string) (db : DB) : option group_row :=
  find (fun g => String.eqb (g_token g) tok) (groups db).

Section Program.

Variable E : Env.

(** *** Link store (main.py, lines 112-201) *)

Definition get_group_token (chat_id : chat_ref) : M string :=
  db_opt ← get_db;
  match db_opt with
  | None => mret ""
  | Some db =>
      let chat_id_str := chat_id_str chat_id in
      match select_group chat_id_str db with
      | Some row => mret (g_token row)
      | None =>
          i ← tick;
          let token := uuid4 E i in
          (* token TEXT UNIQUE *)
          match select_token token db with
          | Some _ => raise (IntegrityError "UNIQUE constraint failed: groups.token")
          | None =>
              put_db (mkDB (groups db ++ [mkGroup chat_id_str token]) (links db));;
              mret token
          end
      end
  end.

Definition save_link (chat_id : chat_ref) (link_data : LinkData) : M unit :=
  db_opt ← get_db;
  match db_opt with
  | None => mret tt
  | Some db =>
      let chat_id_str := chat_id_str chat_id in
      (* PRAGMA foreign_keys=ON; FOREIGN KEY (chat_id) REFERENCES groups(chat_id) *)
      match select_group chat_id_str db with
      | None => raise (IntegrityError "FOREIGN KEY constraint failed")
      | Some _ =>
          put_db (mkDB (groups db) (links db ++ [mkLink chat_id_str link_data]))
      end
  end.

Definition get_links (chat_id : chat_ref) (limit : Z) : M (list LinkData) :=
  db_opt ← get_db;
  match db_opt with
  | None => mret []
  | Some db =>
      let chat_id_str := chat_id_str chat_id in
      let rows :=
        sql_limit limit
          (order_by_date_desc (List.filter (in_group chat_id_str) (links db))) in
      mret (map l_data rows)
  end.

Definition delete_group_links (chat_id : chat_ref) (message_id : Z) : M unit :=
  db_opt ← get_db;
  match db_opt with
  | None => mret tt
  | Some db =>
      let chat_id_str := chat_id_str chat_id in
      put_db (mkDB (groups db)
                   (List.filter (fun r => negb (from_message chat_id_str message_id r))
                                (links db)))
  end.

(** *** Metadata fetcher (main.py, lines 204-249) *)

(** [response.raise_for_status()] passes for 2xx only. *)
Definition is_success (status : Z) : bool :=
  (200 <=? status)%Z && (status <=? 299)%Z.

(** The body of the [try], once the page is parsed. *)
Definition extract_og (soup : Soup) : OGData :=
  let title0 :=
    match find_meta_property soup "og:title" with
    | Some og_title => Some (py_str (tag_content og_title))
    | None => None
    end in
  let title1 :=
    if negb (opt_truthy title0) then
      match find_title soup with
      | Some title_tag =>
          if opt_truthy (tag_string title_tag)
          then Some (py_str (tag_string title_tag)) else None
      | None => title0
      end
    else title0 in
  let desc0 :=
    match find_meta_property soup "og:description" with
    | Some og_desc => Some (py_str (tag_content og_desc))
    | None => None
    end in
  let desc1 :=
    if negb (opt_truthy desc0) then
      match find_meta_name soup "description" with
      | Some meta_desc => Some (py_str (tag_content meta_desc))
      | None => desc0
      end
    else desc0 in
  let image0 :=
    match find_meta_property soup "og:image" with
    | Some og_image => Some (py_str (tag_content og_image))
    | None => None
    end in
  mkOGData title1 desc1 image0.

(** Whatever goes wrong inside the [try] ends in [except Exception], which
    returns [OGData()]. *)
Definition fetch_og_tags (url : string) : M OGData :=
  i ← tick;
  match http_get E i url with
  | ConnectError => mret OGData_empty
  | TimeoutException => mret OGData_empty
  | HttpResponse status text =>
      if is_success status then
        match BeautifulSoup E text with
        | Some soup => mret (extract_og soup)
        | None => mret OGData_empty
        end
      else mret OGData_empty
  end.

(** *** Ingestion (main.py, lines 252-294) *)

(** The body of [for url in urls]. *)
Definition ingest_url (chat_id : Z) (message_id : Z) (user_name : string)
           (url : string) : M unit :=
  og_data ← fetch_og_tags url;
  let title := if opt_truthy (og_title og_data) then py_str (og_title og_data) else url in
  let description :=
    if opt_truthy (og_description og_data) then py_str (og_description og_data) else "" in
  let shared_by := "Shared by " +:+ user_name in
  let full_description :=
    if Str.truthy description then shared_by +:+ " - " +:+ description
    else shared_by in
  i ← tick;
  let link_data :=
    mkLinkData url title full_description (datetime_now E i)
               (og_image og_data) (Some message_id) in
  save_link (ChatInt chat_id) link_data.

Definition message_text (message : Telegram.Message) : string :=
  or_str (Telegram.text message) (or_str (Telegram.caption message) "").

Definition message_user_name (message : Telegram.Message) : string :=
  match Telegram.from_user message with
  | Some u => Telegram.first_name u
  | None => "Unknown"
  end.

(** [update.message or update.edited_message] *)
Definition update_message (update : Telegram.Update) : option Telegram.Message :=
  match Telegram.message update with
  | Some m => Some m
  | None => Telegram.edited_message update
  end.

Definition handle_message (update : Telegram.Update) : M unit :=
  match update_message update with
  | None => mret tt
  | Some message =>
      let text := message_text message in
      let urls := Re.findall URL_PATTERN text in
      match urls with
      | [] => mret tt
      | _ :: _ =>
          let message_id := Telegram.message_id message in
          let user_name := message_user_name message in
          delete_group_links (ChatInt (Telegram.chat_id message)) message_id;;
          for_each urls
            (ingest_url (Telegram.chat_id message) message_id user_name)
      end
  end.

(** *** The [/rssfeed] command (main.py, lines 297-312): the reply text. *)

Definition newline : string := String (ascii_of_nat 10) "".

Definition handle_rssfeed_command (update : Telegram.Update) : M (option string) :=
  match Telegram.message update with
  | None => mret None
  | Some message =>
      if Z.eqb (Telegram.chat_id message) 0 then mret None
      else
        token ← get_group_token (ChatInt (Telegram.chat_id message));
        let rss_url := APP_URL E +:+ "/rss?token=" +:+ token in
        mret (Some ("Your RSS feed link, use it in your RSS reader:"
                    +:+ newline +:+ rss_url))
  end.

(** *** Feed generation (main.py, lines 315-339) *)

Definition leaf (tag : string) (text : string) : Element :=
  Elem tag [] (Some text) [].

(** [f"{link.url}_{link.date.timestamp()}"] *)
Definition guid_of (link : LinkData) : string :=
  url link +:+ "_" +:+ timestamp E (date link).

Definition rss_item (link : LinkData) : Element :=
  Elem "item" [] None
    ([ leaf "title" (title link);
       leaf "link" (url link);
       leaf "description" (description link);
       leaf "pubDate" (strftime E (date link));
       leaf "guid" (guid_of link) ]
     ++ (if opt_truthy (image link)
         then [Elem "enclosure" [("url", py_str (image link)); ("type", "image/jpeg")]
                    None []]
         else [])).

(** The element tree built by [generate_rss], before serialisation. *)
Definition rss_tree (chat_id : chat_ref) : M Element :=
  links_list ← get_links chat_id 50;
  i ← tick;
  mret (Elem "rss" [("version", "2.0")] None
         [Elem "channel" [] None
            ([ leaf "title" "Telegram Group Links";
               leaf "link" (APP_URL E +:+ "/rss/" +:+ chat_id_str chat_id);
               leaf "description" "Links shared in Telegram group";
               leaf "lastBuildDate" (strftime E (datetime_now E i)) ]
             ++ map rss_item links_list)]).

Definition generate_rss (chat_id : chat_ref) : M string :=
  rss ← rss_tree chat_id;
  mret (ET_tostring E rss).

(** *** The feed endpoint (main.py, lines 352-370) *)

Definition rss_feed (token : string) : M Response :=
  db_opt ← get_db;
  match db_opt with
  | None => raise (HTTPException 500 "Database not initialized")
  | Some db =>
      match select_token token db with
      | None => raise (HTTPException 401 "Unauthorized: Invalid token")
      | Some row =>
          rss_content ← generate_rss (ChatStr (g_chat_id row));
          mret (mkResponse 200 "application/rss+xml" rss_content)
      end
  end.

End Program.

(** ** The HTTP route [GET /rss] as FastAPI serves it

    [token: str = Query(...)] declares a required query parameter: a request
    without it is answered by the framework's validation error and the
    handler is not called.  An [HTTPException] raised by the handler becomes
    a JSON error body with its status; any other exception is a 500. *)

Inductive http_reply : Type :=
| Replied (r : Response)
| ErrorBody (status : Z) (detail : string)
| ValidationError
| InternalServerError.

Definition reply_status (r : http_reply) : Z :=
  match r with
  | Replied resp => status_code resp
  | ErrorBody status _ => status
  | ValidationError => 422
  | InternalServerError => 500
  end.

Definition GET_rss (E : Env) (query_token : option string) (st : State)
  : http_reply * State :=
  match query_token with
  | None => (ValidationError, st)
  | Some token =>
      match rss_feed E token st with
      | (Ok resp, st') => (Replied resp, st')
      | (Raise (HTTPException status detail), st') => (ErrorBody status detail, st')
      | (Raise (IntegrityError _), st') => (InternalServerError, st')
      end
  end.

(** ** Start-up (main.py, lines 58-109 and 431-434)

    [main] calls [init_database] before it starts either server.  The
    tables are created only if they do not exist: [file] is what the
    database file holds, [empty_db] for a new file. *)

Definition init_database (file : DB) : M unit :=
  fun st => (Ok tt, mkState (Some file) (ticks st)).

(** ** Schedules

    Both servers run on one cooperative event loop: a function without
    [await] runs to completion before anything else does.  The store
    functions are such functions; a handler may be suspended at its
    [await]s, between two store calls.  A schedule is any sequence of these
    atomic steps and of whole handler runs. *)

Inductive event : Type :=
| OnMessage (update : Telegram.Update)        (* handle_message *)
| OnCommand (update : Telegram.Update)        (* handle_rssfeed_command *)
| OnRequest (query_token : option string).    (* GET /rss *)

Inductive action : Type :=
| Handler (e : event)
| CallGetGroupToken (chat_id : chat_ref)
| CallSaveLink (chat_id : chat_ref) (link_data : LinkData)
| CallGetLinks (chat_id : chat_ref) (limit : Z)
| CallDeleteGroupLinks (chat_id : chat_ref) (message_id : Z)
| CallFetchOgTags (url : string)
| CallNow.

Definition handle (E : Env) (e : event) (st : State) : State :=
  match e with
  | OnMessage u => snd (handle_message E u st)
  | OnCommand u => snd (handle_rssfeed_command E u st)
  | OnRequest q => snd (GET_rss E q st)
  end.

Definition exec (E : Env) (a : action) (st : State) : State :=
  match a with
  | Handler e => handle E e st
  | CallGetGroupToken c => snd (get_group_token E c st)
  | CallSaveLink c l => snd (save_link c l st)
  | CallGetLinks c n => snd (get_links c n st)
  | CallDeleteGroupLinks c m => snd (delete_group_links c m st)
  | CallFetchOgTags u => snd (fetch_og_tags E u st)
  | CallNow => snd (tick st)
  end.

Definition run_events (E : Env) (es : list event) (st : State) : State :=
  fold_left (fun s e => handle E e s) es st.

Definition run_schedule (E : Env) (acts : list action) (st : State) : State :=
  fold_left (fun s a => exec E a s) acts st.

(** ** Store invariants: what the schema enforces *)

Record db_ok (db : DB) : Prop := mk_db_ok {
  ok_primary_key : List.NoDup (map g_chat_id (groups db));
  ok_unique_token : List.NoDup (map g_token (groups db));
  ok_foreign_key : forall r, In r (links db) ->
                             In (l_chat_id r) (map g_chat_id (groups db))
}.

(** One step of a schedule, on an initialised store that satisfies its
    constraints: the constraints still hold and no group row is lost or
    changed. *)
Definition step_kept (db db' : DB) : Prop :=
  db_ok db' /\ exists extra, groups db' = groups db ++ extra.

(** The database right after [init_database] on a new file. *)
Definition empty_db : DB := mkDB [] [].

Definition registered (key : string) (db : DB) : Prop :=
  In key (map g_chat_id (groups db)).

(** The rows of one message, and of one group. *)
Definition stored_for (key : string) (mid : Z) (db : DB) : list link_row :=
  List.filter (from_message key mid) (links db).

Definition stored_in (key : string) (db : DB) : list link_row :=
  List.filter (in_group key) (links db).

(** ** What an ingestion writes, as a pure function of the environment *)

Definition fetch_fails (E : Env) (i : nat) (u : string) : bool :=
  match http_get E i u with
  | ConnectError => true
  | TimeoutException => true
  | HttpResponse status text =>
      negb (is_success status) ||
      match BeautifulSoup E text with Some _ => false | None => true end
  end.

Definition fetched (E : Env) (i : nat) (u : string) : OGData :=
  match http_get E i u with
  | HttpResponse status text =>
      if is_success status then
        match BeautifulSoup E text with
        | Some soup => extract_og soup
        | None => OGData_empty
        end
      else OGData_empty
  | _ => OGData_empty
  end.

Definition composed (E : Env) (mid : Z) (user_name : string) (i : nat) (u : string)
  : LinkData :=
  let og := fetched E i u in
  mkLinkData u
    (if opt_truthy (og_title og) then py_str (og_title og) else u)
    (if opt_truthy (og_description og)
     then "Shared by " +:+ user_name +:+ " - " +:+ py_str (og_description og)
     else "Shared by " +:+ user_name)
    (datetime_now E (S i))
    (og_image og) (Some mid).

(** The rows written for [urls], the first fetch being interaction [i]. *)
Fixpoint ingested (E : Env) (key : string) (mid : Z) (user_name : string)
         (i : nat) (urls : list string) : list link_row :=
  match urls with
  | [] => []
  | u :: us =>
      mkLink key (composed E mid user_name i u)
      :: ingested E key mid user_name (S (S i)) us
  end.

(** Whether an ingestion completes, as far as the store decides it. *)
Definition ingestion_outcome (u : Telegram.Update) (st : State) : result unit :=
  match update_message u with
  | None => Ok tt
  | Some m =>
      match Re.findall URL_PATTERN (message_text m), db_conn st with
      | _ :: _, Some db =>
          match select_group (pretty (Telegram.chat_id m)) db with
          | Some _ => Ok tt
          | None => Raise (IntegrityError "FOREIGN KEY constraint failed")
          end
      | _, _ => Ok tt
      end
  end.

(** ** Reading a feed document *)

Definition children (e : Element) : list Element :=
  match e with Elem _ _ _ cs => cs end.

Definition tag_of (e : Element) : string :=
  match e with Elem t _ _ _ => t end.

Definition text_of (e : Element) : option string :=
  match e with Elem _ _ t _ => t end.

(** The [item] elements of the channels of an [rss] document, in order. *)
Definition feed_items (doc : Element) : list Element :=
  flat_map (fun channel =>
              List.filter (fun e => String.eqb (tag_of e) "item") (children channel))
           (children doc).

(** The text of the [guid] children of an item. *)
Definition item_guids (item : Element) : list (option string) :=
  map text_of (List.filter (fun e => String.eqb (tag_of e) "guid") (children item)).

(** Newest first. *)
Definition newest_first (a b : LinkData) : Prop := (date b <= date a)%Z.

(** The links of a group dated no earlier than [d]. *)
Definition not_older (d : Z) (r : link_row) : bool := (d <=? date (l_data r))%Z.

(** ** The health endpoint (main.py, lines 373-390)

    The JSON object it returns: an error message, or the two row counts. *)

Inductive health_reply : Type :=
| HealthError (message : string)
| HealthOk (links_count groups_count : Z).

Definition health : M health_reply :=
  db_opt ← get_db;
  match db_opt with
  | None => mret (HealthError "Database not initialized")
  | Some db =>
      let link_count := Z.of_nat (length (links db)) in
      let group_count := Z.of_nat (length (groups db)) in
      mret (HealthOk link_count group_count)
  end.

(** The tags of the children of an element, in order. *)
Definition child_tags (e : Element) : list string := map tag_of (children e).

(** ** Sample inputs

    A small world and a few chat events, to run the program on. *)

Definition sample_soup : Soup :=
  mkSoup (fun p => if String.eqb p "og:title"
                   then Some (mkTag (Some "Example page") None) else None)
         None
         (fun _ => None).

(** Only [http://up.example/a] answers; the clock advances by one
    microsecond per interaction. *)
Definition sample_env : Env :=
  mkEnv "http://localhost:8080"
        (fun _ u => if String.eqb u "http://up.example/a"
                    then HttpResponse 200 "<html></html>" else ConnectError)
        (fun _ => Some sample_soup)
        (fun i => Z.of_nat i)
        (fun i => "token-" +:+ pretty i)
        (fun d => pretty d)
        (fun d => pretty d +:+ ".0")
        (fun _ => "<rss />").

(** The same world with a clock that stands still. *)
Definition frozen_env : Env :=
  mkEnv (APP_URL sample_env) (http_get sample_env) (BeautifulSoup sample_env)
        (fun _ => 0%Z)
        (uuid4 sample_env) (strftime sample_env) (timestamp sample_env)
        (ET_tostring sample_env).

(** Group [1] has asked for its feed once; nothing is stored yet. *)
Definition sample_state : State :=
  mkState (Some (mkDB [mkGroup "1" "token-a"] [])) 0.

(** Group [1] with 75 links, dated 0 to 74. *)
Definition busy_state : State :=
  mkState
    (Some (mkDB [mkGroup "1" "token-a"]
             (map (fun i => mkLink "1"
                     (mkLinkData "http://a.example/x" "A page" "Shared by Ann"
                                 (Z.of_nat i) None (Some 7%Z)))
                  (seq 0 75))))
    0.

Definition msg_first : Telegram.Message :=
  Telegram.mkMessage 7 1 (Some (Telegram.mkUser "Ann"))
    (Some "check this out http://a.example/x and http://a.example/x") None.

Definition msg_mixed : Telegram.Message :=
  Telegram.mkMessage 7 1 (Some (Telegram.mkUser "Ann"))
    (Some "http://down.example/b then http://up.example/a") None.

Definition msg_no_url : Telegram.Message :=
  Telegram.mkMessage 7 1 (Some (Telegram.mkUser "Ann")) (Some "never mind") None.

Definition update_first : Telegram.Update := Telegram.mkUpdate (Some msg_first) None.
Definition update_mixed : Telegram.Update := Telegram.mkUpdate None (Some msg_mixed).
Definition update_no_url : Telegram.Update := Telegram.mkUpdate None (Some msg_no_url).

(** A page whose [og:title], [og:description] and [og:image] tags have no
    [content] attribute, and whose [<title>] reads "Real title". *)
Definition bare_soup : Soup :=
  mkSoup (fun _ => Some (mkTag None None))
         (Some (mkTag None (Some "Real title")))
         (fun _ => None).

(** A world in which every URL answers with that page. *)
Definition bare_env : Env :=
  mkEnv (APP_URL sample_env)
        (fun _ _ => HttpResponse 200 "<html></html>")
        (fun _ => Some bare_soup)
        (datetime_now sample_env)
        (uuid4 sample_env) (strftime sample_env) (timestamp sample_env)
        (ET_tostring sample_env).

(** Before [init_database], and right after it on a new file. *)
Definition no_db_state : State := mkState None 0.
Definition fresh_state : State := mkState (Some empty_db) 0.

(** A message of group 2, which has no row in [sample_state]. *)
Definition msg_other : Telegram.Message :=
  Telegram.mkMessage 3 2 None (Some "look: https://b.example/y") None.
Definition update_other : Telegram.Update := Telegram.mkUpdate (Some msg_other) None.

(** ** Readings of the spec that the code does not follow *)

(** The edit reconciliation read for every event: whatever the text of the
    event, the links stored afterwards for its message are the URLs of that
    text. *)
Definition purges_on_every_event : Prop :=
  forall (E : Env) (u : Telegram.Update) (m : Telegram.Message) (st : State) (db : DB),
    update_message u = Some m ->
    db_conn st = Some db ->
    registered (pretty (Telegram.chat_id m)) db ->
    exists db',
      db_conn (snd (handle_message E u st)) = Some db' /\
      map (fun r => url (l_data r))
          (stored_for (pretty (Telegram.chat_id m)) (Telegram.message_id m) db')
      = Re.findall URL_PATTERN (message_text m).

(** The fetch-failure degradation read for every group: whenever the fetch
    of a URL of a message fails, the ingestion of the message completes and
    the link of that URL is stored, with the URL as its title and the
    attribution alone as its description. *)
Definition failed_fetch_is_always_stored : Prop :=
  forall (E : Env) (u : Telegram.Update) (m : Telegram.Message) (st : State) (db : DB)
         (n : nat) (url0 : string),
    update_message u = Some m ->
    db_conn st = Some db ->
    nth_error (Re.findall URL_PATTERN (message_text m)) n = Some url0 ->
    fetch_fails E (2 * n + ticks st) url0 = true ->
    fst (handle_message E u st) = Ok tt /\
    exists db' row,
      db_conn (snd (handle_message E u st)) = Some db' /\
      In row (stored_for (pretty (Telegram.chat_id m)) (Telegram.message_id m) db') /\
      url (l_data row) = url0 /\
      title (l_data row) = url0 /\
      description (l_data row) = "Shared by " +:+ message_user_name m.

(** The feed endpoint read as answering 401 when the token parameter is
    missing. *)
Definition missing_token_is_unauthorized : Prop :=
  forall (E : Env) (st : State) (db : DB),
    db_conn st = Some db -> reply_status (fst (GET_rss E None st)) = 401%Z.

(** The identifiers of the entries of every rendered feed read as pairwise
    distinct. *)
Definition guids_always_distinct : Prop :=
  forall (E : Env) (c : chat_ref) (st : State) (db : DB) (doc : Element),
    db_conn st = Some db ->
    fst (rss_tree E c st) = Ok doc ->
    List.NoDup (flat_map item_guids (feed_items doc)).

(** No underscore in [s]. *)
Definition underscore_free (s : string) : Prop :=
  Str.forallb (fun c => negb (Ascii.eqb c "_")) s = true.

(** Every stored link has a title. *)
Definition titled (db : DB) : Prop :=
  Forall (fun r => title (l_data r) <> "") (links db).

(** * Properties *)

(** ** The monad and the store calls, step by step *)

Lemma bind_ok {A B} (m : M A) (f : A -> M B) st a st' :
  m st = (Ok a, st') -> (m ≫= f) st = f a st'.
Proof. intros H. unfold mbind, M_bind, bind. now rewrite H. Qed.

Lemma bind_raise {A B} (m : M A) (f : A -> M B) st e st' :
  m st = (Raise e, st') -> (m ≫= f) st = (Raise e, st').
Proof. intros H. unfold mbind, M_bind, bind. now rewrite H. Qed.

Lemma select_group_Some key db :
  registered key db -> exists row, select_group key db = Some row /\ g_chat_id row = key.
Proof.
  unfold registered, select_group. intros Hin.
  apply in_map_iff in Hin as (g & Hg & Hin).
  destruct (find (fun g0 => String.eqb (g_chat_id g0) key) (groups db)) as [row|] eqn:F.
  - exists row. split; [reflexivity|].
    apply find_some in F as [_ F]. now apply String.eqb_eq in F.
  - exfalso. apply (find_none _ _ F) in Hin.
    rewrite Hg, String.eqb_refl in Hin. discriminate.
Qed.

Lemma select_group_None key db :
  ~ registered key db -> select_group key db = None.
Proof.
  unfold registered, select_group. intros Hn.
  destruct (find _ (groups db)) as [row|] eqn:F; [|reflexivity].
  exfalso. apply find_some in F as [Hin F]. apply String.eqb_eq in F.
  apply Hn. apply in_map_iff. now exists row.
Qed.

Lemma select_group_registered key db row :
  select_group key db = Some row -> registered key db /\ g_chat_id row = key.
Proof.
  unfold registered, select_group. intros F.
  apply find_some in F as [Hin F]. apply String.eqb_eq in F.
  split; [|assumption]. apply in_map_iff. now exists row.
Qed.

Lemma registered_dec key db : {registered key db} + {~ registered key db}.
Proof. unfold registered. apply In_dec, string_dec. Defined.

Lemma fetch_og_tags_run E u st :
  fetch_og_tags E u st
  = (Ok (fetched E (ticks st) u), mkState (db_conn st) (S (ticks st))).
Proof.
  unfold fetch_og_tags, fetched, mbind, M_bind, bind, tick, mret, M_ret, ret. simpl.
  destruct (http_get E (ticks st) u) as [| |status text]; try reflexivity.
  destruct (is_success status); [|reflexivity].
  now destruct (BeautifulSoup E text).
Qed.

Lemma fetch_fails_empty E i u :
  fetch_fails E i u = true -> fetched E i u = OGData_empty.
Proof.
  unfold fetch_fails, fetched.
  destruct (http_get E i u) as [| |status text]; try reflexivity.
  destruct (is_success status); simpl; [|reflexivity].
  now destruct (BeautifulSoup E text).
Qed.

Lemma save_link_ok c l st db :
  db_conn st = Some db -> registered (chat_id_str c) db ->
  save_link c l st
  = (Ok tt, mkState (Some (mkDB (groups db) (links db ++ [mkLink (chat_id_str c) l])))
                    (ticks st)).
Proof.
  intros Hdb Hreg. apply select_group_Some in Hreg as (row & Hrow & _).
  unfold save_link, mbind, M_bind, bind, get_db. rewrite Hdb, Hrow. reflexivity.
Qed.

Lemma save_link_unregistered c l st db :
  db_conn st = Some db -> ~ registered (chat_id_str c) db ->
  save_link c l st = (Raise (IntegrityError "FOREIGN KEY constraint failed"), st).
Proof.
  intros Hdb Hreg. apply select_group_None in Hreg.
  unfold save_link, mbind, M_bind, bind, get_db. rewrite Hdb, Hreg. reflexivity.
Qed.

Lemma delete_group_links_run c m st db :
  db_conn st = Some db ->
  delete_group_links c m st
  = (Ok tt, mkState (Some (mkDB (groups db)
              (List.filter (fun r => negb (from_message (chat_id_str c) m r)) (links db))))
            (ticks st)).
Proof.
  intros Hdb. unfold delete_group_links, mbind, M_bind, bind, get_db.
  rewrite Hdb. reflexivity.
Qed.

Lemma ingest_url_ok E chat mid user u st db :
  db_conn st = Some db -> registered (pretty chat) db ->
  ingest_url E chat mid user u st
  = (Ok tt,
     mkState (Some (mkDB (groups db)
                (links db ++ [mkLink (pretty chat) (composed E mid user (ticks st) u)])))
             (S (S (ticks st)))).
Proof.
  intros Hdb Hreg. unfold ingest_url.
  erewrite bind_ok by apply fetch_og_tags_run.
  erewrite bind_ok by reflexivity.
  erewrite save_link_ok; [|simpl; eassumption|exact Hreg].
  simpl. unfold composed.
  destruct (opt_truthy (og_description (fetched E (ticks st) u))) eqn:D;
    [|reflexivity].
  destruct (og_description (fetched E (ticks st) u)) as [[|a d]|];
    simpl in D; try discriminate. reflexivity.
Qed.

Lemma ingest_url_unregistered E chat mid user u st db :
  db_conn st = Some db -> ~ registered (pretty chat) db ->
  ingest_url E chat mid user u st
  = (Raise (IntegrityError "FOREIGN KEY constraint failed"),
     mkState (Some db) (S (S (ticks st)))).
Proof.
  intros Hdb Hreg. unfold ingest_url.
  erewrite bind_ok by apply fetch_og_tags_run.
  erewrite bind_ok by reflexivity.
  erewrite save_link_unregistered; [|simpl; eassumption|exact Hreg].
  simpl. now rewrite Hdb.
Qed.

Lemma for_each_ingest_ok E chat mid user urls : forall st db,
  db_conn st = Some db -> registered (pretty chat) db ->
  for_each urls (ingest_url E chat mid user) st
  = (Ok tt,
     mkState (Some (mkDB (groups db)
                (links db ++ ingested E (pretty chat) mid user (ticks st) urls)))
             (2 * length urls + ticks st)).
Proof.
  induction urls as [|u us IH]; intros st db Hdb Hreg.
  - simpl. rewrite app_nil_r. unfold mret, M_ret, ret.
    destruct st as [d t], db as [gs ls]. simpl in *. now subst.
  - cbn [for_each].
    erewrite bind_ok by (apply ingest_url_ok; eassumption).
    erewrite IH; [|reflexivity|exact Hreg].
    cbn [groups links ticks ingested length]. rewrite <- app_assoc.
    cbn [app]. do 2 f_equal. lia.
Qed.

(** ** The extractor: what the engine computes on [URL_PATTERN] *)

Lemma app_cons c s t : String c s +:+ t = String c (s +:+ t).
Proof. reflexivity. Qed.

Lemma app_empty_l s : "" +:+ s = s.
Proof. reflexivity. Qed.

Lemma app_empty_r s : s +:+ "" = s.
Proof. induction s as [|c s IH]; [reflexivity|]. now rewrite app_cons, IH. Qed.

Lemma app_assoc_str s t u : (s +:+ t) +:+ u = s +:+ (t +:+ u).
Proof.
  induction s as [|c s IH]; [reflexivity|]. now rewrite !app_cons, IH.
Qed.

Lemma length_app_str s t : String.length (s +:+ t) = String.length s + String.length t.
Proof.
  induction s as [|c s IH]; [reflexivity|]. rewrite app_cons. simpl. now rewrite IH.
Qed.

Lemma orelse_Some {A} (x y : option A) : is_Some x -> Re.orelse x y = x.
Proof. now intros [v ->]. Qed.

Lemma orelse_None_r {A} (x : option A) : Re.orelse x None = x.
Proof. now destruct x. Qed.

Lemma run_ext r : forall n s k1 k2,
  (forall n' s', k1 n' s' = k2 n' s') -> Re.run r n s k1 = Re.run r n s k2.
Proof.
  induction r as [c|items|r1 IH1 r2 IH2|r1 IH1 r2 IH2|r1 IH1|r1 IH1];
    intros n s k1 k2 Hk; cbn [Re.run].
  - destruct s as [|c' s']; [reflexivity|]. now rewrite Hk.
  - destruct s as [|c' s']; [reflexivity|]. now rewrite Hk.
  - apply IH1. intros n' s'. now apply IH2.
  - now rewrite (IH1 n s k1 k2 Hk), (IH2 n s k1 k2 Hk).
  - now rewrite (IH1 n s k1 k2 Hk), Hk.
  - generalize (String.length s) as fuel. intros fuel. revert n s.
    induction fuel as [|fuel IHf]; intros n s.
    + apply IH1. intros n' s'. apply Hk.
    + apply IH1. intros n' s'. now rewrite IHf, Hk.
Qed.

Lemma run_Plus r n s k :
  Re.run (Re.Plus r) n s k = Re.plus_loop r k (String.length s) n s.
Proof.
  cbn [Re.run]. generalize (String.length s) as fuel. intros fuel. revert n s.
  induction fuel as [|fuel IHf]; intros n s.
  - reflexivity.
  - cbn [Re.plus_loop]. apply run_ext. intros n' s'. now rewrite IHf.
Qed.

Lemma percent_is_mark c : Re.class_matches marks c = false -> Ascii.eqb c "%" = false.
Proof.
  intros H. destruct (Ascii.eqb_spec c "%") as [->|]; [|reflexivity].
  vm_compute in H. discriminate.
Qed.

Lemma run_url_item n c s k :
  (forall n' s', is_Some (k n' s')) ->
  Re.run url_item n (String c s) k = if url_char c then k (S n) s else None.
Proof.
  intros Hk. unfold url_item, url_char. cbn [Re.run].
  destruct (Re.class_matches letters c); cbn [orb].
  { now apply orelse_Some. }
  cbn [Re.orelse].
  destruct (Re.class_matches digits c); cbn [orb].
  { now apply orelse_Some. }
  cbn [Re.orelse].
  destruct (Re.class_matches marks c) eqn:Hm; cbn [orb].
  { now apply orelse_Some. }
  cbn [Re.orelse].
  destruct (Re.class_matches extras c); cbn [orb].
  { now apply orelse_Some. }
  cbn [Re.orelse]. now rewrite (percent_is_mark _ Hm).
Qed.

Lemma plus_loop_url fuel : forall n s,
  String.length s <= fuel ->
  Re.plus_loop url_item (fun n' _ => Some n') fuel n s
  = match Str.span url_char s with
    | O => None
    | S m => Some (n + S m)
    end.
Proof.
  induction fuel as [|fuel IH]; intros n [|c s] Hlen; simpl in Hlen; try lia.
  - reflexivity.
  - reflexivity.
  - cbn [Re.plus_loop Str.span]. rewrite run_url_item.
    + destruct (url_char c); [|reflexivity].
      rewrite IH by lia.
      destruct (Str.span url_char s) as [|m]; cbn [Re.orelse]; f_equal; lia.
    + intros n' s'. destruct (Re.plus_loop _ _ fuel n' s'); cbn; eauto.
Qed.

Lemma run_url_body n s :
  Re.run (Re.Plus url_item) n s (fun n' _ => Some n')
  = match Str.span url_char s with
    | O => None
    | S m => Some (n + S m)
    end.
Proof. rewrite run_Plus. now apply plus_loop_url. Qed.

Ltac next_char s c :=
  destruct s as [|c s]; [reflexivity|];
  cbn [Str.strip_prefix Re.orelse].

Lemma match_len_URL s : Re.match_len URL_PATTERN s = url_match s.
Proof.
  unfold Re.match_len, URL_PATTERN, url_match.
  remember (Re.Plus url_item) as body eqn:Hbody.
  cbn [Re.run].
  next_char s c0. destruct (Ascii.eqb c0 "h"); [|reflexivity].
  next_char s c1. destruct (Ascii.eqb c1 "t"); [|reflexivity].
  next_char s c2. destruct (Ascii.eqb c2 "t"); [|reflexivity].
  next_char s c3. destruct (Ascii.eqb c3 "p"); [|reflexivity].
  next_char s c4.
  unfold Re.class_matches, existsb, Re.item_matches. rewrite orb_false_r.
  destruct (Ascii.eqb_spec c4 "s") as [->|Hs].
  - change (Ascii.eqb "s" ":") with false. cbn iota. rewrite orelse_None_r.
    next_char s c5. destruct (Ascii.eqb c5 ":"); [|reflexivity].
    next_char s c6. destruct (Ascii.eqb c6 "/"); [|reflexivity].
    next_char s c7. destruct (Ascii.eqb c7 "/"); [|reflexivity].
    subst body. rewrite run_url_body. reflexivity.
  - cbn [Re.orelse].
    destruct (Ascii.eqb c4 ":"); [|reflexivity].
    next_char s c5. destruct (Ascii.eqb c5 "/"); [|reflexivity].
    next_char s c6. destruct (Ascii.eqb c6 "/"); [|reflexivity].
    subst body. rewrite run_url_body. reflexivity.
Qed.

(** ** Slices and prefixes *)

Lemma take_length n s : n <= String.length s -> String.length (Str.take n s) = n.
Proof.
  revert s. induction n as [|n IH]; intros [|c s] H; simpl in *; try lia.
  rewrite IH; lia.
Qed.

Lemma drop_length n s : String.length (Str.drop n s) = String.length s - n.
Proof.
  revert s. induction n as [|n IH]; intros [|c s]; simpl; try lia. apply IH.
Qed.

Lemma take_drop n s : Str.take n s +:+ Str.drop n s = s.
Proof.
  revert s. induction n as [|n IH]; intros [|c s]; simpl; try reflexivity.
  now rewrite app_cons, IH.
Qed.

Lemma drop_drop n m s : Str.drop m (Str.drop n s) = Str.drop (n + m) s.
Proof.
  revert s. induction n as [|n IH]; intros [|c s]; simpl; try reflexivity.
  - now destruct m.
  - apply IH.
Qed.

Lemma take_app_length s t : Str.take (String.length s) (s +:+ t) = s.
Proof.
  induction s as [|c s IH]; [reflexivity|].
  rewrite app_cons. cbn [String.length Str.take]. now rewrite IH.
Qed.

Lemma drop_app_length s t : Str.drop (String.length s) (s +:+ t) = t.
Proof.
  induction s as [|c s IH]; [now destruct t|].
  rewrite app_cons. cbn [String.length Str.drop]. exact IH.
Qed.

Lemma take_app_le n s t :
  n <= String.length s -> Str.take n (s +:+ t) = Str.take n s.
Proof.
  revert s. induction n as [|n IH]; intros [|c s] H; cbn [String.length] in H;
    try lia; try reflexivity.
  rewrite app_cons. cbn [Str.take]. now rewrite IH by lia.
Qed.

Lemma strip_prefix_Some p s b : Str.strip_prefix p s = Some b <-> s = p +:+ b.
Proof.
  revert s. induction p as [|a p IH]; intros s; simpl.
  - rewrite app_empty_l. split; congruence.
  - rewrite app_cons. destruct s as [|c s].
    + split; discriminate.
    + destruct (Ascii.eqb_spec c a) as [->|Hne].
      * rewrite IH. split; congruence.
      * split; [discriminate|]. intros [= ? _]. contradiction.
Qed.

Lemma span_le p s : Str.span p s <= String.length s.
Proof. induction s as [|c s IH]; simpl; [lia|]. destruct (p c); lia. Qed.

Lemma span_forallb p s : Str.forallb p (Str.take (Str.span p s) s) = true.
Proof.
  induction s as [|c s IH]; simpl; [reflexivity|].
  destruct (p c) eqn:Hc; simpl; [|reflexivity]. now rewrite Hc, IH.
Qed.

(** The run found by [span] cannot be extended. *)
Lemma span_stops p s c rest :
  Str.drop (Str.span p s) s = String c rest -> p c = false.
Proof.
  induction s as [|a s IH]; simpl; [discriminate|].
  destruct (p a) eqn:Ha; simpl; [exact IH|]. intros [= -> _]. exact Ha.
Qed.

Lemma span_app_all p s t :
  Str.forallb p s = true -> Str.span p (s +:+ t) = String.length s + Str.span p t.
Proof.
  induction s as [|c s IH]; [reflexivity|].
  rewrite app_cons. cbn [Str.forallb Str.span String.length].
  intros H. apply andb_true_iff in H as [-> H]. now rewrite IH.
Qed.

Lemma span_app_stop p s c t :
  p c = false -> Str.span p (s +:+ String c t) = Str.span p s.
Proof.
  intros Hc. induction s as [|a s IH].
  - rewrite app_empty_l. cbn [Str.span]. now rewrite Hc.
  - rewrite app_cons. cbn [Str.span]. now rewrite IH.
Qed.

Lemma forallb_app p s t :
  Str.forallb p (s +:+ t) = Str.forallb p s && Str.forallb p t.
Proof.
  induction s as [|c s IH]; [reflexivity|].
  rewrite app_cons. cbn [Str.forallb]. now rewrite IH, andb_assoc.
Qed.

Lemma occurs_at_split p u s :
  occurs_at p u s <-> exists pre post, s = pre +:+ u +:+ post /\ String.length pre = p.
Proof.
  unfold occurs_at. split.
  - intros [Hlen Htake].
    exists (Str.take p s), (Str.drop (String.length u) (Str.drop p s)). split.
    + rewrite <- Htake at 1. now rewrite take_drop, take_drop.
    + apply take_length. lia.
  - intros (pre & post & -> & <-). split.
    + rewrite !length_app_str. lia.
    + now rewrite drop_app_length, take_app_length.
Qed.

Lemma occurs_at_drop n q u s :
  n <= String.length s -> occurs_at q u (Str.drop n s) -> occurs_at (n + q) u s.
Proof.
  unfold occurs_at. intros Hn [Hlen Htake].
  rewrite drop_length in Hlen. rewrite drop_drop in Htake. split; [lia|assumption].
Qed.

Lemma occurs_at_drop_inv n q u s :
  n <= q -> occurs_at q u s -> occurs_at (q - n) u (Str.drop n s).
Proof.
  unfold occurs_at. intros Hn [Hlen Htake].
  rewrite drop_length, drop_drop. replace (n + (q - n)) with q by lia.
  split; [lia|assumption].
Qed.

(** ** The language of [URL_PATTERN] *)

Lemma hex_is_url_char c : Re.class_matches hex_digits c = true -> url_char c = true.
Proof.
  intros H.
  assert (HLD : Re.class_matches letters c || Re.class_matches digits c = true).
  { revert H. unfold hex_digits, letters, digits, Re.class_matches, existsb, Re.item_matches.
    change (Re.code "0") with 48%N. change (Re.code "9") with 57%N.
    change (Re.code "a") with 97%N. change (Re.code "f") with 102%N.
    change (Re.code "z") with 122%N. change (Re.code "A") with 65%N.
    change (Re.code "F") with 70%N. change (Re.code "Z") with 90%N.
    generalize (Re.code c) as x. intros x.
    rewrite !orb_true_iff, !andb_true_iff, !N.leb_le. intros H.
    destruct H as [H|[H|[H|H]]]; try discriminate; lia. }
  unfold url_char. now rewrite HLD.
Qed.

Lemma lang_url_item x :
  Re.lang url_item x -> x <> "" /\ Str.forallb url_char x = true.
Proof.
  unfold url_item. intros H.
  repeat match goal with
         | H : Re.lang (Re.Or _ _) _ |- _ => inversion H; subst; clear H
         | H : Re.lang (Re.Cat _ _) _ |- _ => inversion H; subst; clear H
         | H : Re.lang (Re.Class _) _ |- _ => inversion H; subst; clear H
         | H : Re.lang (Re.Lit _) _ |- _ => inversion H; subst; clear H
         end;
    (split; [discriminate|]).
  1-4: cbn [Str.forallb]; unfold url_char;
       match goal with H : Re.class_matches _ _ = true |- _ => rewrite H end;
       now rewrite ?orb_true_r.
  rewrite !app_cons, !app_empty_l. cbn [Str.forallb].
  change (url_char "%") with true.
  repeat match goal with
         | H : Re.class_matches hex_digits _ = true |- _ =>
             apply hex_is_url_char in H; rewrite H
         end.
  reflexivity.
Qed.

Lemma lang_url_body b :
  Re.lang (Re.Plus url_item) b -> b <> "" /\ Str.forallb url_char b = true.
Proof.
  remember (Re.Plus url_item) as r eqn:Hr. intros H.
  induction H; try discriminate; injection Hr as ->.
  - now apply lang_url_item.
  - apply lang_url_item in H as [Hne Hs1].
    destruct (IHlang2 eq_refl) as [_ Hs2]. split.
    + destruct s1; [contradiction|discriminate].
    + now rewrite forallb_app, Hs1, Hs2.
Qed.

Lemma url_char_item c : url_char c = true -> Re.lang url_item (String c "").
Proof.
  unfold url_char, url_item. intros H.
  destruct (Re.class_matches letters c) eqn:H1.
  { apply Re.lang_or_l. now constructor. }
  apply Re.lang_or_r.
  destruct (Re.class_matches digits c) eqn:H2.
  { apply Re.lang_or_l. now constructor. }
  apply Re.lang_or_r.
  destruct (Re.class_matches marks c) eqn:H3.
  { apply Re.lang_or_l. now constructor. }
  apply Re.lang_or_r.
  destruct (Re.class_matches extras c) eqn:H4; [|discriminate].
  apply Re.lang_or_l. now constructor.
Qed.

Lemma url_body_lang b :
  b <> "" -> Str.forallb url_char b = true -> Re.lang (Re.Plus url_item) b.
Proof.
  induction b as [|c b IH]; [contradiction|]. intros _ H.
  cbn [Str.forallb] in H. apply andb_true_iff in H as [Hc Hb].
  destruct b as [|c' b'].
  - apply Re.lang_plus_one. now apply url_char_item.
  - change (String c (String c' b')) with (String c "" +:+ String c' b').
    apply Re.lang_plus_more; [now apply url_char_item|].
    apply IH; [discriminate|assumption].
Qed.

Lemma lang_URL_form u : Re.lang URL_PATTERN u <-> url_form u.
Proof.
  unfold URL_PATTERN, url_form. split.
  - intros H.
    repeat match goal with
           | H : Re.lang (Re.Cat _ _) _ |- _ => inversion H; subst; clear H
           | H : Re.lang (Re.Lit _) _ |- _ => inversion H; subst; clear H
           | H : Re.lang (Re.Opt _) _ |- _ => inversion H; subst; clear H
           | H : Re.lang (Re.Class _) _ |- _ => inversion H; subst; clear H
           end;
      match goal with
      | H : Re.lang (Re.Plus url_item) ?b |- _ =>
          apply lang_url_body in H as [Hne Hall]; rename b into body
      end.
    + exists "http://", body.
      split; [now left|]. split; [reflexivity|]. now split.
    + match goal with
      | H : Re.class_matches _ ?c = true |- _ =>
          unfold Re.class_matches, existsb, Re.item_matches in H;
          rewrite orb_false_r in H; apply Ascii.eqb_eq in H; subst c
      end.
      exists "https://", body.
      split; [now right|]. split; [reflexivity|]. now split.
  - intros (scheme & body & [-> | ->] & -> & Hne & Hall);
      apply (url_body_lang _ Hne) in Hall.
    + change ("http://" +:+ body)
        with ("h" +:+ "t" +:+ "t" +:+ "p" +:+ "" +:+ ":" +:+ "/" +:+ "/" +:+ body).
      repeat (apply Re.lang_cat; [constructor|]). assumption.
    + change ("https://" +:+ body)
        with ("h" +:+ "t" +:+ "t" +:+ "p" +:+ "s" +:+ ":" +:+ "/" +:+ "/" +:+ body).
      do 4 (apply Re.lang_cat; [constructor|]).
      apply Re.lang_cat; [apply Re.lang_opt_take; now constructor|].
      repeat (apply Re.lang_cat; [constructor|]). assumption.
Qed.

Lemma url_form_all_chars u : url_form u -> Str.forallb url_char u = true.
Proof.
  intros (scheme & body & [-> | ->] & -> & _ & Hall);
    rewrite forallb_app, Hall; reflexivity.
Qed.

Lemma url_form_length u : url_form u -> 8 <= String.length u.
Proof.
  intros (scheme & body & [-> | ->] & -> & Hne & _);
    rewrite length_app_str; destruct body; try contradiction; simpl; lia.
Qed.

Lemma take_app_ge s t k :
  Str.take (String.length s + k) (s +:+ t) = s +:+ Str.take k t.
Proof.
  induction s as [|c s IH]; [reflexivity|].
  rewrite !app_cons. cbn [String.length Nat.add Str.take]. now rewrite IH.
Qed.

Lemma drop_app_ge s t k :
  Str.drop (String.length s + k) (s +:+ t) = Str.drop k t.
Proof.
  induction s as [|c s IH]; [reflexivity|].
  rewrite !app_cons. cbn [String.length Nat.add Str.drop]. exact IH.
Qed.

(** What a successful match looks like. *)
Lemma url_match_Some s n :
  url_match s = Some n ->
  exists scheme body m,
    (scheme = "http://" \/ scheme = "https://") /\
    s = scheme +:+ body /\ Str.span url_char body = S m /\
    n = String.length scheme + S m.
Proof.
  unfold url_match.
  destruct (Str.strip_prefix "https://" s) as [b|] eqn:E1.
  - apply strip_prefix_Some in E1.
    destruct (Str.span url_char b) as [|m] eqn:Sp; [discriminate|].
    intros [= <-]. exists "https://", b, m. auto.
  - destruct (Str.strip_prefix "http://" s) as [b|] eqn:E2; [|discriminate].
    apply strip_prefix_Some in E2.
    destruct (Str.span url_char b) as [|m] eqn:Sp; [discriminate|].
    intros [= <-]. exists "http://", b, m. auto.
Qed.

Lemma url_match_facts s n :
  url_match s = Some n ->
  8 <= n /\ n <= String.length s /\ url_form (Str.take n s) /\
  (forall c rest, Str.drop n s = String c rest -> url_char c = false).
Proof.
  intros H. apply url_match_Some in H as (scheme & body & m & Hsch & -> & Sp & ->).
  pose proof (span_le url_char body) as Hle.
  pose proof (span_forallb url_char body) as Hall. rewrite Sp in Hle, Hall.
  rewrite take_app_ge, drop_app_ge, length_app_str.
  repeat split.
  - destruct Hsch as [-> | ->]; simpl; lia.
  - lia.
  - exists scheme, (Str.take (S m) body). repeat split; try assumption.
    destruct body; [simpl in Hle; lia|discriminate].
  - intros c rest Hd. rewrite <- Sp in Hd. eapply span_stops; eassumption.
Qed.

(** A string of the grammar at the head of [s] is matched, and the match
    extends at least as far. *)
Lemma url_match_of_form v rest :
  url_form v -> exists n, url_match (v +:+ rest) = Some n /\ String.length v <= n.
Proof.
  intros (scheme & body & Hsch & -> & Hne & Hall).
  rewrite app_assoc_str, length_app_str.
  assert (Hsp : Str.span url_char (body +:+ rest)
                = String.length body + Str.span url_char rest)
    by now apply span_app_all.
  assert (Hpos : 0 < String.length body) by (destruct body; [contradiction|simpl; lia]).
  unfold url_match. destruct Hsch as [-> | ->].
  - rewrite !app_cons, app_empty_l. cbn [Str.strip_prefix].
    change (Ascii.eqb "h" "h") with true. change (Ascii.eqb "t" "t") with true.
    change (Ascii.eqb "p" "p") with true. change (Ascii.eqb ":" "s") with false.
    change (Ascii.eqb ":" ":") with true. change (Ascii.eqb "/" "/") with true.
    cbn iota. rewrite Hsp.
    destruct (String.length body + Str.span url_char rest) as [|m] eqn:Em; [lia|].
    eexists. split; [reflexivity|]. simpl. lia.
  - rewrite !app_cons, app_empty_l. cbn [Str.strip_prefix].
    change (Ascii.eqb "h" "h") with true. change (Ascii.eqb "t" "t") with true.
    change (Ascii.eqb "p" "p") with true. change (Ascii.eqb "s" "s") with true.
    change (Ascii.eqb ":" ":") with true. change (Ascii.eqb "/" "/") with true.
    cbn iota. rewrite Hsp.
    destruct (String.length body + Str.span url_char rest) as [|m] eqn:Em; [lia|].
    eexists. split; [reflexivity|]. simpl. lia.
Qed.

(** ** The scan of [finditer], one match at a time *)

Lemma finditer_go_skip r k : forall pos s,
  k <= String.length s ->
  Re.finditer_go r k pos s = Re.finditer_go r 0 (k + pos) (Str.drop k s).
Proof.
  induction k as [|k IH]; intros pos s Hk; [reflexivity|].
  destruct s as [|c s]; simpl in Hk; [lia|].
  cbn [Re.finditer_go Str.drop]. rewrite IH by lia. f_equal. lia.
Qed.

Lemma finditer_url_nil pos : Re.finditer_go URL_PATTERN 0 pos "" = [].
Proof. reflexivity. Qed.

Lemma finditer_url_hit s n pos :
  url_match s = Some n ->
  Re.finditer_go URL_PATTERN 0 pos s
  = (pos, Str.take n s) :: Re.finditer_go URL_PATTERN 0 (n + pos) (Str.drop n s).
Proof.
  intros H. destruct (url_match_facts _ _ H) as (H8 & Hle & _).
  destruct s as [|c s]; simpl in Hle; [lia|].
  destruct n as [|n]; [lia|].
  cbn [Re.finditer_go]. rewrite match_len_URL, H. cbn [Nat.pred].
  rewrite finditer_go_skip by lia. cbn [Str.drop]. do 2 f_equal. lia.
Qed.

Lemma finditer_url_miss c s pos :
  url_match (String c s) = None ->
  Re.finditer_go URL_PATTERN 0 pos (String c s)
  = Re.finditer_go URL_PATTERN 0 (S pos) s.
Proof. intros H. cbn [Re.finditer_go]. now rewrite match_len_URL, H. Qed.

(** Induction along the scan. *)
Lemma finditer_url_ind (P : nat -> string -> list (nat * string) -> Prop) :
  (forall pos, P pos "" []) ->
  (forall pos s n,
      url_match s = Some n ->
      P (n + pos) (Str.drop n s)
        (Re.finditer_go URL_PATTERN 0 (n + pos) (Str.drop n s)) ->
      P pos s ((pos, Str.take n s)
               :: Re.finditer_go URL_PATTERN 0 (n + pos) (Str.drop n s))) ->
  (forall pos c s,
      url_match (String c s) = None ->
      P (S pos) s (Re.finditer_go URL_PATTERN 0 (S pos) s) ->
      P pos (String c s) (Re.finditer_go URL_PATTERN 0 (S pos) s)) ->
  forall s pos, P pos s (Re.finditer_go URL_PATTERN 0 pos s).
Proof.
  intros Hnil Hhit Hmiss s.
  remember (String.length s) as len eqn:Hlen.
  revert s Hlen. induction len as [len IH] using lt_wf_ind. intros s Hlen pos.
  destruct (url_match s) as [n|] eqn:Hm.
  - rewrite (finditer_url_hit _ _ _ Hm). apply Hhit; [assumption|].
    destruct (url_match_facts _ _ Hm) as (H8 & Hle & _).
    apply (IH (String.length (Str.drop n s))); [|reflexivity].
    rewrite drop_length. lia.
  - destruct s as [|c s]; [apply Hnil|].
    rewrite (finditer_url_miss _ _ _ Hm). apply Hmiss; [assumption|].
    apply (IH (String.length s)); [|reflexivity]. simpl in Hlen. lia.
Qed.

(** Every reported match starts at or after the scan position, is the text
    found there, and belongs to the grammar. *)
Lemma finditer_sound s pos p u :
  In (p, u) (Re.finditer_go URL_PATTERN 0 pos s) ->
  pos <= p /\ occurs_at (p - pos) u s /\ url_form u.
Proof.
  revert p u. pattern pos, s, (Re.finditer_go URL_PATTERN 0 pos s).
  apply finditer_url_ind; clear pos s.
  - intros pos p u [].
  - intros pos s n Hm IH p u [Heq|Hin].
    + injection Heq as <- <-.
      destruct (url_match_facts _ _ Hm) as (H8 & Hle & Hform & _).
      split; [lia|]. split; [|assumption].
      replace (pos - pos) with 0 by lia. unfold occurs_at.
      rewrite take_length by assumption. cbn [Str.drop]. split; [lia|].
      destruct s; [reflexivity|]. cbn [Str.drop].
      rewrite <- (take_drop n (String a s)) at 1.
      rewrite <- (take_length n (String a s)) at 1 by assumption.
      apply take_app_length.
    + destruct (url_match_facts _ _ Hm) as (H8 & Hle & _).
      destruct (IH _ _ Hin) as (Hp & Hocc & Hform).
      split; [lia|]. split; [|assumption].
      replace (p - pos) with (n + (p - (n + pos))) by lia.
      now apply occurs_at_drop.
  - intros pos c s Hm IH p u Hin.
    destruct (IH _ _ Hin) as (Hp & Hocc & Hform).
    split; [lia|]. split; [|assumption].
    replace (p - pos) with (1 + (p - S pos)) by lia.
    apply (occurs_at_drop 1); [simpl; lia|exact Hocc].
Qed.

Lemma finditer_ordered s pos :
  StronglySorted ends_before (Re.finditer_go URL_PATTERN 0 pos s).
Proof.
  pattern pos, s, (Re.finditer_go URL_PATTERN 0 pos s).
  apply finditer_url_ind; clear pos s.
  - intros. constructor.
  - intros pos s n Hm IH. constructor; [assumption|].
    destruct (url_match_facts _ _ Hm) as (H8 & Hle & _).
    apply List.Forall_forall. intros [p u] Hin.
    apply finditer_sound in Hin as (Hp & _).
    unfold ends_before. cbn [fst snd]. rewrite take_length by assumption. lia.
  - intros pos c s Hm IH. exact IH.
Qed.

(** A character of an occurrence of [v] is a character of [v]. *)
Lemma occurs_at_char p q v s n :
  occurs_at q v s -> Str.forallb p v = true -> q <= n -> n < q + String.length v ->
  exists c rest, Str.drop n s = String c rest /\ p c = true.
Proof.
  intros Hocc Hall Hq Hn.
  apply occurs_at_split in Hocc as (pre & post & -> & <-).
  replace n with (String.length pre + (n - String.length pre)) by lia.
  rewrite drop_app_ge.
  assert (Hk : n - String.length pre < String.length v) by lia.
  revert Hk Hall. generalize (n - String.length pre) as k. clear.
  induction v as [|c v IH]; intros k Hk Hall; simpl in Hk; [lia|].
  cbn [Str.forallb] in Hall. apply andb_true_iff in Hall as [Hc Hv].
  rewrite app_cons. destruct k as [|k].
  - cbn [Str.drop]. eauto.
  - cbn [Str.drop]. apply IH; [lia|assumption].
Qed.

Lemma occurs_at_0_app v s : occurs_at 0 v s -> exists rest, s = v +:+ rest.
Proof.
  intros H. apply occurs_at_split in H as (pre & post & -> & Hpre).
  destruct pre; [|discriminate]. now exists post.
Qed.

(** Every occurrence of a string of the grammar lies within a reported
    match. *)
Lemma finditer_complete s pos : forall q v,
  occurs_at q v s -> url_form v ->
  exists p u, In (p, u) (Re.finditer_go URL_PATTERN 0 pos s) /\
              p <= pos + q /\ pos + q + String.length v <= p + String.length u.
Proof.
  pattern pos, s, (Re.finditer_go URL_PATTERN 0 pos s).
  apply finditer_url_ind; clear pos s.
  - intros pos q v [Hlen _] Hform. apply url_form_length in Hform.
    simpl in Hlen. lia.
  - intros pos s n Hm IH q v Hocc Hform.
    destruct (url_match_facts _ _ Hm) as (H8 & Hle & _ & Hstop).
    destruct (Nat.lt_ge_cases q n) as [Hlt|Hge].
    + exists pos, (Str.take n s). split; [now left|]. split; [lia|].
      rewrite take_length by assumption.
      destruct (Nat.le_gt_cases (q + String.length v) n) as [Hin|Hout]; [lia|].
      exfalso.
      destruct (occurs_at_char url_char q v s n Hocc) as (c & rest & Hd & Hc);
        [now apply url_form_all_chars|lia|lia|].
      rewrite (Hstop _ _ Hd) in Hc. discriminate.
    + destruct (IH (q - n) v) as (p & u & Hin & Hp & Hend);
        [now apply occurs_at_drop_inv|assumption|].
      exists p, u. split; [now right|]. lia.
  - intros pos c s Hm IH q v Hocc Hform.
    destruct q as [|q].
    + exfalso. apply occurs_at_0_app in Hocc as (rest & Hs).
      destruct (url_match_of_form v rest Hform) as (n & Hn & _).
      rewrite <- Hs, Hm in Hn. discriminate.
    + destruct (IH q v) as (p & u & Hin & Hp & Hend).
      * apply (occurs_at_drop_inv 1) in Hocc; [|lia].
        cbn [Str.drop] in Hocc. replace (S q - 1) with q in Hocc by lia.
        exact Hocc.
      * assumption.
      * exists p, u. split; [assumption|]. lia.
Qed.

(** ** Texts separated by a character that no URL contains *)

Lemma strip_prefix_app_stop q p : forall t1 c t2,
  Str.forallb q p = true -> q c = false ->
  Str.strip_prefix p (t1 +:+ String c t2)
  = option_map (fun b => b +:+ String c t2) (Str.strip_prefix p t1).
Proof.
  induction p as [|a p IH]; intros t1 c t2 Hp Hc; [reflexivity|].
  cbn [Str.forallb] in Hp. apply andb_true_iff in Hp as [Ha Hp].
  destruct t1 as [|b t1].
  - rewrite app_empty_l. cbn [Str.strip_prefix option_map].
    destruct (Ascii.eqb_spec c a) as [->|_]; [congruence|reflexivity].
  - rewrite app_cons. cbn [Str.strip_prefix].
    destruct (Ascii.eqb b a); [now apply IH|reflexivity].
Qed.

Lemma url_match_app_stop t1 c t2 :
  url_char c = false -> url_match (t1 +:+ String c t2) = url_match t1.
Proof.
  intros Hc. unfold url_match.
  rewrite !(strip_prefix_app_stop url_char) by (assumption || reflexivity).
  destruct (Str.strip_prefix "https://" t1) as [b|]; cbn [option_map].
  - now rewrite span_app_stop.
  - destruct (Str.strip_prefix "http://" t1) as [b|]; cbn [option_map];
      [now rewrite span_app_stop|reflexivity].
Qed.

Lemma finditer_app_stop c t2 :
  url_char c = false ->
  forall t1 skip pos,
    skip <= String.length t1 ->
    Re.finditer_go URL_PATTERN skip pos (t1 +:+ String c t2)
    = Re.finditer_go URL_PATTERN skip pos t1
      ++ Re.finditer_go URL_PATTERN 0 (S (String.length t1 + pos)) t2.
Proof.
  intros Hc. induction t1 as [|a t1 IH]; intros skip pos Hskip.
  - simpl in Hskip. replace skip with 0 by lia.
    rewrite app_empty_l, finditer_url_nil.
    rewrite finditer_url_miss; [reflexivity|].
    now rewrite <- (app_empty_l (String c t2)), url_match_app_stop.
  - destruct skip as [|k].
    + pose proof (url_match_app_stop (String a t1) c t2 Hc) as Hm.
      rewrite app_cons in *. cbn [Re.finditer_go].
      rewrite !match_len_URL, Hm.
      destruct (url_match (String a t1)) as [n|] eqn:Hn.
      * destruct (url_match_facts _ _ Hn) as (H8 & Hle & _).
        simpl in Hle. rewrite IH by lia.
        rewrite <- (app_cons a t1 (String c t2)), take_app_le by (simpl; lia).
        cbn [String.length app]. do 3 f_equal. lia.
      * rewrite IH by lia. cbn [String.length]. do 3 f_equal. lia.
    + rewrite app_cons. cbn [Re.finditer_go]. simpl in Hskip.
      rewrite IH by lia. cbn [String.length]. do 3 f_equal. lia.
Qed.

Lemma finditer_go_shift r : forall s skip pos pos',
  map snd (Re.finditer_go r skip pos s) = map snd (Re.finditer_go r skip pos' s).
Proof.
  induction s as [|c s IH]; intros skip pos pos'.
  - destruct skip; [|reflexivity]. cbn [Re.finditer_go].
    now destruct (Re.match_len r "").
  - destruct skip as [|k]; cbn [Re.finditer_go].
    + destruct (Re.match_len r (String c s)); cbn [map snd];
        now rewrite (IH _ (S pos) (S pos')).
    + apply IH.
Qed.

Lemma findall_app_stop t1 c t2 :
  url_char c = false ->
  Re.findall URL_PATTERN (t1 +:+ String c t2)
  = Re.findall URL_PATTERN t1 ++ Re.findall URL_PATTERN t2.
Proof.
  intros Hc. unfold Re.findall, Re.finditer.
  rewrite (finditer_app_stop c t2 Hc) by lia. rewrite map_app. f_equal.
  apply finditer_go_shift.
Qed.

Lemma take_all s : Str.take (String.length s) s = s.
Proof. rewrite <- (app_empty_r s) at 2. apply take_app_length. Qed.

Lemma drop_all s : Str.drop (String.length s) s = "".
Proof. rewrite <- (app_empty_r s) at 2. apply drop_app_length. Qed.

Lemma findall_single u : url_form u -> Re.findall URL_PATTERN u = [u].
Proof.
  intros Hform. destruct (url_match_of_form u "" Hform) as (n & Hn & Hge).
  rewrite app_empty_r in Hn.
  destruct (url_match_facts _ _ Hn) as (_ & Hle & _).
  assert (n = String.length u) as -> by lia.
  unfold Re.findall, Re.finditer. rewrite (finditer_url_hit _ _ _ Hn).
  now rewrite take_all, drop_all, finditer_url_nil.
Qed.

Lemma findall_nonempty_strings text u :
  In u (Re.findall URL_PATTERN text) -> u <> "".
Proof.
  unfold Re.findall, Re.finditer. intros Hin.
  apply in_map_iff in Hin as ([p u'] & <- & Hin).
  apply finditer_sound in Hin as (_ & _ & Hform).
  apply url_form_length in Hform. cbn [snd].
  destruct u'; [simpl in Hform; lia|discriminate].
Qed.

(** ** The extractor (claim C3) *)

(** C3 -- URL extraction.  For every text, [URL_PATTERN.finditer] reports
    matches that (1) are substrings of the text at the reported offsets and
    belong to the language of the pattern, (2) come in left-to-right order,
    each ending before the next one starts, and (3) cover every substring
    of the text that belongs to the language: such a substring lies within a
    reported match.  (4) The result is empty exactly when no substring of the
    text belongs to the language.  (5) Nothing is deduplicated: a further
    occurrence of a URL, after a character that no URL contains, adds a
    further entry, whether or not that URL was found before.  The extractor
    is a function of the text alone. *)
Theorem url_extraction_findall : forall text : string,
  (forall p u, In (p, u) (Re.finditer URL_PATTERN text) ->
               occurs_at p u text /\ Re.lang URL_PATTERN u) /\
  StronglySorted ends_before (Re.finditer URL_PATTERN text) /\
  (forall q v, occurs_at q v text -> Re.lang URL_PATTERN v ->
               exists p u, In (p, u) (Re.finditer URL_PATTERN text) /\
                           p <= q /\ q + String.length v <= p + String.length u) /\
  (Re.findall URL_PATTERN text = [] <->
   ~ exists q v, occurs_at q v text /\ Re.lang URL_PATTERN v) /\
  (forall c u, url_char c = false -> Re.lang URL_PATTERN u ->
               Re.findall URL_PATTERN (text +:+ String c u)
               = Re.findall URL_PATTERN text ++ [u]).
Proof.
  intros text.
  assert (Hsound : forall p u, In (p, u) (Re.finditer URL_PATTERN text) ->
                               occurs_at p u text /\ Re.lang URL_PATTERN u).
  { intros p u Hin. apply finditer_sound in Hin as (_ & Hocc & Hform).
    rewrite Nat.sub_0_r in Hocc. split; [assumption|]. now apply lang_URL_form. }
  assert (Hcomplete : forall q v, occurs_at q v text -> Re.lang URL_PATTERN v ->
             exists p u, In (p, u) (Re.finditer URL_PATTERN text) /\
                         p <= q /\ q + String.length v <= p + String.length u).
  { intros q v Hocc Hlang. apply lang_URL_form in Hlang.
    destruct (finditer_complete text 0 q v Hocc Hlang) as (p & u & Hin & Hp & Hend).
    exists p, u. split; [assumption|]. split; lia. }
  split; [exact Hsound|]. split; [apply finditer_ordered|].
  split; [exact Hcomplete|]. split.
  - split.
    + intros Hnil (q & v & Hocc & Hlang).
      destruct (Hcomplete q v Hocc Hlang) as (p & u & Hin & _).
      unfold Re.findall in Hnil. apply map_eq_nil in Hnil.
      rewrite Hnil in Hin. destruct Hin.
    + intros Hnone. unfold Re.findall.
      destruct (Re.finditer URL_PATTERN text) as [|[p u] l] eqn:Hl; [reflexivity|].
      exfalso. apply Hnone. exists p, u. apply Hsound. now left.
  - intros c u Hc Hlang. rewrite findall_app_stop by assumption.
    f_equal. apply findall_single. now apply lang_URL_form.
Qed.

Lemma url_extraction_findall_witness :
  Re.findall URL_PATTERN
    ("check this out http://a.example/x and" +:+ String " " "http://a.example/x")
  = Re.findall URL_PATTERN "check this out http://a.example/x and"
    ++ ["http://a.example/x"].
Proof.
  destruct (url_extraction_findall "check this out http://a.example/x and")
    as (_ & _ & _ & _ & Hdup).
  apply Hdup.
  - reflexivity.
  - apply lang_URL_form. exists "http://", "a.example/x".
    split; [now left|]. split; [reflexivity|]. split; [discriminate|reflexivity].
Defined.

Example findall_scenario :
  Re.findall URL_PATTERN "check this out http://a.example/x and http://a.example/x"
  = ["http://a.example/x"; "http://a.example/x"].
Proof. reflexivity. Qed.

Example finditer_mixed :
  Re.finditer URL_PATTERN "see https://x.org/a%2Fb, (http://y) and httpx://no http://"
  = [(4, "https://x.org/a%2Fb,"); (26, "http://y)")].
Proof. vm_compute. reflexivity. Qed.

(** ** Ingestion, as a whole *)

Lemma from_message_true key mid r :
  from_message key mid r = true <->
  l_chat_id r = key /\ message_id (l_data r) = Some mid.
Proof.
  unfold from_message. rewrite andb_true_iff, String.eqb_eq.
  destruct (message_id (l_data r)) as [m|].
  - rewrite Z.eqb_eq. split; intros [H1 H2]; split; congruence.
  - split; intros [H1 H2]; discriminate.
Qed.

Lemma filter_none {A} (f : A -> bool) l :
  (forall x, In x l -> f x = false) -> List.filter f l = [].
Proof.
  induction l as [|x l IH]; intros H; [reflexivity|]. simpl.
  rewrite (H x) by now left. apply IH. intros y Hy. apply H. now right.
Qed.

Lemma filter_all {A} (f : A -> bool) l :
  (forall x, In x l -> f x = true) -> List.filter f l = l.
Proof.
  induction l as [|x l IH]; intros H; [reflexivity|]. simpl.
  rewrite (H x) by now left. f_equal. apply IH. intros y Hy. apply H. now right.
Qed.

Lemma filter_filter_neg {A} (f : A -> bool) l :
  List.filter f (List.filter (fun x => negb (f x)) l) = [].
Proof.
  apply filter_none. intros x Hx. apply filter_In in Hx as [_ Hx].
  now destruct (f x).
Qed.

Lemma filter_filter_other {A} (f g : A -> bool) l :
  (forall x, f x = true -> g x = false) ->
  List.filter f (List.filter (fun x => negb (g x)) l) = List.filter f l.
Proof.
  intros Hfg. induction l as [|x l IH]; [reflexivity|]. simpl.
  destruct (g x) eqn:Hg; simpl.
  - destruct (f x) eqn:Hf; [|exact IH]. rewrite (Hfg x Hf) in Hg. discriminate.
  - now rewrite IH.
Qed.

Lemma ingested_from E key mid user urls : forall i r,
  In r (ingested E key mid user i urls) ->
  l_chat_id r = key /\ message_id (l_data r) = Some mid /\
  exists j, l_data r = composed E mid user j (url (l_data r)) /\ In (url (l_data r)) urls.
Proof.
  induction urls as [|u us IH]; intros i r Hin; [destruct Hin|].
  destruct Hin as [<- | Hin].
  - simpl. repeat split. exists i. split; [reflexivity|now left].
  - destruct (IH _ _ Hin) as (Hk & Hm & j & Hj & Hu).
    repeat split; try assumption. exists j. split; [assumption|now right].
Qed.

Lemma ingested_urls E key mid user urls : forall i,
  map (fun r => url (l_data r)) (ingested E key mid user i urls) = urls.
Proof. induction urls as [|u us IH]; intros i; simpl; [reflexivity|]. now rewrite IH. Qed.

Lemma ingested_nth E key mid user urls : forall i n u,
  nth_error urls n = Some u ->
  nth_error (ingested E key mid user i urls) n
  = Some (mkLink key (composed E mid user (2 * n + i) u)).
Proof.
  induction urls as [|u0 us IH]; intros i n u Hn; [now destruct n|].
  destruct n as [|n]; simpl in *.
  - now injection Hn as ->.
  - rewrite (IH _ _ _ Hn). do 3 f_equal. lia.
Qed.

Lemma stored_for_ingested E key mid user i urls :
  List.filter (from_message key mid) (ingested E key mid user i urls)
  = ingested E key mid user i urls.
Proof.
  apply filter_all. intros r Hr. apply ingested_from in Hr as (Hk & Hm & _).
  now apply from_message_true.
Qed.

Lemma stored_other_ingested E key mid user i urls key' mid' :
  key' <> key \/ mid' <> mid ->
  List.filter (from_message key' mid') (ingested E key mid user i urls) = [].
Proof.
  intros Hne. apply filter_none. intros r Hr.
  apply ingested_from in Hr as (Hk & Hm & _).
  destruct (from_message key' mid' r) eqn:F; [|reflexivity].
  apply from_message_true in F as [F1 F2]. destruct Hne; congruence.
Qed.

(** A message without URL, or no message at all: nothing happens. *)
Lemma handle_message_noop E u st :
  (forall m, update_message u = Some m ->
             Re.findall URL_PATTERN (message_text m) = []) ->
  handle_message E u st = (Ok tt, st).
Proof.
  intros H. unfold handle_message.
  destruct (update_message u) as [m|]; [|reflexivity].
  now rewrite (H m eq_refl).
Qed.

(** A message with URLs: the purge, then one row per URL, or the first
    insertion fails on the foreign key. *)
Lemma handle_message_urls E u m st db :
  update_message u = Some m -> db_conn st = Some db ->
  Re.findall URL_PATTERN (message_text m) <> [] ->
  let key := pretty (Telegram.chat_id m) in
  let mid := Telegram.message_id m in
  let urls := Re.findall URL_PATTERN (message_text m) in
  let kept := List.filter (fun r => negb (from_message key mid r)) (links db) in
  (registered key db ->
   handle_message E u st
   = (Ok tt,
      mkState (Some (mkDB (groups db)
                 (kept ++ ingested E key mid (message_user_name m) (ticks st) urls)))
              (2 * length urls + ticks st))) /\
  (~ registered key db ->
   handle_message E u st
   = (Raise (IntegrityError "FOREIGN KEY constraint failed"),
      mkState (Some (mkDB (groups db) kept)) (S (S (ticks st))))).
Proof.
  intros Hu Hdb Hurls key mid urls kept. unfold handle_message. rewrite Hu.
  fold urls. destruct urls as [|u0 us] eqn:Eurls; [contradiction|].
  erewrite bind_ok by (apply delete_group_links_run; eassumption).
  cbn [chat_id_str]. fold key mid kept. split; intros Hreg.
  - now rewrite (for_each_ingest_ok E _ _ _ _
                   (mkState (Some (mkDB (groups db) kept)) (ticks st))
                   (mkDB (groups db) kept) eq_refl Hreg).
  - cbn [for_each].
    erewrite bind_raise; [reflexivity|].
    now rewrite (ingest_url_unregistered E _ _ _ _
                   (mkState (Some (mkDB (groups db) kept)) (ticks st))
                   (mkDB (groups db) kept) eq_refl Hreg).
Qed.

Lemma handle_message_groups E u st db :
  db_conn st = Some db ->
  exists db', db_conn (snd (handle_message E u st)) = Some db' /\
              groups db' = groups db.
Proof.
  intros Hdb.
  destruct (update_message u) as [m|] eqn:Hu.
  2:{ rewrite handle_message_noop by (intros m; congruence). now exists db. }
  destruct (Re.findall URL_PATTERN (message_text m)) as [|u0 us] eqn:Hurls.
  { rewrite handle_message_noop; [now exists db|].
    intros m' Hm'. congruence. }
  destruct (handle_message_urls E u m st db Hu Hdb) as [Hok Hfail];
    [rewrite Hurls; discriminate|].
  destruct (registered_dec (pretty (Telegram.chat_id m)) db) as [Hreg|Hreg].
  - rewrite (Hok Hreg). eexists. split; reflexivity.
  - rewrite (Hfail Hreg). eexists. split; reflexivity.
Qed.

(** ** No URL, no effect (claim C9) *)

Lemma message_text_absent m :
  Telegram.text m = None -> Telegram.caption m = None -> message_text m = "".
Proof. unfold message_text. now intros -> ->. Qed.

(** C9 -- No-URL no-op.  An update without message, a message whose text
    (body, else caption) contains no URL, and a message with neither body
    nor caption all leave the program state exactly as it was: the handler
    returns normally, nothing is purged, nothing is inserted, and nothing is
    fetched. *)
Theorem no_url_is_noop : forall (E : Env) (u : Telegram.Update) (st : State),
  (update_message u = None \/
   exists m, update_message u = Some m /\
             (Re.findall URL_PATTERN (message_text m) = [] \/
              (Telegram.text m = None /\ Telegram.caption m = None))) ->
  handle_message E u st = (Ok tt, st).
Proof.
  intros E u st H. apply handle_message_noop. intros m Hm.
  destruct H as [H | (m' & Hm' & H)]; [congruence|].
  assert (m' = m) as -> by congruence.
  destruct H as [H | [Ht Hc]]; [assumption|].
  now rewrite message_text_absent.
Qed.

Lemma no_url_is_noop_witness :
  let st1 := snd (handle_message sample_env update_first sample_state) in
  handle_message sample_env update_no_url st1 = (Ok tt, st1).
Proof.
  intros st1. apply no_url_is_noop. right. exists msg_no_url.
  split; [reflexivity|]. left. reflexivity.
Defined.

(** ** Edit reconciliation (claim C1) *)

(** C1, as stated, fails: an edit that removes every URL from a message
    purges nothing.  [update_first] stores two links for message 7 of group
    1; the edit [update_no_url] of the same message has no URL, so its
    ingestion produces no link; both old links are still stored after it. *)
Lemma edit_without_url_keeps_links :
  let st1 := snd (handle_message sample_env update_first sample_state) in
  let st2 := snd (handle_message sample_env update_no_url st1) in
  Re.findall URL_PATTERN (message_text msg_no_url) = [] /\
  (exists db2,
      db_conn st2 = Some db2 /\
      map (fun r => url (l_data r)) (stored_for "1" 7 db2)
      = ["http://a.example/x"; "http://a.example/x"]) /\
  ~ purges_on_every_event.
Proof.
  split; [reflexivity|]. split.
  - eexists. split; vm_compute; reflexivity.
  - intros H.
    destruct (H sample_env update_no_url msg_no_url
                (snd (handle_message sample_env update_first sample_state))
                (mkDB [mkGroup "1" "token-a"]
                      (ingested sample_env "1" 7 "Ann" 0
                         ["http://a.example/x"; "http://a.example/x"])))
      as (db' & Hdb' & Hurls).
    + reflexivity.
    + vm_compute. reflexivity.
    + vm_compute. now left.
    + vm_compute in Hdb'. injection Hdb' as <-. vm_compute in Hurls. discriminate.
Qed.

(** C1, amended -- Idempotent edit reconciliation.  When a message event of
    group [g] and identifier [m] whose text contains at least one URL is
    ingested after an earlier event of the same [(g, m)], every link stored
    before for [(g, m)] is deleted first: in a group that has a row in
    [groups], the handler returns normally and the links stored for [(g, m)]
    are exactly the rows written by this second ingestion, one per URL of
    its text in order; in a group without such a row the first insertion
    fails and no link is stored for [(g, m)].  The links of every other
    message are as the first ingestion left them. *)
Theorem edit_replaces_links :
  forall (E : Env) (u1 u2 : Telegram.Update) (m1 m2 : Telegram.Message)
         (st : State) (db : DB),
    db_conn st = Some db ->
    update_message u1 = Some m1 ->
    update_message u2 = Some m2 ->
    Telegram.chat_id m1 = Telegram.chat_id m2 ->
    Telegram.message_id m1 = Telegram.message_id m2 ->
    Re.findall URL_PATTERN (message_text m2) <> [] ->
    let key := pretty (Telegram.chat_id m2) in
    let mid := Telegram.message_id m2 in
    let urls := Re.findall URL_PATTERN (message_text m2) in
    let st1 := snd (handle_message E u1 st) in
    let st2 := snd (handle_message E u2 st1) in
    exists db1 db2,
      db_conn st1 = Some db1 /\ db_conn st2 = Some db2 /\
      groups db2 = groups db /\
      (registered key db ->
       fst (handle_message E u2 st1) = Ok tt /\
       stored_for key mid db2
       = ingested E key mid (message_user_name m2) (ticks st1) urls /\
       map (fun r => url (l_data r)) (stored_for key mid db2) = urls) /\
      (~ registered key db -> stored_for key mid db2 = []) /\
      (forall key' mid', key' <> key \/ mid' <> mid ->
                         stored_for key' mid' db2 = stored_for key' mid' db1).
Proof.
  intros E u1 u2 m1 m2 st db Hdb Hu1 Hu2 Hchat Hmid Hurls key mid urls st1 st2.
  destruct (handle_message_groups E u1 st db Hdb) as (db1 & Hdb1 & Hg1).
  fold st1 in Hdb1.
  destruct (handle_message_urls E u2 m2 st1 db1 Hu2 Hdb1 Hurls) as [Hok Hfail].
  fold key mid urls in Hok, Hfail.
  assert (Hother : forall key' mid' l, key' <> key \/ mid' <> mid ->
            List.filter (from_message key' mid')
              (List.filter (fun r => negb (from_message key mid r)) l)
            = List.filter (from_message key' mid') l).
  { intros key' mid' l Hne. apply filter_filter_other. intros r Hr.
    apply from_message_true in Hr as [Hr1 Hr2].
    destruct (from_message key mid r) eqn:F; [|reflexivity].
    apply from_message_true in F as [F1 F2]. destruct Hne; congruence. }
  destruct (registered_dec key db1) as [Hreg|Hreg].
  - specialize (Hok Hreg). eexists db1, _. subst st2. rewrite Hok. cbn [snd fst db_conn].
    split; [assumption|]. split; [reflexivity|]. split; [exact Hg1|].
    unfold stored_for. cbn [links].
    split; [|split].
    + intros _. rewrite List.filter_app, filter_filter_neg, stored_for_ingested.
      cbn [app]. split; [reflexivity|]. split; [reflexivity|].
      apply ingested_urls.
    + intros Hn. exfalso. apply Hn. unfold registered in *. now rewrite <- Hg1.
    + intros key' mid' Hne.
      now rewrite List.filter_app, stored_other_ingested, app_nil_r, Hother.
  - specialize (Hfail Hreg). eexists db1, _. subst st2. rewrite Hfail.
    cbn [snd fst db_conn].
    split; [assumption|]. split; [reflexivity|]. split; [exact Hg1|].
    unfold stored_for. cbn [links].
    split; [|split].
    + intros Hr. exfalso. apply Hreg. unfold registered in *. now rewrite Hg1.
    + intros _. apply filter_filter_neg.
    + intros key' mid' Hne. now apply Hother.
Qed.

Lemma edit_replaces_links_witness :
  exists db1 db2,
    db_conn (snd (handle_message sample_env update_first sample_state)) = Some db1 /\
    db_conn (snd (handle_message sample_env update_mixed
                    (snd (handle_message sample_env update_first sample_state))))
    = Some db2 /\
    map (fun r => url (l_data r)) (stored_for "1" 7 db2)
    = ["http://down.example/b"; "http://up.example/a"].
Proof.
  destruct (edit_replaces_links sample_env update_first update_mixed
              msg_first msg_mixed sample_state
              (mkDB [mkGroup "1" "token-a"] []))
    as (db1 & db2 & H1 & H2 & _ & Hreg & _);
    [reflexivity|reflexivity|reflexivity|reflexivity|reflexivity
    |vm_compute; discriminate|].
  exists db1, db2. split; [exact H1|]. split; [exact H2|].
  destruct Hreg as (_ & _ & Hurls); [vm_compute; now left|exact Hurls].
Defined.

(** ** Fetch failures (claim C2) *)

Lemma composed_degraded E mid user i u :
  fetch_fails E i u = true ->
  title (composed E mid user i u) = u /\
  description (composed E mid user i u) = "Shared by " +:+ user /\
  image (composed E mid user i u) = None.
Proof.
  intros H. unfold composed. rewrite (fetch_fails_empty _ _ _ H). now cbn.
Qed.

Lemma ingest_url_no_db E chat mid user u st :
  db_conn st = None ->
  ingest_url E chat mid user u st = (Ok tt, mkState None (S (S (ticks st)))).
Proof.
  intros Hdb. unfold ingest_url.
  erewrite bind_ok by apply fetch_og_tags_run.
  erewrite bind_ok by reflexivity.
  unfold save_link, mbind, M_bind, bind, get_db. cbn [db_conn].
  rewrite Hdb. reflexivity.
Qed.

Lemma for_each_ingest_no_db E chat mid user urls : forall st,
  db_conn st = None ->
  for_each urls (ingest_url E chat mid user) st
  = (Ok tt, mkState None (2 * length urls + ticks st)).
Proof.
  induction urls as [|u us IH]; intros st Hdb.
  - destruct st as [d t]. cbn in *. now subst.
  - cbn [for_each].
    rewrite (bind_ok _ _ _ _ _ (ingest_url_no_db E chat mid user u st Hdb)).
    rewrite IH by reflexivity. cbn [ticks length]. do 2 f_equal. lia.
Qed.

Lemma handle_message_outcome E u st :
  fst (handle_message E u st) = ingestion_outcome u st.
Proof.
  unfold ingestion_outcome.
  destruct (update_message u) as [m|] eqn:Hu.
  2:{ now rewrite handle_message_noop by (intros m; congruence). }
  destruct (Re.findall URL_PATTERN (message_text m)) as [|u0 us] eqn:Hurls.
  { now rewrite handle_message_noop by (intros m' Hm'; congruence). }
  destruct (db_conn st) as [db|] eqn:Hdb.
  - destruct (handle_message_urls E u m st db Hu Hdb) as [Hyes Hno];
      [rewrite Hurls; discriminate|].
    destruct (select_group (pretty (Telegram.chat_id m)) db) as [row|] eqn:Hrow.
    + apply select_group_registered in Hrow as [Hreg _]. now rewrite (Hyes Hreg).
    + rewrite Hno; [reflexivity|]. intros Hreg.
      apply select_group_Some in Hreg as (r & Hr & _). congruence.
  - unfold handle_message. rewrite Hu, Hurls.
    erewrite bind_ok.
    2:{ unfold delete_group_links, mbind, M_bind, bind, get_db.
        rewrite Hdb. reflexivity. }
    now rewrite for_each_ingest_no_db.
Qed.

(** C2, as stated, fails in a group that has no row in [groups].  Group 2
    has none in [sample_state]; the fetch of [https://b.example/y] fails and
    is absorbed, the fetcher returning the all-empty record, but the
    insertion of the link is refused by the foreign key of [links.chat_id]:
    the handler raises and no link is stored. *)
Lemma failed_fetch_in_unknown_group :
  fetch_fails sample_env 0 "https://b.example/y" = true /\
  fst (fetch_og_tags sample_env "https://b.example/y" sample_state) = Ok OGData_empty /\
  handle_message sample_env update_other sample_state
  = (Raise (IntegrityError "FOREIGN KEY constraint failed"),
     mkState (Some (mkDB [mkGroup "1" "token-a"] [])) 2) /\
  ~ failed_fetch_is_always_stored.
Proof.
  split; [reflexivity|]. split; [reflexivity|]. split; [vm_compute; reflexivity|].
  intros H.
  destruct (H sample_env update_other msg_other sample_state
              (mkDB [mkGroup "1" "token-a"] []) 0 "https://b.example/y")
    as [Hfst _]; try reflexivity.
  vm_compute in Hfst. discriminate.
Qed.

(** C2, amended -- Fetch-failure degradation.  (1) A fetch that fails
    (connection error, timeout, status outside 2xx, parser error) makes
    [fetch_og_tags] return the all-empty record, normally.  (2) Whether the
    ingestion of a message completes is decided by the store alone: no fetch
    outcome, for this URL or for a sibling, can abort it.  (3) In a group
    that has a row in [groups], the ingestion of a message with URLs
    completes: the handler returns normally and has stored one link per URL
    of the text, in order; and the link of each URL whose fetch failed has
    the URL as its title, ["Shared by <sender>"] alone as its description,
    and no image.  (4) In a group without such a row the ingestion of a
    message with URLs is aborted by the store at its first insertion,
    whatever the fetches returned: the handler raises the integrity error
    and no link is stored for the message, nor any other added. *)
Theorem fetch_failure_degrades :
  forall (E : Env) (u : Telegram.Update) (m : Telegram.Message) (st : State) (db : DB),
    (forall url st0,
        fetch_fails E (ticks st0) url = true ->
        fetch_og_tags E url st0
        = (Ok OGData_empty, mkState (db_conn st0) (S (ticks st0)))) /\
    (forall E' : Env,
        fst (handle_message E u st) = fst (handle_message E' u st)) /\
    (update_message u = Some m ->
     db_conn st = Some db ->
     registered (pretty (Telegram.chat_id m)) db ->
     Re.findall URL_PATTERN (message_text m) <> [] ->
     let key := pretty (Telegram.chat_id m) in
     let mid := Telegram.message_id m in
     let urls := Re.findall URL_PATTERN (message_text m) in
     let user := message_user_name m in
     fst (handle_message E u st) = Ok tt /\
     exists db',
       db_conn (snd (handle_message E u st)) = Some db' /\
       map (fun r => url (l_data r)) (stored_for key mid db') = urls /\
       forall n url0,
         nth_error urls n = Some url0 ->
         exists row,
           nth_error (stored_for key mid db') n = Some row /\
           url (l_data row) = url0 /\
           (fetch_fails E (2 * n + ticks st) url0 = true ->
            title (l_data row) = url0 /\
            description (l_data row) = "Shared by " +:+ user /\
            image (l_data row) = None)) /\
    (update_message u = Some m ->
     db_conn st = Some db ->
     ~ registered (pretty (Telegram.chat_id m)) db ->
     Re.findall URL_PATTERN (message_text m) <> [] ->
     fst (handle_message E u st)
     = Raise (IntegrityError "FOREIGN KEY constraint failed") /\
     exists db',
       db_conn (snd (handle_message E u st)) = Some db' /\
       groups db' = groups db /\
       stored_for (pretty (Telegram.chat_id m)) (Telegram.message_id m) db' = [] /\
       forall r, In r (links db') -> In r (links db)).
Proof.
  intros E u m st db. split; [|split; [|split]].
  - intros url0 st0 H. rewrite fetch_og_tags_run.
    now rewrite (fetch_fails_empty _ _ _ H).
  - intros E'. now rewrite !handle_message_outcome.
  - intros Hu Hdb Hreg Hne key mid urls user.
    destruct (handle_message_urls E u m st db Hu Hdb Hne) as [Hok _].
    rewrite (Hok Hreg). cbn [fst snd db_conn]. split; [reflexivity|].
    eexists. split; [reflexivity|].
    unfold stored_for. cbn [links].
    rewrite List.filter_app, filter_filter_neg, stored_for_ingested. cbn [app].
    split; [apply ingested_urls|].
    intros n url0 Hn.
    exists (mkLink key (composed E mid user (2 * n + ticks st) url0)).
    split; [apply ingested_nth; exact Hn|].
    cbn [l_data]. split; [reflexivity|]. apply composed_degraded.
  - intros Hu Hdb Hreg Hne.
    destruct (handle_message_urls E u m st db Hu Hdb Hne) as [_ Hfail].
    rewrite (Hfail Hreg). cbn [fst snd db_conn]. split; [reflexivity|].
    eexists. split; [reflexivity|]. cbn [groups links]. split; [reflexivity|].
    unfold stored_for. cbn [links]. split; [apply filter_filter_neg|].
    intros r Hr. now apply filter_In in Hr as [Hr _].
Qed.

Lemma fetch_failure_degrades_witness :
  fst (handle_message sample_env update_mixed sample_state) = Ok tt /\
  exists db',
    db_conn (snd (handle_message sample_env update_mixed sample_state)) = Some db' /\
    map (fun r => url (l_data r)) (stored_for "1" 7 db')
    = ["http://down.example/b"; "http://up.example/a"] /\
    exists row,
      nth_error (stored_for "1" 7 db') 0 = Some row /\
      title (l_data row) = "http://down.example/b" /\
      description (l_data row) = "Shared by Ann".
Proof.
  destruct (fetch_failure_degrades sample_env update_mixed msg_mixed sample_state
              (mkDB [mkGroup "1" "token-a"] [])) as (_ & _ & H & _).
  destruct H as (Hfst & db' & Hdb' & Hurls & Hrows);
    [reflexivity|reflexivity|vm_compute; now left|vm_compute; discriminate|].
  split; [exact Hfst|]. exists db'. split; [exact Hdb'|]. split; [exact Hurls|].
  destruct (Hrows 0 "http://down.example/b" eq_refl) as (row & Hrow & _ & Hdeg).
  exists row. split; [exact Hrow|].
  destruct (Hdeg eq_refl) as (Ht & Hd & _). split; [exact Ht|exact Hd].
Defined.

(** ** The other store calls and the feed, step by step *)

Lemma get_group_token_known E c st db row :
  db_conn st = Some db -> select_group (chat_id_str c) db = Some row ->
  get_group_token E c st = (Ok (g_token row), st).
Proof.
  intros Hdb Hrow. unfold get_group_token, mbind, M_bind, bind, get_db.
  now rewrite Hdb, Hrow.
Qed.

Lemma get_group_token_new E c st db :
  db_conn st = Some db -> select_group (chat_id_str c) db = None ->
  select_token (uuid4 E (ticks st)) db = None ->
  get_group_token E c st
  = (Ok (uuid4 E (ticks st)),
     mkState (Some (mkDB (groups db ++ [mkGroup (chat_id_str c) (uuid4 E (ticks st))])
                         (links db)))
             (S (ticks st))).
Proof.
  intros Hdb Hrow Htok. unfold get_group_token, mbind, M_bind, bind, get_db, tick.
  rewrite Hdb, Hrow. cbn. now rewrite Htok.
Qed.

Lemma get_group_token_clash E c st db row :
  db_conn st = Some db -> select_group (chat_id_str c) db = None ->
  select_token (uuid4 E (ticks st)) db = Some row ->
  get_group_token E c st
  = (Raise (IntegrityError "UNIQUE constraint failed: groups.token"),
     mkState (Some db) (S (ticks st))).
Proof.
  intros Hdb Hrow Htok. unfold get_group_token, mbind, M_bind, bind, get_db, tick.
  rewrite Hdb, Hrow. cbn. rewrite Htok. cbn. now rewrite Hdb.
Qed.

Lemma get_links_run c limit st db :
  db_conn st = Some db ->
  get_links c limit st
  = (Ok (map l_data (sql_limit limit
                       (order_by_date_desc (stored_in (chat_id_str c) db)))),
     st).
Proof.
  intros Hdb. unfold get_links, mbind, M_bind, bind, get_db. now rewrite Hdb.
Qed.

Lemma rss_tree_run E c st db :
  db_conn st = Some db ->
  rss_tree E c st
  = (Ok (Elem "rss" [("version", "2.0")] None
           [Elem "channel" [] None
              ([ leaf "title" "Telegram Group Links";
                 leaf "link" (APP_URL E +:+ "/rss/" +:+ chat_id_str c);
                 leaf "description" "Links shared in Telegram group";
                 leaf "lastBuildDate" (strftime E (datetime_now E (ticks st))) ]
               ++ map (rss_item E)
                      (map l_data (sql_limit 50
                         (order_by_date_desc (stored_in (chat_id_str c) db)))))]),
     mkState (Some db) (S (ticks st))).
Proof.
  intros Hdb. unfold rss_tree.
  erewrite bind_ok by (apply get_links_run; eassumption).
  unfold mbind, M_bind, bind, tick, mret, M_ret, ret. cbn. now rewrite Hdb.
Qed.

Lemma generate_rss_run E c st db :
  db_conn st = Some db ->
  exists doc,
    rss_tree E c st = (Ok doc, mkState (Some db) (S (ticks st))) /\
    generate_rss E c st = (Ok (ET_tostring E doc), mkState (Some db) (S (ticks st))).
Proof.
  intros Hdb. eexists. split; [now apply rss_tree_run|].
  unfold generate_rss. now rewrite (bind_ok _ _ _ _ _ (rss_tree_run E c st db Hdb)).
Qed.

Lemma rss_feed_unknown E token st db :
  db_conn st = Some db -> select_token token db = None ->
  rss_feed E token st = (Raise (HTTPException 401 "Unauthorized: Invalid token"), st).
Proof.
  intros Hdb Htok. unfold rss_feed, mbind, M_bind, bind, get_db.
  now rewrite Hdb, Htok.
Qed.

Lemma rss_feed_known E token st db row :
  db_conn st = Some db -> select_token token db = Some row ->
  exists doc,
    rss_tree E (ChatStr (g_chat_id row)) st
    = (Ok doc, mkState (Some db) (S (ticks st))) /\
    rss_feed E token st
    = (Ok (mkResponse 200 "application/rss+xml" (ET_tostring E doc)),
       mkState (Some db) (S (ticks st))).
Proof.
  intros Hdb Htok.
  destruct (generate_rss_run E (ChatStr (g_chat_id row)) st db Hdb) as (doc & Ht & Hg).
  exists doc. split; [assumption|].
  unfold rss_feed. rewrite (bind_ok get_db _ st (db_conn st) st eq_refl).
  rewrite Hdb, Htok. now rewrite (bind_ok _ _ _ _ _ Hg).
Qed.

(** What a handler run may do to the database: the groups only grow, and
    the links change only through [handle_message]. *)
Lemma command_keeps_links E u st db :
  db_conn st = Some db ->
  exists db', db_conn (snd (handle_rssfeed_command E u st)) = Some db' /\
              links db' = links db.
Proof.
  intros Hdb. unfold handle_rssfeed_command.
  destruct (Telegram.message u) as [m|]; [|now exists db].
  destruct (Z.eqb (Telegram.chat_id m) 0); [now exists db|].
  set (c := ChatInt (Telegram.chat_id m)).
  destruct (select_group (chat_id_str c) db) as [row|] eqn:Hrow.
  - erewrite bind_ok by (eapply get_group_token_known; eassumption).
    now exists db.
  - destruct (select_token (uuid4 E (ticks st)) db) as [row|] eqn:Htok.
    + erewrite bind_raise by (eapply get_group_token_clash; eassumption).
      now exists db.
    + erewrite bind_ok by (eapply get_group_token_new; eassumption).
      eexists. split; reflexivity.
Qed.

Lemma request_keeps_db E q st db :
  db_conn st = Some db -> db_conn (snd (GET_rss E q st)) = Some db.
Proof.
  intros Hdb. unfold GET_rss. destruct q as [token|]; [|assumption].
  destruct (select_token token db) as [row|] eqn:Htok.
  - destruct (rss_feed_known E token st db row Hdb Htok) as (doc & _ & ->).
    reflexivity.
  - now rewrite (rss_feed_unknown E token st db Hdb Htok).
Qed.

(** ** Titles (claim C8) *)

Lemma composed_title E mid user i u :
  u <> "" -> title (composed E mid user i u) <> "".
Proof.
  intros Hu. unfold composed. cbn [title].
  destruct (og_title (fetched E i u)) as [[|a t]|]; cbn; try assumption.
  discriminate.
Qed.

Lemma handle_message_rows E u st db :
  db_conn st = Some db ->
  exists db',
    db_conn (snd (handle_message E u st)) = Some db' /\
    forall r, In r (links db') -> In r (links db) \/ title (l_data r) <> "".
Proof.
  intros Hdb.
  destruct (update_message u) as [m|] eqn:Hu.
  2:{ rewrite handle_message_noop by (intros m; congruence).
      exists db. split; [assumption|]. now left. }
  destruct (Re.findall URL_PATTERN (message_text m)) as [|u0 us] eqn:Hurls.
  { rewrite handle_message_noop by (intros m' Hm'; congruence).
    exists db. split; [assumption|]. now left. }
  destruct (handle_message_urls E u m st db Hu Hdb) as [Hok Hfail];
    [rewrite Hurls; discriminate|].
  destruct (registered_dec (pretty (Telegram.chat_id m)) db) as [Hreg|Hreg].
  - rewrite (Hok Hreg). eexists. split; [reflexivity|]. cbn [links].
    intros r Hr. apply in_app_or in Hr as [Hr|Hr].
    + left. now apply filter_In in Hr as [Hr _].
    + right. apply ingested_from in Hr as (_ & _ & j & -> & Hin).
      apply composed_title. eapply findall_nonempty_strings. exact Hin.
  - rewrite (Hfail Hreg). eexists. split; [reflexivity|]. cbn [links].
    intros r Hr. left. now apply filter_In in Hr as [Hr _].
Qed.

Lemma handle_titled E e st db :
  db_conn st = Some db -> titled db ->
  exists db', db_conn (handle E e st) = Some db' /\ titled db'.
Proof.
  intros Hdb Ht. destruct e as [u|u|q]; cbn [handle].
  - destruct (handle_message_rows E u st db Hdb) as (db' & Hdb' & Hrows).
    exists db'. split; [assumption|]. unfold titled in *.
    apply List.Forall_forall. intros r Hr.
    destruct (Hrows r Hr) as [Hold|Hnew]; [|assumption].
    now apply (proj1 (List.Forall_forall _ _) Ht).
  - destruct (command_keeps_links E u st db Hdb) as (db' & Hdb' & Hl).
    exists db'. split; [assumption|]. unfold titled. now rewrite Hl.
  - exists db. split; [now apply request_keeps_db|assumption].
Qed.

Lemma composed_title_source E mid user i u :
  title (composed E mid user i u)
  = (if opt_truthy (og_title (fetched E i u))
     then py_str (og_title (fetched E i u)) else u).
Proof. reflexivity. Qed.

Lemma handle_message_new_rows E u st db :
  db_conn st = Some db ->
  exists db',
    db_conn (snd (handle_message E u st)) = Some db' /\
    forall r,
      In r (links db') ->
      In r (links db) \/
      (title (l_data r) <> "" /\
       exists i og,
         (forall d, fst (fetch_og_tags E (url (l_data r)) (mkState d i)) = Ok og) /\
         title (l_data r)
         = (if opt_truthy (og_title og) then py_str (og_title og)
            else url (l_data r))).
Proof.
  intros Hdb.
  destruct (update_message u) as [m|] eqn:Hu.
  2:{ rewrite handle_message_noop by (intros m; congruence).
      exists db. split; [assumption|]. now left. }
  destruct (Re.findall URL_PATTERN (message_text m)) as [|u0 us] eqn:Hurls.
  { rewrite handle_message_noop by (intros m' Hm'; congruence).
    exists db. split; [assumption|]. now left. }
  destruct (handle_message_urls E u m st db Hu Hdb) as [Hok Hfail];
    [rewrite Hurls; discriminate|].
  destruct (registered_dec (pretty (Telegram.chat_id m)) db) as [Hreg|Hreg].
  - rewrite (Hok Hreg). eexists. split; [reflexivity|]. cbn [links].
    intros r Hr. apply in_app_or in Hr as [Hr|Hr].
    + left. now apply filter_In in Hr as [Hr _].
    + right. apply ingested_from in Hr as (_ & _ & j & Hj & Hin).
      remember (url (l_data r)) as url0 eqn:Hurl0.
      rewrite Hj. split.
      * apply composed_title. eapply findall_nonempty_strings. exact Hin.
      * exists j, (fetched E j url0). split.
        -- intros d. now rewrite fetch_og_tags_run.
        -- apply composed_title_source.
  - rewrite (Hfail Hreg). eexists. split; [reflexivity|]. cbn [links].
    intros r Hr. left. now apply filter_In in Hr as [Hr _].
Qed.

(** C8 -- Non-empty titles, with the URL as fallback.  (1) Whatever the
    fetch returns, the link composed for a non-empty URL has a non-empty
    title.  (2) In a group that has a row, after the ingestion of a message
    with URLs, the link stored for the [n]-th URL has a title that is not
    empty: it is the URL itself whenever the record returned by the fetch of
    that URL has no title or an empty one, and the fetched title whenever it
    is a non-empty string; this for every environment, hence for every fetch
    outcome.  (3) In any group, every row that is in the store after a run
    of [handle_message] either was there before, or has a non-empty title
    which is the title returned by a fetch of its URL if that is a non-empty
    string and its URL otherwise.  (4) Hence a store whose links all have
    titles keeps that property through any sequence of messages, edits,
    commands and feed requests; the empty store has it. *)
Theorem stored_titles_never_empty : forall E : Env,
  (forall mid user i u, u <> "" -> title (composed E mid user i u) <> "") /\
  (forall u m st db,
      update_message u = Some m ->
      db_conn st = Some db ->
      registered (pretty (Telegram.chat_id m)) db ->
      Re.findall URL_PATTERN (message_text m) <> [] ->
      let key := pretty (Telegram.chat_id m) in
      let mid := Telegram.message_id m in
      let urls := Re.findall URL_PATTERN (message_text m) in
      exists db',
        db_conn (snd (handle_message E u st)) = Some db' /\
        forall n url0,
          nth_error urls n = Some url0 ->
          exists row og,
            nth_error (stored_for key mid db') n = Some row /\
            url (l_data row) = url0 /\
            (forall d,
                fetch_og_tags E url0 (mkState d (2 * n + ticks st))
                = (Ok og, mkState d (S (2 * n + ticks st)))) /\
            (og_title og = None \/ og_title og = Some "" ->
             title (l_data row) = url0) /\
            (forall t, og_title og = Some t -> t <> "" -> title (l_data row) = t) /\
            title (l_data row) <> "") /\
  (forall u st db,
      db_conn st = Some db ->
      exists db',
        db_conn (snd (handle_message E u st)) = Some db' /\
        forall r,
          In r (links db') ->
          In r (links db) \/
          (title (l_data r) <> "" /\
           exists i og,
             (forall d, fst (fetch_og_tags E (url (l_data r)) (mkState d i)) = Ok og) /\
             title (l_data r)
             = (if opt_truthy (og_title og) then py_str (og_title og)
                else url (l_data r)))) /\
  (forall es st db,
      db_conn st = Some db -> titled db ->
      exists db', db_conn (run_events E es st) = Some db' /\ titled db') /\
  titled empty_db.
Proof.
  intros E. split; [apply composed_title|]. split; [|split; [apply handle_message_new_rows|]].
  - intros u m st db Hu Hdb Hreg Hne key mid urls.
    destruct (handle_message_urls E u m st db Hu Hdb Hne) as [Hok _].
    rewrite (Hok Hreg). cbn [snd db_conn]. eexists. split; [reflexivity|].
    unfold stored_for. cbn [links].
    rewrite List.filter_app, filter_filter_neg, stored_for_ingested. cbn [app].
    intros n url0 Hn. fold key mid urls.
    exists (mkLink key (composed E mid (message_user_name m) (2 * n + ticks st) url0)),
           (fetched E (2 * n + ticks st) url0).
    split; [apply ingested_nth; exact Hn|]. cbn [l_data].
    split; [reflexivity|]. split; [intros d; now rewrite fetch_og_tags_run|].
    split; [|split].
    + rewrite composed_title_source. intros [-> | ->]; reflexivity.
    + rewrite composed_title_source.
      intros t -> Ht. destruct t; [contradiction|reflexivity].
    + apply composed_title.
      eapply findall_nonempty_strings. eapply nth_error_In. exact Hn.
  - split; [|constructor].
    induction es as [|e es IH]; intros st db Hdb Ht.
    + now exists db.
    + cbn [run_events fold_left].
      destruct (handle_titled E e st db Hdb Ht) as (db1 & Hdb1 & Ht1).
      exact (IH _ _ Hdb1 Ht1).
Qed.

Lemma stored_titles_never_empty_witness :
  exists db' row0 row1,
    db_conn (snd (handle_message sample_env update_mixed sample_state)) = Some db' /\
    nth_error (stored_for "1" 7 db') 0 = Some row0 /\
    title (l_data row0) = "http://down.example/b" /\
    nth_error (stored_for "1" 7 db') 1 = Some row1 /\
    title (l_data row1) = "Example page".
Proof.
  destruct (stored_titles_never_empty sample_env) as (_ & Hrows & _).
  destruct (Hrows update_mixed msg_mixed sample_state
              (mkDB [mkGroup "1" "token-a"] []))
    as (db' & Hdb' & Hnth);
    [reflexivity|reflexivity|vm_compute; now left|vm_compute; discriminate|].
  destruct (Hnth 0 "http://down.example/b" eq_refl)
    as (row0 & og0 & Hrow0 & _ & Hfetch0 & Hfall0 & _).
  destruct (Hnth 1 "http://up.example/a" eq_refl)
    as (row1 & og1 & Hrow1 & _ & Hfetch1 & _ & Hown1 & _).
  exists db', row0, row1. split; [exact Hdb'|]. split; [exact Hrow0|].
  split.
  - apply Hfall0. left. specialize (Hfetch0 None). vm_compute in Hfetch0.
    injection Hfetch0 as <-. reflexivity.
  - split; [exact Hrow1|]. apply Hown1; [|discriminate].
    specialize (Hfetch1 None). vm_compute in Hfetch1.
    injection Hfetch1 as <-. reflexivity.
Defined.

(** ** [ORDER BY date DESC LIMIT n] *)

Lemma insert_desc_perm r rows : Permutation (insert_desc r rows) (r :: rows).
Proof.
  induction rows as [|x rest IH]; cbn [insert_desc]; [reflexivity|].
  destruct (date (l_data x) <? date (l_data r))%Z; [reflexivity|].
  rewrite IH. apply perm_swap.
Qed.

Lemma insert_desc_sorted r rows :
  StronglySorted date_desc rows -> StronglySorted date_desc (insert_desc r rows).
Proof.
  induction 1 as [|x rest HS IH Hall]; cbn [insert_desc].
  - repeat constructor.
  - destruct (Z.ltb_spec (date (l_data x)) (date (l_data r))) as [Hlt|Hge].
    + constructor; [now constructor|].
      constructor; [unfold date_desc; lia|].
      apply List.Forall_forall. intros y Hy.
      apply (proj1 (List.Forall_forall _ _) Hall) in Hy. unfold date_desc in *. lia.
    + constructor; [assumption|].
      apply List.Forall_forall. intros y Hy.
      apply (Permutation_in y (insert_desc_perm r rest)) in Hy.
      destruct Hy as [<-|Hy]; [exact Hge|].
      now apply (proj1 (List.Forall_forall _ _) Hall).
Qed.

Lemma fold_insert_desc rows : forall acc,
  StronglySorted date_desc acc ->
  StronglySorted date_desc (fold_left (fun a r => insert_desc r a) rows acc) /\
  Permutation (fold_left (fun a r => insert_desc r a) rows acc) (acc ++ rows).
Proof.
  induction rows as [|r rows IH]; intros acc Hacc; cbn [fold_left].
  - split; [assumption|now rewrite app_nil_r].
  - destruct (IH _ (insert_desc_sorted r acc Hacc)) as [HS HP].
    split; [assumption|]. rewrite HP, insert_desc_perm.
    cbn [app]. apply Permutation_middle.
Qed.

Lemma ordered_sorted rows : StronglySorted date_desc (order_by_date_desc rows).
Proof. apply fold_insert_desc. constructor. Qed.

Lemma ordered_perm rows : Permutation (order_by_date_desc rows) rows.
Proof. apply (fold_insert_desc rows []). constructor. Qed.

Lemma StronglySorted_app_cross {A} (R : A -> A -> Prop) l1 l2 :
  StronglySorted R (l1 ++ l2) ->
  forall x y, In x l1 -> In y l2 -> R x y.
Proof.
  induction l1 as [|a l1 IH]; intros HS x y Hx Hy; [destruct Hx|].
  cbn [app] in HS. apply StronglySorted_inv in HS as [HS Hall].
  destruct Hx as [<- | Hx].
  - apply (proj1 (List.Forall_forall _ _) Hall). apply in_or_app. now right.
  - now apply IH.
Qed.

Lemma StronglySorted_app_l {A} (R : A -> A -> Prop) l1 l2 :
  StronglySorted R (l1 ++ l2) -> StronglySorted R l1.
Proof.
  induction l1 as [|a l1 IH]; intros HS; [constructor|].
  cbn [app] in HS. apply StronglySorted_inv in HS as [HS Hall].
  constructor; [now apply IH|].
  apply List.Forall_forall. intros x Hx.
  apply (proj1 (List.Forall_forall _ _) Hall). apply in_or_app. now left.
Qed.

Lemma StronglySorted_map {A B} (f : A -> B) (R : B -> B -> Prop) l :
  StronglySorted (fun a b => R (f a) (f b)) l -> StronglySorted R (map f l).
Proof.
  induction 1 as [|a l HS IH Hall]; [constructor|].
  cbn [map]. constructor; [assumption|].
  apply List.Forall_forall. intros y Hy. apply in_map_iff in Hy as (x & <- & Hx).
  now apply (proj1 (List.Forall_forall _ _) Hall).
Qed.

Lemma sql_limit_split {A} limit (rows : list A) :
  exists rest, rows = sql_limit limit rows ++ rest /\
               (rest = [] \/ Z.to_nat limit <= length (sql_limit limit rows)).
Proof.
  unfold sql_limit. destruct (limit <? 0)%Z.
  - exists []. split; [now rewrite app_nil_r|now left].
  - exists (skipn (Z.to_nat limit) rows). split; [now rewrite firstn_skipn|].
    destruct (Nat.le_gt_cases (Z.to_nat limit) (length rows)) as [Hle|Hgt].
    + right. rewrite length_firstn. lia.
    + left. apply skipn_all2. lia.
Qed.

Lemma sql_limit_length {A} limit (rows : list A) :
  (0 <= limit)%Z ->
  length (sql_limit limit rows) = Nat.min (Z.to_nat limit) (length rows).
Proof.
  intros H. unfold sql_limit.
  destruct (Z.ltb_spec limit 0); [lia|]. apply length_firstn.
Qed.

Lemma filter_length_perm {A} (f : A -> bool) l1 l2 :
  Permutation l1 l2 -> length (List.filter f l1) = length (List.filter f l2).
Proof.
  induction 1 as [|x l1 l2 HP IH|x y l|l1 l2 l3 HP1 IH1 HP2 IH2]; cbn [List.filter].
  - reflexivity.
  - destruct (f x); cbn [length]; now rewrite IH.
  - destruct (f x), (f y); reflexivity.
  - now rewrite IH1.
Qed.

(** A row appears among the first [n] rows of a descending order as soon
    as fewer than [n] other rows are dated no earlier. *)
Lemma recent_row_in_window row rows sorted limit :
  Permutation sorted (rows ++ [row]) ->
  StronglySorted date_desc sorted ->
  ((limit < 0)%Z \/
   (Z.of_nat (length (List.filter (not_older (date (l_data row))) rows)) < limit)%Z) ->
  In row (sql_limit limit sorted).
Proof.
  intros HP HS Hwin.
  assert (Hin : In row sorted).
  { apply (Permutation_in row (Permutation_sym HP)). apply in_or_app. right. now left. }
  unfold sql_limit. destruct (Z.ltb_spec limit 0) as [Hneg|Hpos]; [assumption|].
  destruct Hwin as [Hwin|Hwin]; [lia|].
  apply in_split in Hin as (l1 & l2 & ->).
  assert (HP' : Permutation (l1 ++ l2) rows).
  { apply (Permutation_app_inv_r [row]).
    rewrite <- app_assoc. cbn [app].
    transitivity (l1 ++ row :: l2); [|assumption].
    apply Permutation_app_head. symmetry. apply Permutation_cons_append. }
  assert (Hl1 : List.filter (not_older (date (l_data row))) l1 = l1).
  { apply filter_all. intros x Hx. unfold not_older. apply Z.leb_le.
    apply (StronglySorted_app_cross date_desc l1 (row :: l2) HS x row Hx).
    now left. }
  assert (Hlen : length l1 <= length (List.filter (not_older (date (l_data row))) rows)).
  { rewrite <- (filter_length_perm _ _ _ HP'), List.filter_app, length_app, Hl1. lia. }
  rewrite firstn_app. apply in_or_app. right.
  destruct (Z.to_nat limit - length l1) as [|k] eqn:Hk; [lia|]. now left.
Qed.

(** ** Save then read (claim C10) *)

Lemma stored_in_saved key db l :
  List.filter (in_group key) (links db ++ [mkLink key l])
  = stored_in key db ++ [mkLink key l].
Proof.
  unfold stored_in. rewrite List.filter_app. cbn [List.filter].
  unfold in_group at 2. cbn [l_chat_id]. now rewrite String.eqb_refl.
Qed.

(** C10 -- Save/read round trip.  For a record whose [message_id] is
    [None] or an SQLite INTEGER and a limit that is an SQLite INTEGER (the
    values [sqlite3] accepts as parameters): in a group that has a row in
    [groups], [save_link] returns normally, and a following [get_links] for
    the group
    (1) returns records in descending order of [date]; (2) returns only
    records that are stored for the group: the one just saved or one stored
    before; and (3) returns the saved record, with the [url], [title],
    [description], [image] and [message_id] it was saved with, whenever it
    is within the window: the limit is negative (no limit), or fewer than
    [limit] links stored before for the group are dated no earlier.  (In a
    group without such a row [save_link] raises and appends nothing.) *)
Theorem save_link_get_links_roundtrip :
  forall (c : chat_ref) (link : LinkData) (limit : Z) (st : State) (db : DB),
    db_conn st = Some db ->
    sqlite_integer_or_null (message_id link) ->
    sqlite_integer limit ->
    (~ registered (chat_id_str c) db ->
     save_link c link st
     = (Raise (IntegrityError "FOREIGN KEY constraint failed"), st)) /\
    (registered (chat_id_str c) db ->
    let st' := snd (save_link c link st) in
    fst (save_link c link st) = Ok tt /\
    exists got,
      get_links c limit st' = (Ok got, st') /\
      StronglySorted newest_first got /\
      (forall x, In x got ->
                 x = link \/ In (mkLink (chat_id_str c) x) (links db)) /\
      (((limit < 0)%Z \/
        (Z.of_nat (length (List.filter (not_older (date link))
                                       (stored_in (chat_id_str c) db))) < limit)%Z) ->
       exists x, In x got /\
                 url x = url link /\ title x = title link /\
                 description x = description link /\ image x = image link /\
                 message_id x = message_id link)).
Proof.
  intros c link limit st db Hdb _ _.
  split; [intros Hreg; now apply (save_link_unregistered c link st db)|].
  intros Hreg st'. subst st'.
  rewrite (save_link_ok c link st db Hdb Hreg). cbn [fst snd].
  split; [reflexivity|].
  set (key := chat_id_str c).
  set (db' := mkDB (groups db) (links db ++ [mkLink key link])).
  set (st' := mkState (Some db') (ticks st)).
  rewrite (get_links_run c limit st' db' eq_refl).
  eexists. split; [reflexivity|].
  fold key.
  assert (Hst : stored_in key db' = stored_in key db ++ [mkLink key link])
    by apply stored_in_saved.
  rewrite Hst.
  set (sorted := order_by_date_desc (stored_in key db ++ [mkLink key link])).
  assert (HS : StronglySorted date_desc sorted) by apply ordered_sorted.
  assert (HP : Permutation sorted (stored_in key db ++ [mkLink key link]))
    by apply ordered_perm.
  destruct (sql_limit_split limit sorted) as (rest & Hsplit & _).
  split; [|split].
  - apply StronglySorted_map. rewrite Hsplit in HS.
    exact (StronglySorted_app_l _ _ _ HS).
  - intros x Hx. apply in_map_iff in Hx as (r & <- & Hr).
    assert (Hin : In r sorted) by (rewrite Hsplit; apply in_or_app; now left).
    apply (Permutation_in r HP) in Hin. apply in_app_or in Hin as [Hin|Hin].
    + right. apply filter_In in Hin as [Hin Hg].
      unfold in_group in Hg. apply String.eqb_eq in Hg.
      destruct r as [k d]. cbn in *. now subst k.
    + left. destruct Hin as [<-|[]]. reflexivity.
  - intros Hwin. exists link. split; [|repeat split].
    apply in_map_iff. exists (mkLink key link). split; [reflexivity|].
    now apply (recent_row_in_window _ (stored_in key db)).
Qed.

Lemma save_link_get_links_roundtrip_witness :
  let link := mkLinkData "http://a.example/y" "Y" "Shared by Bob" 60 None (Some 9%Z) in
  let st' := snd (save_link (ChatInt 1) link busy_state) in
  exists got,
    get_links (ChatInt 1) 50 st' = (Ok got, st') /\
    exists x, In x got /\ url x = "http://a.example/y" /\ title x = "Y".
Proof.
  intros link st'.
  destruct (save_link_get_links_roundtrip (ChatInt 1) link 50 busy_state
              (mkDB [mkGroup "1" "token-a"]
                 (map (fun i => mkLink "1"
                         (mkLinkData "http://a.example/x" "A page" "Shared by Ann"
                                     (Z.of_nat i) None (Some 7%Z)))
                      (seq 0 75))) eq_refl)
    as (_ & Hsaved); [cbn; unfold sqlite_integer; lia|unfold sqlite_integer; lia|].
  destruct Hsaved as (_ & got & Hget & _ & _ & Hwin); [vm_compute; now left|].
  exists got. split; [exact Hget|].
  destruct Hwin as (x & Hx & Hu & Ht & _); [right; vm_compute; reflexivity|].
  exists x. split; [exact Hx|]. split; [exact Hu|exact Ht].
Defined.

(** ** The feed window (claim C5) *)

Lemma feed_items_of_tree head_children links_list :
  Forall (fun e => tag_of e <> "item") head_children ->
  forall E,
    feed_items (Elem "rss" [("version", "2.0")] None
                  [Elem "channel" [] None
                        (head_children ++ map (rss_item E) links_list)])
    = map (rss_item E) links_list.
Proof.
  intros Hhead E. unfold feed_items. cbn [children flat_map].
  rewrite app_nil_r, List.filter_app. rewrite filter_none.
  - cbn [app]. apply filter_all. intros e He.
    apply in_map_iff in He as (l & <- & _). reflexivity.
  - intros e He. apply (proj1 (List.Forall_forall _ _) Hhead) in He.
    now apply String.eqb_neq.
Qed.

(** The entries of the rendered document are the links read by
    [get_links], in that order. *)
Lemma rss_tree_items E c st db :
  db_conn st = Some db ->
  exists doc,
    rss_tree E c st = (Ok doc, mkState (Some db) (S (ticks st))) /\
    generate_rss E c st
    = (Ok (ET_tostring E doc), mkState (Some db) (S (ticks st))) /\
    tag_of doc = "rss" /\
    feed_items doc
    = map (rss_item E)
          (map l_data (sql_limit 50 (order_by_date_desc (stored_in (chat_id_str c) db)))).
Proof.
  intros Hdb.
  destruct (generate_rss_run E c st db Hdb) as (doc & Htree & Hgen).
  pose proof (rss_tree_run E c st db Hdb) as Hrun. rewrite Htree in Hrun.
  injection Hrun as Hdoc.
  exists doc. split; [assumption|]. split; [assumption|].
  rewrite Hdoc. split; [reflexivity|].
  apply (feed_items_of_tree
           [ leaf "title" "Telegram Group Links";
             leaf "link" (APP_URL E +:+ "/rss/" +:+ chat_id_str c);
             leaf "description" "Links shared in Telegram group";
             leaf "lastBuildDate" (strftime E (datetime_now E (ticks st))) ]).
  repeat constructor; discriminate.
Qed.

Lemma sql_limit_In {A} limit (rows : list A) x :
  In x (sql_limit limit rows) -> In x rows.
Proof.
  unfold sql_limit. destruct (limit <? 0)%Z; [trivial|].
  intros Hx. rewrite <- (firstn_skipn (Z.to_nat limit) rows).
  apply in_or_app. now left.
Qed.

(** C5 -- Feed window.  The feed of a group shows [min 50 n] entries, [n]
    being the number of links stored for the group: one entry per link of
    the list [shown], in that order, where [shown] is in descending order of
    timestamp and, together with the links left out, is the stored links of
    the group; and every link left out is dated no later than every link
    shown.  With 75 stored links the feed shows the 50 most recent. *)
Theorem feed_shows_50_most_recent :
  forall (E : Env) (c : chat_ref) (st : State) (db : DB),
    db_conn st = Some db ->
    exists doc shown rest,
      rss_tree E c st = (Ok doc, mkState (Some db) (S (ticks st))) /\
      generate_rss E c st
      = (Ok (ET_tostring E doc), mkState (Some db) (S (ticks st))) /\
      feed_items doc = map (rss_item E) shown /\
      length (feed_items doc)
      = Nat.min 50 (length (stored_in (chat_id_str c) db)) /\
      Permutation (map l_data (stored_in (chat_id_str c) db)) (shown ++ rest) /\
      StronglySorted newest_first shown /\
      (forall x y, In x shown -> In y rest -> (date y <= date x)%Z).
Proof.
  intros E c st db Hdb.
  destruct (rss_tree_items E c st db Hdb) as (doc & Htree & Hgen & _ & Hitems).
  set (key := chat_id_str c) in *.
  set (sorted := order_by_date_desc (stored_in key db)) in *.
  assert (HS : StronglySorted date_desc sorted) by apply ordered_sorted.
  assert (HP : Permutation sorted (stored_in key db)) by apply ordered_perm.
  destruct (sql_limit_split 50 sorted) as (rest & Hsplit & _).
  exists doc, (map l_data (sql_limit 50 sorted)), (map l_data rest).
  split; [assumption|]. split; [assumption|].
  split; [assumption|]. split; [|split; [|split]].
  - rewrite Hitems, !length_map, sql_limit_length by lia.
    now rewrite (Permutation_length HP).
  - rewrite <- map_app, <- Hsplit. apply Permutation_map. now symmetry.
  - apply StronglySorted_map. rewrite Hsplit in HS.
    exact (StronglySorted_app_l _ _ _ HS).
  - intros x y Hx Hy.
    apply in_map_iff in Hx as (rx & <- & Hx). apply in_map_iff in Hy as (ry & <- & Hy).
    rewrite Hsplit in HS.
    exact (StronglySorted_app_cross _ _ _ HS rx ry Hx Hy).
Qed.

Lemma feed_shows_50_most_recent_witness :
  exists doc shown,
    rss_tree sample_env (ChatStr "1") busy_state
    = (Ok doc, mkState (db_conn busy_state) 1) /\
    feed_items doc = map (rss_item sample_env) shown /\
    length (feed_items doc) = 50 /\
    StronglySorted newest_first shown.
Proof.
  destruct (feed_shows_50_most_recent sample_env (ChatStr "1") busy_state
              (mkDB [mkGroup "1" "token-a"]
                 (map (fun i => mkLink "1"
                         (mkLinkData "http://a.example/x" "A page" "Shared by Ann"
                                     (Z.of_nat i) None (Some 7%Z)))
                      (seq 0 75))) eq_refl)
    as (doc & shown & rest & Htree & _ & Hitems & Hlen & _ & Hsorted & _).
  exists doc, shown. split; [exact Htree|]. split; [exact Hitems|].
  split; [exact Hlen|exact Hsorted].
Defined.

(** ** The store keeps its constraints *)

Lemma select_token_unique gs r :
  List.NoDup (map g_token gs) -> In r gs ->
  find (fun g => String.eqb (g_token g) (g_token r)) gs = Some r.
Proof.
  induction gs as [|g gs IH]; intros Hnd Hin; [destruct Hin|].
  cbn [map] in Hnd. apply List.NoDup_cons_iff in Hnd as [Hnotin Hnd].
  cbn [find]. destruct Hin as [-> | Hin].
  - now rewrite String.eqb_refl.
  - destruct (String.eqb_spec (g_token g) (g_token r)) as [Heq|_]; [|now apply IH].
    exfalso. apply Hnotin. rewrite Heq. now apply in_map.
Qed.

Lemma select_group_unique gs r :
  List.NoDup (map g_chat_id gs) -> In r gs ->
  find (fun g => String.eqb (g_chat_id g) (g_chat_id r)) gs = Some r.
Proof.
  induction gs as [|g gs IH]; intros Hnd Hin; [destruct Hin|].
  cbn [map] in Hnd. apply List.NoDup_cons_iff in Hnd as [Hnotin Hnd].
  cbn [find]. destruct Hin as [-> | Hin].
  - now rewrite String.eqb_refl.
  - destruct (String.eqb_spec (g_chat_id g) (g_chat_id r)) as [Heq|_]; [|now apply IH].
    exfalso. apply Hnotin. rewrite Heq. now apply in_map.
Qed.

Lemma select_token_None tok db :
  select_token tok db = None -> ~ In tok (map g_token (groups db)).
Proof.
  unfold select_token. intros Hnone Hin.
  apply in_map_iff in Hin as (g & Hg & Hin).
  apply (find_none _ _ Hnone) in Hin. rewrite Hg, String.eqb_refl in Hin.
  discriminate.
Qed.

Lemma NoDup_snoc {A} (l : list A) x :
  List.NoDup l -> ~ In x l -> List.NoDup (l ++ [x]).
Proof.
  intros Hnd Hx. apply List.NoDup_app; [assumption|repeat constructor; intros []|].
  intros y Hy [<-|[]]. contradiction.
Qed.

Lemma db_ok_new_group db key tok :
  db_ok db -> ~ registered key db -> ~ In tok (map g_token (groups db)) ->
  db_ok (mkDB (groups db ++ [mkGroup key tok]) (links db)).
Proof.
  intros [Hpk Hun Hfk] Hkey Htok. split; cbn [groups links].
  - rewrite map_app. now apply NoDup_snoc.
  - rewrite map_app. now apply NoDup_snoc.
  - intros r Hr. rewrite map_app. apply in_or_app. left. now apply Hfk.
Qed.

Lemma db_ok_links db ls :
  db_ok db ->
  (forall r, In r ls -> In r (links db) \/ registered (l_chat_id r) db) ->
  db_ok (mkDB (groups db) ls).
Proof.
  intros [Hpk Hun Hfk] Hls. split; cbn [groups links]; try assumption.
  intros r Hr. destruct (Hls r Hr) as [Hold|Hreg]; [now apply Hfk|exact Hreg].
Qed.

Lemma step_kept_refl db : db_ok db -> step_kept db db.
Proof. intros H. split; [assumption|]. exists []. now rewrite app_nil_r. Qed.

Lemma get_group_token_step E c st db :
  db_conn st = Some db -> db_ok db ->
  exists db', db_conn (snd (get_group_token E c st)) = Some db' /\ step_kept db db'.
Proof.
  intros Hdb Hok.
  destruct (select_group (chat_id_str c) db) as [row|] eqn:Hrow.
  - rewrite (get_group_token_known E c st db row Hdb Hrow).
    exists db. split; [assumption|now apply step_kept_refl].
  - destruct (select_token (uuid4 E (ticks st)) db) as [row|] eqn:Htok.
    + rewrite (get_group_token_clash E c st db row Hdb Hrow Htok).
      exists db. split; [reflexivity|now apply step_kept_refl].
    + rewrite (get_group_token_new E c st db Hdb Hrow Htok).
      eexists. split; [reflexivity|]. split; [|eexists; reflexivity].
      apply db_ok_new_group; [assumption| |now apply select_token_None].
      intros Hreg. apply select_group_Some in Hreg as (r & Hr & _). congruence.
Qed.

Lemma handle_message_step E u st db :
  db_conn st = Some db -> db_ok db ->
  exists db', db_conn (snd (handle_message E u st)) = Some db' /\ step_kept db db'.
Proof.
  intros Hdb Hok.
  destruct (update_message u) as [m|] eqn:Hu.
  2:{ rewrite handle_message_noop by (intros m; congruence).
      exists db. split; [assumption|now apply step_kept_refl]. }
  destruct (Re.findall URL_PATTERN (message_text m)) as [|u0 us] eqn:Hurls.
  { rewrite handle_message_noop by (intros m' Hm'; congruence).
    exists db. split; [assumption|now apply step_kept_refl]. }
  destruct (handle_message_urls E u m st db Hu Hdb) as [Hyes Hno];
    [rewrite Hurls; discriminate|].
  destruct (registered_dec (pretty (Telegram.chat_id m)) db) as [Hreg|Hreg].
  - rewrite (Hyes Hreg). eexists. split; [reflexivity|].
    split; [|exists []; cbn [groups]; now rewrite app_nil_r].
    apply db_ok_links; [assumption|]. intros r Hr.
    apply in_app_or in Hr as [Hr|Hr].
    + left. now apply filter_In in Hr as [Hr _].
    + right. apply ingested_from in Hr as (-> & _). exact Hreg.
  - rewrite (Hno Hreg). eexists. split; [reflexivity|].
    split; [|exists []; cbn [groups]; now rewrite app_nil_r].
    apply db_ok_links; [assumption|]. intros r Hr.
    left. now apply filter_In in Hr as [Hr _].
Qed.

Lemma handle_step E e st db :
  db_conn st = Some db -> db_ok db ->
  exists db', db_conn (handle E e st) = Some db' /\ step_kept db db'.
Proof.
  intros Hdb Hok. destruct e as [u|u|q]; cbn [handle].
  - now apply handle_message_step.
  - unfold handle_rssfeed_command.
    destruct (Telegram.message u) as [m|];
      [|exists db; split; [assumption|now apply step_kept_refl]].
    destruct (Z.eqb (Telegram.chat_id m) 0);
      [exists db; split; [assumption|now apply step_kept_refl]|].
    destruct (get_group_token_step E (ChatInt (Telegram.chat_id m)) st db Hdb Hok)
      as (db' & Hdb' & Hstep).
    exists db'. split; [|assumption].
    unfold mbind, M_bind, bind.
    destruct (get_group_token E (ChatInt (Telegram.chat_id m)) st) as [[t|e] st'];
      exact Hdb'.
  - exists db. split; [now apply request_keeps_db|now apply step_kept_refl].
Qed.

Lemma exec_step E a st db :
  db_conn st = Some db -> db_ok db ->
  exists db', db_conn (exec E a st) = Some db' /\ step_kept db db'.
Proof.
  intros Hdb Hok. destruct a as [e|c|c l|c n|c m|u|]; cbn [exec].
  - now apply handle_step.
  - now apply get_group_token_step.
  - destruct (registered_dec (chat_id_str c) db) as [Hreg|Hreg].
    + rewrite (save_link_ok c l st db Hdb Hreg). eexists. split; [reflexivity|].
      split; [|exists []; cbn [groups]; now rewrite app_nil_r].
      apply db_ok_links; [assumption|]. intros r Hr.
      apply in_app_or in Hr as [Hr|[<-|[]]]; [now left|now right].
    + rewrite (save_link_unregistered c l st db Hdb Hreg).
      exists db. split; [assumption|now apply step_kept_refl].
  - rewrite (get_links_run c n st db Hdb).
    exists db. split; [assumption|now apply step_kept_refl].
  - rewrite (delete_group_links_run c m st db Hdb). eexists. split; [reflexivity|].
    split; [|exists []; cbn [groups]; now rewrite app_nil_r].
    apply db_ok_links; [assumption|]. intros r Hr.
    left. now apply filter_In in Hr as [Hr _].
  - rewrite fetch_og_tags_run.
    exists db. split; [assumption|now apply step_kept_refl].
  - exists db. split; [assumption|now apply step_kept_refl].
Qed.

Lemma run_schedule_step E acts : forall st db,
  db_conn st = Some db -> db_ok db ->
  exists db', db_conn (run_schedule E acts st) = Some db' /\ step_kept db db'.
Proof.
  induction acts as [|a acts IH]; intros st db Hdb Hok.
  - exists db. split; [assumption|now apply step_kept_refl].
  - cbn [run_schedule fold_left].
    destruct (exec_step E a st db Hdb Hok) as (db1 & Hdb1 & Hok1 & extra1 & Hg1).
    destruct (IH _ _ Hdb1 Hok1) as (db2 & Hdb2 & Hok2 & extra2 & Hg2).
    exists db2. split; [assumption|]. split; [assumption|].
    exists (extra1 ++ extra2). now rewrite Hg2, Hg1, app_assoc.
Qed.

(** Every state the program can be in once [main] has initialised the
    database holds a store that satisfies its constraints. *)
Lemma constraints_hold_after_start E file acts st :
  db_ok file ->
  exists db,
    db_conn (run_schedule E acts (snd (init_database file st))) = Some db /\
    db_ok db.
Proof.
  intros Hfile.
  destruct (run_schedule_step E acts (snd (init_database file st)) file eq_refl Hfile)
    as (db & Hdb & Hok & _).
  now exists db.
Qed.

Lemma empty_db_ok : db_ok empty_db.
Proof. split; cbn; [constructor|constructor|intros r []]. Qed.

(** ** Tokens (claim C4) *)

Lemma token_of_group db key t :
  db_ok db -> In (mkGroup key t) (groups db) ->
  select_group key db = Some (mkGroup key t).
Proof.
  intros [Hpk _ _] Hin.
  exact (select_group_unique (groups db) (mkGroup key t) Hpk Hin).
Qed.

Lemma get_group_token_returns E c st db :
  db_conn st = Some db -> db_ok db ->
  registered (chat_id_str c) db \/ select_token (uuid4 E (ticks st)) db = None ->
  exists t st1 db1,
    get_group_token E c st = (Ok t, st1) /\
    db_conn st1 = Some db1 /\ step_kept db db1 /\
    In (mkGroup (chat_id_str c) t) (groups db1).
Proof.
  intros Hdb Hok Hcase.
  destruct (select_group (chat_id_str c) db) as [row|] eqn:Hrow.
  - exists (g_token row), st, db.
    split; [now apply (get_group_token_known E c st db row)|].
    split; [assumption|]. split; [now apply step_kept_refl|].
    pose proof (select_group_registered _ _ _ Hrow) as [_ Hkey].
    apply find_some in Hrow as [Hin _]. destruct row as [k t]. cbn in *. now subst k.
  - destruct Hcase as [Hreg|Hfresh].
    { apply select_group_Some in Hreg as (r & Hr & _). congruence. }
    exists (uuid4 E (ticks st)).
    eexists _, _. split; [exact (get_group_token_new E c st db Hdb Hrow Hfresh)|].
    split; [reflexivity|]. split.
    + split; [|eexists; reflexivity].
      apply db_ok_new_group; [assumption| |now apply select_token_None].
      intros Hreg. apply select_group_Some in Hreg as (r & Hr & _). congruence.
    + cbn [groups]. apply in_or_app. right. now left.
Qed.

Lemma stored_mapping_bijective db g1 g2 :
  db_ok db -> In g1 (groups db) -> In g2 (groups db) ->
  (g_chat_id g1 = g_chat_id g2 <-> g_token g1 = g_token g2).
Proof.
  intros Hok H1 H2. split; intros Heq.
  - pose proof (select_group_unique (groups db) g1 (ok_primary_key _ Hok) H1) as F1.
    pose proof (select_group_unique (groups db) g2 (ok_primary_key _ Hok) H2) as F2.
    rewrite Heq in F1. rewrite F1 in F2. now injection F2 as ->.
  - pose proof (select_token_unique (groups db) g1 (ok_unique_token _ Hok) H1) as F1.
    pose proof (select_token_unique (groups db) g2 (ok_unique_token _ Hok) H2) as F2.
    rewrite Heq in F1. rewrite F1 in F2. now injection F2 as ->.
Qed.

Lemma get_group_token_stores E c st db t st1 :
  db_conn st = Some db ->
  get_group_token E c st = (Ok t, st1) ->
  exists db1,
    db_conn st1 = Some db1 /\ In (mkGroup (chat_id_str c) t) (groups db1) /\
    (registered (chat_id_str c) db -> st1 = st) /\
    (~ registered (chat_id_str c) db ->
     t = uuid4 E (ticks st) /\
     st1 = mkState (Some db1) (S (ticks st)) /\
     groups db1 = groups db ++ [mkGroup (chat_id_str c) t] /\
     links db1 = links db).
Proof.
  intros Hdb Hget.
  destruct (select_group (chat_id_str c) db) as [row|] eqn:Hrow.
  - rewrite (get_group_token_known E c st db row Hdb Hrow) in Hget.
    injection Hget as <- <-. exists db. split; [assumption|].
    pose proof (select_group_registered _ _ _ Hrow) as [Hreg Hkey].
    apply find_some in Hrow as [Hin _]. destruct row as [k t]. cbn in *. subst k.
    split; [assumption|]. split; [reflexivity|]. intros Hn. contradiction.
  - assert (Hnreg : ~ registered (chat_id_str c) db).
    { intros Hreg. apply select_group_Some in Hreg as (r & Hr & _). congruence. }
    destruct (select_token (uuid4 E (ticks st)) db) as [row|] eqn:Htok.
    + rewrite (get_group_token_clash E c st db row Hdb Hrow Htok) in Hget.
      discriminate.
    + rewrite (get_group_token_new E c st db Hdb Hrow Htok) in Hget.
      injection Hget as <- <-. eexists. split; [reflexivity|]. cbn [groups links].
      split; [apply in_or_app; right; now left|].
      split; [intros Hreg; contradiction|]. intros _. repeat split.
Qed.

(** C4 -- Token bijection.  On an initialised store that satisfies its
    constraints, for a group that is already known or for which [uuid4]
    draws a token that no group has, [get_group_token] returns a token [t]
    and the row [(group, t)] is then in the [groups] table: for a known group
    nothing is changed, for a new one exactly that row is added.  Called
    again at once it returns [t] and changes nothing.  After any schedule of
    further steps (handler runs and store calls of this or other groups, in
    any interleaving) the row [(group, t)] is still stored, the stored
    mapping is a bijection (two rows have the same group if and only if they
    have the same token), the store still satisfies its constraints, a call
    for the group still returns [t] and changes nothing, and a call for any
    group returns a token that is stored for that group, which is [t] if
    and only if it is the same group. *)
Theorem token_bijection :
  forall (E : Env) (c : chat_ref) (st : State) (db : DB),
    db_conn st = Some db ->
    db_ok db ->
    registered (chat_id_str c) db \/ select_token (uuid4 E (ticks st)) db = None ->
    exists t st1 db1,
      get_group_token E c st = (Ok t, st1) /\
      db_conn st1 = Some db1 /\
      In (mkGroup (chat_id_str c) t) (groups db1) /\
      (registered (chat_id_str c) db -> st1 = st) /\
      (~ registered (chat_id_str c) db ->
       t = uuid4 E (ticks st) /\
       groups db1 = groups db ++ [mkGroup (chat_id_str c) t] /\
       links db1 = links db) /\
      get_group_token E c st1 = (Ok t, st1) /\
      forall acts,
        let st2 := run_schedule E acts st1 in
        exists db2,
          db_conn st2 = Some db2 /\ db_ok db2 /\
          In (mkGroup (chat_id_str c) t) (groups db2) /\
          (forall g1 g2,
              In g1 (groups db2) -> In g2 (groups db2) ->
              (g_chat_id g1 = g_chat_id g2 <-> g_token g1 = g_token g2)) /\
          get_group_token E c st2 = (Ok t, st2) /\
          forall c' t' st3,
            get_group_token E c' st2 = (Ok t', st3) ->
            (chat_id_str c' = chat_id_str c <-> t' = t) /\
            exists db3,
              db_conn st3 = Some db3 /\
              In (mkGroup (chat_id_str c') t') (groups db3).
Proof.
  intros E c st db Hdb Hok Hcase.
  destruct (get_group_token_returns E c st db Hdb Hok Hcase)
    as (t & st1 & db1 & Hget & Hdb1 & [Hok1 _] & Hin1).
  destruct (get_group_token_stores E c st db t st1 Hdb Hget)
    as (db1' & Hdb1' & _ & Hknown & Hnew).
  rewrite Hdb1 in Hdb1'. injection Hdb1' as <-.
  exists t, st1, db1. split; [assumption|]. split; [assumption|].
  split; [assumption|]. split; [assumption|].
  split; [intros Hn; destruct (Hnew Hn) as (H1 & _ & H2 & H3); now repeat split|].
  assert (Hagain : forall st' db', db_conn st' = Some db' -> db_ok db' ->
                     In (mkGroup (chat_id_str c) t) (groups db') ->
                     get_group_token E c st' = (Ok t, st')).
  { intros st' db' Hdb' Hok' Hin'.
    now rewrite (get_group_token_known E c st' db' _ Hdb'
                   (token_of_group db' _ t Hok' Hin')). }
  split; [now apply (Hagain st1 db1)|].
  intros acts st2. subst st2.
  destruct (run_schedule_step E acts st1 db1 Hdb1 Hok1)
    as (db2 & Hdb2 & Hok2 & extra & Hg2).
  exists db2. split; [assumption|]. split; [assumption|].
  assert (Hin2 : In (mkGroup (chat_id_str c) t) (groups db2)).
  { rewrite Hg2. apply in_or_app. now left. }
  split; [assumption|].
  split; [intros g1 g2; now apply stored_mapping_bijective|].
  split; [now apply (Hagain _ db2)|].
  intros c' t' st3 Hget'.
  set (st2 := run_schedule E acts st1) in *.
  split; [|destruct (get_group_token_stores E c' st2 db2 t' st3 Hdb2 Hget')
             as (db3 & Hdb3 & Hin3 & _); now exists db3].
  destruct (select_group (chat_id_str c') db2) as [row|] eqn:Hrow.
  - rewrite (get_group_token_known E c' st2 db2 row Hdb2 Hrow) in Hget'.
    injection Hget' as Ht' _.
    pose proof (select_group_registered _ _ _ Hrow) as [_ Hkey].
    apply find_some in Hrow as [Hin _].
    pose proof (stored_mapping_bijective db2 row _ Hok2 Hin Hin2) as Hbij.
    cbn [g_chat_id g_token] in Hbij. rewrite Hkey, Ht' in Hbij. exact Hbij.
  - destruct (select_token (uuid4 E (ticks st2)) db2) as [row|] eqn:Htok.
    + rewrite (get_group_token_clash E c' st2 db2 row Hdb2 Hrow Htok) in Hget'.
      discriminate.
    + rewrite (get_group_token_new E c' st2 db2 Hdb2 Hrow Htok) in Hget'.
      injection Hget' as Ht' _. split.
      * intros Heq. exfalso.
        assert (Hreg : registered (chat_id_str c') db2).
        { rewrite Heq. unfold registered.
          apply in_map_iff. now exists (mkGroup (chat_id_str c) t). }
        apply select_group_Some in Hreg as (r & Hr & _). congruence.
      * intros Heq. exfalso. apply (select_token_None _ _ Htok).
        rewrite Ht', Heq. apply in_map_iff. now exists (mkGroup (chat_id_str c) t).
Qed.

Lemma token_bijection_witness :
  exists t st1 db1,
    get_group_token sample_env (ChatInt 42) sample_state = (Ok t, st1) /\
    db_conn st1 = Some db1 /\
    groups db1 = [mkGroup "1" "token-a"; mkGroup "42" t] /\
    get_group_token sample_env (ChatInt 42) st1 = (Ok t, st1) /\
    t <> "token-a".
Proof.
  destruct (token_bijection sample_env (ChatInt 42) sample_state
              (mkDB [mkGroup "1" "token-a"] []))
    as (t & st1 & db1 & Hget & Hdb1 & _ & _ & Hnew & Hagain & Hsched).
  - reflexivity.
  - split; cbn.
    + repeat constructor. intros [].
    + repeat constructor. intros [].
    + intros r [].
  - right. reflexivity.
  - exists t, st1, db1. split; [exact Hget|]. split; [exact Hdb1|].
    split.
    { destruct Hnew as (_ & Hg & _); [|exact Hg].
      vm_compute. intros [H|[]]. discriminate. }
    split; [exact Hagain|].
    destruct (Hsched [CallGetGroupToken (ChatStr "1")]) as (db2 & _ & _ & _ & _ & _ & Hbij).
    intros Heq.
    assert (Hone : get_group_token sample_env (ChatStr "1")
                     (run_schedule sample_env [CallGetGroupToken (ChatStr "1")] st1)
                   = (Ok "token-a",
                      run_schedule sample_env [CallGetGroupToken (ChatStr "1")] st1)).
    { vm_compute in Hget. injection Hget as <- <-. vm_compute. reflexivity. }
    apply Hbij in Hone. destruct Hone as [[_ Hback] _].
    specialize (Hback (eq_sym Heq)). vm_compute in Hback. discriminate.
Defined.

(** ** The feed endpoint (claim C6) *)

(** C6, as stated, fails for a request without [token]: the parameter is
    declared required, the request is rejected with status 422 and the
    handler never runs. *)
Lemma missing_token_is_rejected :
  GET_rss sample_env None sample_state = (ValidationError, sample_state) /\
  reply_status (fst (GET_rss sample_env None sample_state)) = 422%Z /\
  ~ missing_token_is_unauthorized.
Proof.
  split; [reflexivity|]. split; [reflexivity|].
  intros H.
  specialize (H sample_env sample_state (mkDB [mkGroup "1" "token-a"] []) eq_refl).
  vm_compute in H. discriminate.
Qed.

(** C6, amended -- Feed authentication.  On an initialised store that
    satisfies its constraints: (1) a GET of [/rss] with the token stored for
    a group [g] is answered with status 200, media type
    [application/rss+xml] and the serialisation of an RSS document whose
    entries are links stored for [g], and no others; (2) a GET with a token
    that no group has is answered with status 401 and the error body
    ["Unauthorized: Invalid token"], the state unchanged; (3) a GET without
    the [token] parameter never reaches the handler: it is rejected by the
    validation of the required parameter, status 422, the state unchanged. *)
Theorem feed_authentication :
  forall (E : Env) (st : State) (db : DB),
    db_conn st = Some db ->
    db_ok db ->
    (forall g tok,
        In (mkGroup g tok) (groups db) ->
        exists doc shown,
          fst (GET_rss E (Some tok) st)
          = Replied (mkResponse 200 "application/rss+xml" (ET_tostring E doc)) /\
          reply_status (fst (GET_rss E (Some tok) st)) = 200%Z /\
          tag_of doc = "rss" /\
          feed_items doc = map (rss_item E) shown /\
          forall x, In x shown -> In (mkLink g x) (links db)) /\
    (forall tok,
        ~ In tok (map g_token (groups db)) ->
        GET_rss E (Some tok) st
        = (ErrorBody 401 "Unauthorized: Invalid token", st)) /\
    GET_rss E None st = (ValidationError, st) /\
    reply_status (fst (GET_rss E None st)) = 422%Z.
Proof.
  intros E st db Hdb Hok. split; [|split; [|split; reflexivity]].
  - intros g tok Hin.
    assert (Hsel : select_token tok db = Some (mkGroup g tok))
      by exact (select_token_unique _ (mkGroup g tok) (ok_unique_token _ Hok) Hin).
    destruct (rss_feed_known E tok st db _ Hdb Hsel) as (doc & Htree & Hfeed).
    cbn [g_chat_id] in Htree.
    destruct (rss_tree_items E (ChatStr g) st db Hdb)
      as (doc' & Htree' & _ & Htag & Hitems).
    rewrite Htree in Htree'. injection Htree' as <-.
    eexists doc, _. unfold GET_rss. rewrite Hfeed. cbn [fst reply_status status_code].
    split; [reflexivity|]. split; [reflexivity|]. split; [assumption|].
    split; [exact Hitems|].
    intros x Hx. apply in_map_iff in Hx as (r & <- & Hr).
    apply sql_limit_In in Hr.
    apply (Permutation_in r (ordered_perm _)) in Hr.
    apply filter_In in Hr as [Hr Hg]. unfold in_group in Hg.
    apply String.eqb_eq in Hg. cbn [chat_id_str] in Hg.
    destruct r as [k d]. cbn in *. now subst k.
  - intros tok Hnot.
    assert (Hsel : select_token tok db = None).
    { unfold select_token. destruct (find _ (groups db)) as [row|] eqn:F; [|reflexivity].
      exfalso. apply find_some in F as [Hin F]. apply String.eqb_eq in F.
      apply Hnot. apply in_map_iff. now exists row. }
    unfold GET_rss. now rewrite (rss_feed_unknown E tok st db Hdb Hsel).
Qed.

Lemma feed_authentication_witness :
  (exists doc shown,
      fst (GET_rss sample_env (Some "token-a") busy_state)
      = Replied (mkResponse 200 "application/rss+xml" (ET_tostring sample_env doc)) /\
      feed_items doc = map (rss_item sample_env) shown) /\
  GET_rss sample_env (Some "guess") busy_state
  = (ErrorBody 401 "Unauthorized: Invalid token", busy_state).
Proof.
  destruct (feed_authentication sample_env busy_state
              (mkDB [mkGroup "1" "token-a"]
                 (map (fun i => mkLink "1"
                         (mkLinkData "http://a.example/x" "A page" "Shared by Ann"
                                     (Z.of_nat i) None (Some 7%Z)))
                      (seq 0 75))))
    as (Hvalid & Hunknown & _).
  - reflexivity.
  - split; cbn [groups links map g_chat_id g_token].
    + repeat constructor. intros [].
    + repeat constructor. intros [].
    + intros r Hr. apply in_map_iff in Hr as (i & <- & _). now left.
  - split.
    + destruct (Hvalid "1" "token-a") as (doc & shown & Hreply & _ & _ & Hitems & _);
        [now left|].
      exists doc, shown. split; [exact Hreply|exact Hitems].
    + apply Hunknown. vm_compute. intros [H|[]]. discriminate.
Defined.

(** ** Entry identifiers (claim C7) *)

(** C7, as stated, fails on uniqueness: two links with the same URL stored
    at the same clock reading get the same identifier.  Here the message of
    the spec's scenario (the same URL twice) is ingested while the clock
    stands still, and the feed of the group is rendered. *)
Lemma same_url_same_instant_same_guid :
  let st := snd (handle_message frozen_env update_first sample_state) in
  (exists doc,
      fst (rss_tree frozen_env (ChatStr "1") st) = Ok doc /\
      flat_map item_guids (feed_items doc)
      = [Some "http://a.example/x_0.0"; Some "http://a.example/x_0.0"]) /\
  ~ guids_always_distinct.
Proof.
  intros st. split.
  - eexists. split; vm_compute; reflexivity.
  - intros H. specialize (H frozen_env (ChatStr "1") st).
    vm_compute in H.
    specialize (H _ _ eq_refl eq_refl).
    apply List.NoDup_cons_iff in H as [Hnotin _]. apply Hnotin. now left.
Qed.

Lemma underscore_split s1 : forall s2 t1 t2,
  underscore_free t1 -> underscore_free t2 ->
  s1 +:+ String "_" t1 = s2 +:+ String "_" t2 -> s1 = s2 /\ t1 = t2.
Proof.
  unfold underscore_free.
  assert (Hstop : forall s t,
             Str.forallb (fun c => negb (Ascii.eqb c "_")) (s +:+ String "_" t) = false).
  { intros s t. rewrite forallb_app. cbn [Str.forallb].
    change (Ascii.eqb "_" "_") with true. cbn [negb andb]. apply andb_false_r. }
  induction s1 as [|a s1 IH]; intros [|b s2] t1 t2 H1 H2 Heq.
  - rewrite !app_empty_l in Heq. injection Heq as ->. now split.
  - exfalso. rewrite app_empty_l, app_cons in Heq.
    injection Heq as _ Heq. rewrite Heq, Hstop in H1. discriminate.
  - exfalso. rewrite app_empty_l, app_cons in Heq.
    injection Heq as _ Heq. rewrite <- Heq, Hstop in H2. discriminate.
  - rewrite !app_cons in Heq. injection Heq as -> Heq.
    destruct (IH _ _ _ H1 H2 Heq) as [-> ->]. now split.
Qed.

Lemma rss_item_guid E l : item_guids (rss_item E l) = [Some (guid_of E l)].
Proof.
  unfold item_guids, rss_item. cbn [children].
  rewrite List.filter_app. cbn.
  now destruct (opt_truthy (image l)).
Qed.

(** C7, amended -- Entry identifiers.  (1) The identifier of an entry is
    determined by the URL and the timestamp of its link.  (2) Each entry
    carries exactly one identifier, that of its link.  (3) Rendering the same
    store twice, at whatever times, yields the same identifiers in the same
    order.  (4) As long as the rendering of a timestamp contains no
    underscore, two links with one identifier have the same URL and the same
    rendered timestamp.  Links that share both share their identifier. *)
Theorem guid_is_function_of_url_and_date :
  forall E : Env,
    (forall l1 l2, url l1 = url l2 -> date l1 = date l2 ->
                   guid_of E l1 = guid_of E l2) /\
    (forall l, item_guids (rss_item E l) = [Some (guid_of E l)]) /\
    (forall c st1 st2 db doc1 doc2,
        db_conn st1 = Some db -> db_conn st2 = Some db ->
        fst (rss_tree E c st1) = Ok doc1 ->
        fst (rss_tree E c st2) = Ok doc2 ->
        flat_map item_guids (feed_items doc1)
        = flat_map item_guids (feed_items doc2)) /\
    ((forall d, underscore_free (timestamp E d)) ->
     forall l1 l2, guid_of E l1 = guid_of E l2 ->
                   url l1 = url l2 /\
                   timestamp E (date l1) = timestamp E (date l2)).
Proof.
  intros E. split; [|split; [|split]].
  - intros l1 l2 Hu Hd. unfold guid_of. now rewrite Hu, Hd.
  - apply rss_item_guid.
  - intros c st1 st2 db doc1 doc2 H1 H2 Hd1 Hd2.
    destruct (rss_tree_items E c st1 db H1) as (d1 & Ht1 & _ & _ & Hi1).
    destruct (rss_tree_items E c st2 db H2) as (d2 & Ht2 & _ & _ & Hi2).
    rewrite Ht1 in Hd1. rewrite Ht2 in Hd2. cbn [fst] in Hd1, Hd2.
    injection Hd1 as ->. injection Hd2 as ->.
    now rewrite Hi1, Hi2.
  - intros Hfree l1 l2 Hg. unfold guid_of in Hg.
    exact (underscore_split _ _ _ _ (Hfree _) (Hfree _) Hg).
Qed.

Lemma pretty_N_go_underscore_free x : forall s,
  underscore_free s -> underscore_free (pretty_N_go x s).
Proof.
  induction (N.lt_wf_0 x) as [x _ IH]. intros s Hs.
  destruct (N.eq_dec x 0%N) as [->|Hx]; [assumption|].
  rewrite pretty_N_go_step by lia. apply IH; [apply N.div_lt; lia|].
  unfold underscore_free in *. cbn [Str.forallb]. rewrite Hs.
  unfold pretty_N_char. now repeat case_match.
Qed.

Lemma pretty_Z_underscore_free (d : Z) : underscore_free (pretty d).
Proof.
  assert (HN : forall n : N, underscore_free (pretty n)).
  { intros n. unfold pretty, pretty_N. case_decide; [reflexivity|].
    now apply pretty_N_go_underscore_free. }
  destruct d as [|p|p]; unfold pretty, pretty_Z.
  - reflexivity.
  - apply (HN (Npos p)).
  - unfold underscore_free. rewrite forallb_app. rewrite (HN (Npos p)). reflexivity.
Qed.

Lemma sample_timestamp_underscore_free d : underscore_free (timestamp sample_env d).
Proof.
  unfold underscore_free. cbn [timestamp sample_env]. rewrite forallb_app.
  now rewrite pretty_Z_underscore_free.
Qed.

Lemma guid_is_function_of_url_and_date_witness :
  let l1 := mkLinkData "http://a.example/x_1" "A" "Shared by Ann" 5 None (Some 7%Z) in
  let l2 := mkLinkData "http://a.example/x_1" "B" "Shared by Bob" 5 None (Some 8%Z) in
  url l1 = url l2 /\
  timestamp sample_env (date l1) = timestamp sample_env (date l2).
Proof.
  intros l1 l2.
  destruct (guid_is_function_of_url_and_date sample_env) as (_ & _ & _ & Hinj).
  apply Hinj.
  - exact sample_timestamp_underscore_free.
  - reflexivity.
Defined.

(** * Further properties of the code *)

(** ** More on the URL pattern (main.py, line 52) *)

(** X1 -- The characters a URL may contain.  The four character classes of
    the pattern accept exactly the byte [!] (33), the bytes from [$] to [_]
    (36 to 95) and the lower-case letters (97 to 122): a space, a quote,
    [#], [~], the braces and every byte above 127 end a URL, while [<], [>],
    [)], [,] and the backslash continue it. *)
Theorem url_char_codes : forall c : ascii,
  url_char c = true <->
  (Re.code c = 33 \/ 36 <= Re.code c <= 95 \/ 97 <= Re.code c <= 122)%N.
Proof.
  intros c.
  assert (H : url_char c
              = ((Re.code c =? 33) || ((36 <=? Re.code c) && (Re.code c <=? 95))
                 || ((97 <=? Re.code c) && (Re.code c <=? 122)))%N).
  { destruct c as [[] [] [] [] [] [] [] []]; reflexivity. }
  rewrite H, !orb_true_iff, !andb_true_iff, N.eqb_eq, !N.leb_le. tauto.
Qed.

Lemma span_zero_stop p rest :
  rest = "" \/ (exists c r, rest = String c r /\ p c = false) -> Str.span p rest = 0.
Proof.
  intros [-> | (c & r & -> & Hc)]; [reflexivity|]. cbn [Str.span]. now rewrite Hc.
Qed.

Lemma drop_stop_cases p s :
  Str.drop (Str.span p s) s = "" \/
  exists c r, Str.drop (Str.span p s) s = String c r /\ p c = false.
Proof.
  destruct (Str.drop (Str.span p s) s) as [|c r] eqn:Hd; [now left|].
  right. exists c, r. split; [reflexivity|]. eapply span_stops; eassumption.
Qed.

(** X2 -- The match at the head of a text is the longest one.  Run on
    [URL_PATTERN], the backtracking engine reports a match of length [n] at
    the head of [s] exactly when [s] is a scheme, [http://] or [https://],
    followed by a non-empty run of URL characters that ends with the text or
    before a character that is not a URL character, [n] being the length of
    scheme and run.  The percent-escape alternative of the pattern plays no
    part: a [%] is an ordinary URL character. *)
Theorem url_match_is_longest : forall (s : string) (n : nat),
  Re.match_len URL_PATTERN s = Some n <->
  exists scheme body rest,
    (scheme = "http://" \/ scheme = "https://") /\
    s = scheme +:+ body +:+ rest /\
    body <> "" /\ Str.forallb url_char body = true /\
    (rest = "" \/ exists c r, rest = String c r /\ url_char c = false) /\
    n = String.length scheme + String.length body.
Proof.
  intros s n. rewrite match_len_URL. split.
  - intros H. apply url_match_Some in H as (scheme & b & m & Hsch & -> & Sp & ->).
    pose proof (span_le url_char b) as Hle.
    pose proof (span_forallb url_char b) as Hall.
    pose proof (drop_stop_cases url_char b) as Hstop.
    rewrite Sp in Hle, Hall, Hstop.
    exists scheme, (Str.take (S m) b), (Str.drop (S m) b).
    split; [assumption|]. split; [now rewrite take_drop|].
    split; [destruct b; [simpl in Hle; lia|discriminate]|].
    split; [assumption|]. split; [assumption|].
    now rewrite take_length by assumption.
  - intros (scheme & body & rest & Hsch & -> & Hne & Hall & Hstop & ->).
    assert (Hform : url_form (scheme +:+ body)).
    { exists scheme, body. repeat split; assumption. }
    destruct (url_match_of_form _ rest Hform) as (k & Hk & Hge).
    rewrite app_assoc_str in Hk. rewrite Hk. f_equal.
    apply url_match_Some in Hk as (scheme' & b' & m & Hsch' & Heq & Sp & ->).
    rewrite length_app_str in Hge.
    assert (Hs : scheme' = scheme /\ b' = body +:+ rest).
    { destruct Hsch as [-> | ->], Hsch' as [-> | ->];
        rewrite ?app_cons, ?app_empty_l in Heq;
        try discriminate; injection Heq as <-; now split. }
    destruct Hs as [-> ->].
    rewrite (span_app_all url_char body rest Hall) in Sp.
    rewrite (span_zero_stop url_char rest Hstop) in Sp. lia.
Qed.

Lemma finditer_maximal s pos p u :
  In (p, u) (Re.finditer_go URL_PATTERN 0 pos s) ->
  Str.drop (p - pos + String.length u) s = "" \/
  exists c r, Str.drop (p - pos + String.length u) s = String c r /\
              url_char c = false.
Proof.
  revert p u. pattern pos, s, (Re.finditer_go URL_PATTERN 0 pos s).
  apply finditer_url_ind; clear pos s.
  - intros pos p u [].
  - intros pos s n Hm IH p u [Heq|Hin].
    + injection Heq as <- <-.
      destruct (url_match_facts _ _ Hm) as (_ & Hle & _ & Hstop).
      rewrite take_length by assumption.
      replace (pos - pos + n) with n by lia.
      destruct (Str.drop n s) as [|c r] eqn:Hd; [now left|].
      right. exists c, r. split; [reflexivity|]. exact (Hstop c r eq_refl).
    + pose proof (finditer_sound _ _ _ _ Hin) as (Hp & _).
      specialize (IH _ _ Hin). rewrite drop_drop in IH.
      replace (n + (p - (n + pos) + String.length u))
        with (p - pos + String.length u) in IH by lia.
      exact IH.
  - intros pos c s Hm IH p u Hin.
    pose proof (finditer_sound _ _ _ _ Hin) as (Hp & _).
    specialize (IH _ _ Hin).
    replace (p - pos + String.length u)
      with (S (p - S pos + String.length u)) by lia.
    exact IH.
Qed.

(** X3 -- Reported URLs are maximal and stable.  Every URL reported by
    [URL_PATTERN.finditer] has at least 8 characters, is followed in the text
    by nothing or by a character that is not a URL character (it cannot be
    extended), and is found again, alone and whole, when the extractor is
    run on it. *)
Theorem reported_urls_are_maximal : forall (text : string) (p : nat) (u : string),
  In (p, u) (Re.finditer URL_PATTERN text) ->
  8 <= String.length u /\
  (Str.drop (p + String.length u) text = "" \/
   exists c r, Str.drop (p + String.length u) text = String c r /\
               url_char c = false) /\
  Re.findall URL_PATTERN u = [u].
Proof.
  intros text p u Hin.
  pose proof (finditer_sound _ _ _ _ Hin) as (_ & _ & Hform).
  split; [now apply url_form_length|]. split.
  - apply finditer_maximal in Hin. now rewrite Nat.sub_0_r in Hin.
  - now apply findall_single.
Qed.

Lemma reported_urls_are_maximal_witness :
  8 <= String.length "http://a.example/x" /\
  (Str.drop (15 + String.length "http://a.example/x")
            "check this out http://a.example/x and http://a.example/x" = "" \/
   exists c r,
     Str.drop (15 + String.length "http://a.example/x")
              "check this out http://a.example/x and http://a.example/x"
     = String c r /\ url_char c = false) /\
  Re.findall URL_PATTERN "http://a.example/x" = ["http://a.example/x"].
Proof.
  apply (reported_urls_are_maximal
           "check this out http://a.example/x and http://a.example/x" 15).
  vm_compute. now left.
Defined.

(** ** More on the link store (main.py, lines 135-201) *)

Lemma firstn_prefix {A} n m (l : list A) :
  n <= m -> exists rest, firstn m l = firstn n l ++ rest.
Proof.
  intros Hnm. exists (skipn n (firstn m l)).
  rewrite <- (firstn_skipn n (firstn m l)) at 1. f_equal.
  rewrite List.firstn_firstn. f_equal. lia.
Qed.

Lemma sql_limit_prefix {A} limit limit' (rows : list A) :
  (0 <= limit)%Z -> (limit' < 0 \/ limit <= limit')%Z ->
  exists rest, sql_limit limit' rows = sql_limit limit rows ++ rest.
Proof.
  intros H0 Hle. unfold sql_limit.
  destruct (Z.ltb_spec limit 0) as [|_]; [lia|].
  destruct (Z.ltb_spec limit' 0) as [Hneg|Hpos].
  - exists (skipn (Z.to_nat limit) rows). now rewrite firstn_skipn.
  - apply firstn_prefix. lia.
Qed.

(** X4 -- The window of [get_links].  Without database the result is the
    empty list.  Otherwise, for a limit that is an SQLite INTEGER (the values
    [sqlite3] accepts as a parameter), [get_links] changes nothing and
    returns [min limit n] of the [n] links of the group when the limit is
    not negative, all [n] when it is negative (SQLite's [LIMIT -1]), and
    only links stored for that group.  When the links of the group have
    pairwise different dates, so that [ORDER BY date] leaves no choice, the
    result for a limit is a prefix of the result for any larger (or
    negative) limit. *)
Theorem get_links_window :
  forall (c : chat_ref) (limit : Z) (st : State),
    (db_conn st = None -> get_links c limit st = (Ok [], st)) /\
    (sqlite_integer limit ->
     forall db,
        db_conn st = Some db ->
        exists got,
          get_links c limit st = (Ok got, st) /\
          ((limit < 0)%Z -> length got = length (stored_in (chat_id_str c) db)) /\
          ((0 <= limit)%Z ->
           length got
           = Nat.min (Z.to_nat limit) (length (stored_in (chat_id_str c) db))) /\
          (forall x, In x got -> In (mkLink (chat_id_str c) x) (links db)) /\
          (forall limit' got',
              sqlite_integer limit' ->
              List.NoDup (map (fun r => date (l_data r))
                              (stored_in (chat_id_str c) db)) ->
              (0 <= limit)%Z -> (limit' < 0 \/ limit <= limit')%Z ->
              get_links c limit' st = (Ok got', st) ->
              exists rest, got' = got ++ rest)).
Proof.
  intros c limit st. split.
  - intros Hdb. unfold get_links, mbind, M_bind, bind, get_db. now rewrite Hdb.
  - intros _ db Hdb. rewrite (get_links_run c limit st db Hdb).
    eexists. split; [reflexivity|].
    set (sorted := order_by_date_desc (stored_in (chat_id_str c) db)).
    assert (HP : Permutation sorted (stored_in (chat_id_str c) db))
      by apply ordered_perm.
    split; [|split; [|split]].
    + intros Hneg. rewrite length_map. unfold sql_limit.
      destruct (Z.ltb_spec limit 0); [|lia]. now apply Permutation_length.
    + intros Hpos. rewrite length_map, sql_limit_length by assumption.
      now rewrite (Permutation_length HP).
    + intros x Hx. apply in_map_iff in Hx as (r & <- & Hr).
      apply sql_limit_In in Hr. apply (Permutation_in r HP) in Hr.
      apply filter_In in Hr as [Hr Hg]. unfold in_group in Hg.
      apply String.eqb_eq in Hg. destruct r as [k d]. cbn in *. now subst k.
    + intros limit' got' _ _ H0 Hle Hget'.
      rewrite (get_links_run c limit' st db Hdb) in Hget'.
      injection Hget' as <-. fold sorted.
      destruct (sql_limit_prefix limit limit' sorted H0 Hle) as (rest & ->).
      exists (map l_data rest). apply map_app.
Qed.

Lemma get_links_window_witness :
  (exists got,
      get_links (ChatStr "1") 50 busy_state = (Ok got, busy_state) /\
      length got = 50) /\
  (let st :=
     mkState
       (Some (mkDB [mkGroup "1" "token-a"]
                [mkLink "1" (mkLinkData "http://a.example/x" "A page" "Shared by Ann"
                                        1 None (Some 7%Z));
                 mkLink "1" (mkLinkData "http://a.example/y" "Another" "Shared by Ann"
                                        3 None (Some 8%Z))]))
       0 in
   exists got got' rest,
     get_links (ChatInt 1) 1 st = (Ok got, st) /\
     get_links (ChatInt 1) 2 st = (Ok got', st) /\
     length got = 1 /\ got' = got ++ rest).
Proof.
  split.
  - destruct (get_links_window (ChatStr "1") 50 busy_state) as [_ H].
    destruct (H ltac:(unfold sqlite_integer; lia) _ eq_refl)
      as (got & Hget & _ & Hlen & _).
    exists got. split; [exact Hget|]. rewrite Hlen by lia. vm_compute. reflexivity.
  - intros st.
    destruct (get_links_window (ChatInt 1) 1 st) as [_ H].
    destruct (H ltac:(unfold sqlite_integer; lia) _ eq_refl)
      as (got & Hget & _ & Hlen & _ & Hprefix).
    destruct (get_links_window (ChatInt 1) 2 st) as [_ H'].
    destruct (H' ltac:(unfold sqlite_integer; lia) _ eq_refl)
      as (got' & Hget' & _).
    destruct (Hprefix 2%Z got') as (rest & Hrest).
    + unfold sqlite_integer. lia.
    + vm_compute. repeat constructor; cbn; intuition discriminate.
    + lia.
    + right. lia.
    + exact Hget'.
    + exists got, got', rest. split; [exact Hget|]. split; [exact Hget'|].
      split; [|exact Hrest]. rewrite Hlen by lia. vm_compute. reflexivity.
Defined.

(** X5 -- What [delete_group_links] deletes.  On an initialised store,
    for a message identifier that is an SQLite INTEGER (the values [sqlite3]
    accepts as a parameter), it returns normally, leaves the groups alone,
    removes exactly the links of
    the given group and message (afterwards none is stored for them, and as
    many rows are gone as were stored for them), keeps the links of every
    other group or message and every link whose [message_id] is NULL, and
    deletes nothing more when it is called again. *)
Theorem delete_group_links_exact :
  forall (c : chat_ref) (mid : Z) (st : State) (db : DB),
    db_conn st = Some db ->
    sqlite_integer mid ->
    exists db',
      delete_group_links c mid st = (Ok tt, mkState (Some db') (ticks st)) /\
      groups db' = groups db /\
      stored_for (chat_id_str c) mid db' = [] /\
      (forall key' mid', key' <> chat_id_str c \/ mid' <> mid ->
                         stored_for key' mid' db' = stored_for key' mid' db) /\
      (forall r, In r (links db) -> message_id (l_data r) = None ->
                 In r (links db')) /\
      length (links db') + length (stored_for (chat_id_str c) mid db)
      = length (links db) /\
      delete_group_links c mid (mkState (Some db') (ticks st))
      = (Ok tt, mkState (Some db') (ticks st)).
Proof.
  intros c mid st db Hdb _. rewrite (delete_group_links_run c mid st db Hdb).
  set (key := chat_id_str c).
  eexists. split; [reflexivity|]. cbn [groups links]. split; [reflexivity|].
  unfold stored_for. cbn [links].
  split; [apply filter_filter_neg|]. split; [|split; [|split]].
  - intros key' mid' Hne. apply filter_filter_other. intros r Hr.
    apply from_message_true in Hr as [Hr1 Hr2].
    destruct (from_message key mid r) eqn:F; [|reflexivity].
    apply from_message_true in F as [F1 F2]. destruct Hne; congruence.
  - intros r Hr Hnull. apply filter_In. split; [assumption|].
    unfold from_message. rewrite Hnull. now rewrite andb_false_r.
  - rewrite Nat.add_comm. apply List.filter_length.
  - match goal with
    | |- delete_group_links c mid (mkState (Some ?d) ?t) = _ =>
        rewrite (delete_group_links_run c mid (mkState (Some d) t) d eq_refl)
    end.
    cbn [groups links ticks]. fold key. do 4 f_equal.
    apply filter_all. intros r Hr. now apply filter_In in Hr as [_ Hr].
Qed.

Lemma delete_group_links_exact_witness :
  exists db',
    delete_group_links (ChatInt 1) 7 busy_state = (Ok tt, mkState (Some db') 0) /\
    groups db' = [mkGroup "1" "token-a"] /\ stored_for "1" 7 db' = [].
Proof.
  destruct (delete_group_links_exact (ChatInt 1) 7 busy_state _ eq_refl)
    as (db' & Hdel & Hgroups & Hnone & _); [unfold sqlite_integer; lia|].
  exists db'. split; [exact Hdel|]. split; [exact Hgroups|exact Hnone].
Defined.

(** ** More on ingestion (main.py, lines 252-294) *)

(** What a run of [handle_message] does to the rows of the store. *)
Lemma handle_message_shape E u st db :
  db_conn st = Some db ->
  exists db',
    db_conn (snd (handle_message E u st)) = Some db' /\
    groups db' = groups db /\
    (links db' = links db \/
     exists m new,
       update_message u = Some m /\
       links db'
       = List.filter (fun r => negb (from_message (pretty (Telegram.chat_id m))
                                                  (Telegram.message_id m) r))
                     (links db) ++ new /\
       forall r, In r new -> l_chat_id r = pretty (Telegram.chat_id m)).
Proof.
  intros Hdb.
  destruct (update_message u) as [m|] eqn:Hu.
  2:{ rewrite handle_message_noop by (intros m; congruence).
      exists db. split; [assumption|]. split; [reflexivity|now left]. }
  destruct (Re.findall URL_PATTERN (message_text m)) as [|u0 us] eqn:Hurls.
  { rewrite handle_message_noop by (intros m' Hm'; congruence).
    exists db. split; [assumption|]. split; [reflexivity|now left]. }
  destruct (handle_message_urls E u m st db Hu Hdb) as [Hyes Hno];
    [rewrite Hurls; discriminate|].
  destruct (registered_dec (pretty (Telegram.chat_id m)) db) as [Hreg|Hreg].
  - rewrite (Hyes Hreg). eexists. split; [reflexivity|]. split; [reflexivity|].
    right. exists m. eexists. split; [reflexivity|]. split; [reflexivity|].
    intros r Hr. now apply ingested_from in Hr as (Hk & _).
  - rewrite (Hno Hreg). eexists. split; [reflexivity|]. split; [reflexivity|].
    right. exists m, []. split; [reflexivity|]. cbn [links].
    split; [now rewrite app_nil_r|]. intros r [].
Qed.

Lemma stored_in_other_group db db' key key' mid new :
  key' <> key ->
  links db' = List.filter (fun r => negb (from_message key mid r)) (links db) ++ new ->
  (forall r, In r new -> l_chat_id r = key) ->
  stored_in key' db' = stored_in key' db.
Proof.
  intros Hne Hl Hnew. unfold stored_in. rewrite Hl, List.filter_app.
  rewrite (filter_none (in_group key') new).
  - rewrite app_nil_r. apply filter_filter_other. intros r Hr.
    unfold in_group in Hr. apply String.eqb_eq in Hr.
    destruct (from_message key mid r) eqn:F; [|reflexivity].
    apply from_message_true in F as [F _]. congruence.
  - intros r Hr. apply Hnew in Hr. unfold in_group.
    apply String.eqb_neq. congruence.
Qed.

(** X6 -- Groups are isolated.  Ingesting a message of one chat changes
    neither what [get_links] returns for any other group, whatever the
    limit, nor the entries of that group's feed; and two different integer
    chat identifiers are always two different groups. *)
Theorem other_groups_untouched :
  forall (E : Env) (u : Telegram.Update) (m : Telegram.Message)
         (st : State) (db : DB) (c' : chat_ref),
    update_message u = Some m ->
    db_conn st = Some db ->
    chat_id_str c' <> pretty (Telegram.chat_id m) ->
    let st' := snd (handle_message E u st) in
    (forall limit, fst (get_links c' limit st') = fst (get_links c' limit st)) /\
    (forall doc doc',
        fst (rss_tree E c' st) = Ok doc ->
        fst (rss_tree E c' st') = Ok doc' ->
        feed_items doc' = feed_items doc) /\
    (forall z : Z, z <> Telegram.chat_id m ->
                   chat_id_str (ChatInt z) <> pretty (Telegram.chat_id m)).
Proof.
  intros E u m st db c' Hu Hdb Hne st'.
  destruct (handle_message_shape E u st db Hdb) as (db' & Hdb' & _ & Hshape).
  fold st' in Hdb'.
  assert (Hsame : stored_in (chat_id_str c') db' = stored_in (chat_id_str c') db).
  { destruct Hshape as [Hl | (m' & new & Hu' & Hl & Hnew)].
    - unfold stored_in. now rewrite Hl.
    - assert (m' = m) as -> by congruence.
      exact (stored_in_other_group db db' _ _ _ new Hne Hl Hnew). }
  split; [|split].
  - intros limit.
    rewrite (get_links_run c' limit st' db' Hdb'), (get_links_run c' limit st db Hdb).
    cbn [fst]. now rewrite Hsame.
  - intros doc doc' Hdoc Hdoc'.
    destruct (rss_tree_items E c' st db Hdb) as (d & Ht & _ & _ & Hi).
    destruct (rss_tree_items E c' st' db' Hdb') as (d' & Ht' & _ & _ & Hi').
    rewrite Ht in Hdoc. rewrite Ht' in Hdoc'. cbn [fst] in Hdoc, Hdoc'.
    injection Hdoc as ->. injection Hdoc' as ->.
    now rewrite Hi, Hi', Hsame.
  - intros z Hz Heq. cbn [chat_id_str] in Heq.
    apply Hz. exact (pretty_Z_inj _ _ Heq).
Qed.

Lemma other_groups_untouched_witness :
  fst (get_links (ChatInt 2) 50 (snd (handle_message sample_env update_first busy_state)))
  = fst (get_links (ChatInt 2) 50 busy_state).
Proof.
  destruct (other_groups_untouched sample_env update_first msg_first busy_state
              (mkDB [mkGroup "1" "token-a"]
                 (map (fun i => mkLink "1"
                         (mkLinkData "http://a.example/x" "A page" "Shared by Ann"
                                     (Z.of_nat i) None (Some 7%Z)))
                      (seq 0 75)))
              (ChatInt 2) eq_refl eq_refl) as (Hget & _).
  - vm_compute. discriminate.
  - apply Hget.
Defined.

(** ** The [/rssfeed] command and the feed it hands out
       (main.py, lines 297-312 and 352-370) *)

Lemma command_run E u m st :
  Telegram.message u = Some m -> Telegram.chat_id m <> 0%Z ->
  handle_rssfeed_command E u st
  = match get_group_token E (ChatInt (Telegram.chat_id m)) st with
    | (Ok t, st1) =>
        (Ok (Some ("Your RSS feed link, use it in your RSS reader:"
                   +:+ newline +:+ APP_URL E +:+ "/rss?token=" +:+ t)), st1)
    | (Raise e, st1) => (Raise e, st1)
    end.
Proof.
  intros Hm Hz. unfold handle_rssfeed_command. rewrite Hm.
  destruct (Z.eqb_spec (Telegram.chat_id m) 0) as [|_]; [contradiction|].
  unfold mbind, M_bind, bind.
  now destruct (get_group_token E (ChatInt (Telegram.chat_id m)) st) as [[t|e] st1].
Qed.

Lemma no_rows_of_unknown_group db key :
  db_ok db -> ~ registered key db ->
  forall r, In r (links db) -> l_chat_id r <> key.
Proof.
  intros Hok Hreg r Hr Heq. apply Hreg. unfold registered. rewrite <- Heq.
  now apply (ok_foreign_key _ Hok).
Qed.

(** X7 -- Links are collected only for groups that have asked for their
    feed.  In a group without row in [groups], the ingestion of a message
    with URLs fetches the first URL, reads the clock, fails on the foreign
    key of [links.chat_id] and leaves the store exactly as it was.  Once the
    [/rssfeed] command has created the row (its token being new), the same
    message is ingested normally, one link per URL. *)
Theorem links_need_a_group_row :
  forall (E : Env) (u : Telegram.Update) (m : Telegram.Message) (st : State) (db : DB),
    Telegram.message u = Some m ->
    Telegram.chat_id m <> 0%Z ->
    db_conn st = Some db ->
    db_ok db ->
    Re.findall URL_PATTERN (message_text m) <> [] ->
    ~ registered (pretty (Telegram.chat_id m)) db ->
    let st0 := mkState (Some db) (S (S (ticks st))) in
    handle_message E u st
    = (Raise (IntegrityError "FOREIGN KEY constraint failed"), st0) /\
    (select_token (uuid4 E (ticks st0)) db = None ->
     let st1 := snd (handle_rssfeed_command E u st0) in
     fst (handle_message E u st1) = Ok tt /\
     exists db2,
       db_conn (snd (handle_message E u st1)) = Some db2 /\
       map (fun r => url (l_data r)) (stored_in (pretty (Telegram.chat_id m)) db2)
       = Re.findall URL_PATTERN (message_text m)).
Proof.
  intros E u m st db Hm Hz Hdb Hok Hurls Hreg st0.
  set (key := pretty (Telegram.chat_id m)) in *.
  assert (Hu : update_message u = Some m) by (unfold update_message; now rewrite Hm).
  assert (Hkept : forall mid (dbx : DB),
             links dbx = links db ->
             List.filter (fun r => negb (from_message key mid r)) (links dbx)
             = links db).
  { intros mid dbx ->. apply filter_all. intros r Hr.
    pose proof (no_rows_of_unknown_group db key Hok Hreg r Hr) as Hne.
    destruct (from_message key mid r) eqn:F; [|reflexivity].
    apply from_message_true in F as [F _]. contradiction. }
  split.
  - destruct (handle_message_urls E u m st db Hu Hdb Hurls) as [_ Hno].
    rewrite (Hno Hreg). fold key. rewrite (Hkept _ db eq_refl).
    subst st0. now destruct db.
  - intros Hfresh st1.
    assert (Hrow : select_group key db = None) by now apply select_group_None.
    pose proof (get_group_token_new E (ChatInt (Telegram.chat_id m)) st0 db
                  eq_refl Hrow Hfresh) as Hget.
    assert (Hst1 : st1 = snd (get_group_token E (ChatInt (Telegram.chat_id m)) st0)).
    { subst st1. rewrite (command_run E u m st0 Hm Hz). now rewrite Hget. }
    rewrite Hget in Hst1. cbn [snd chat_id_str] in Hst1. fold key in Hst1.
    set (db1 := mkDB (groups db ++ [mkGroup key (uuid4 E (ticks st0))]) (links db))
      in Hst1.
    assert (Hreg1 : registered key db1).
    { unfold registered, db1. cbn [groups]. rewrite map_app.
      apply in_or_app. right. now left. }
    destruct (handle_message_urls E u m st1 db1 Hu) as [Hyes _];
      [now rewrite Hst1|assumption|].
    rewrite (Hyes Hreg1). cbn [fst snd db_conn]. split; [reflexivity|].
    eexists. split; [reflexivity|].
    unfold stored_in. cbn [links]. fold key.
    rewrite (Hkept _ db1 eq_refl), List.filter_app.
    rewrite (filter_none (in_group key) (links db)).
    + cbn [app]. rewrite filter_all; [apply ingested_urls|].
      intros r Hr. apply ingested_from in Hr as (Hk & _).
      unfold in_group. now apply String.eqb_eq.
    + intros r Hr. unfold in_group. apply String.eqb_neq.
      now apply (no_rows_of_unknown_group db key Hok Hreg).
Qed.

Lemma links_need_a_group_row_witness :
  handle_message sample_env update_other sample_state
  = (Raise (IntegrityError "FOREIGN KEY constraint failed"),
     mkState (Some (mkDB [mkGroup "1" "token-a"] [])) 2) /\
  fst (handle_message sample_env update_other
         (snd (handle_rssfeed_command sample_env update_other
                 (mkState (Some (mkDB [mkGroup "1" "token-a"] [])) 2))))
  = Ok tt.
Proof.
  destruct (links_need_a_group_row sample_env update_other msg_other sample_state
              (mkDB [mkGroup "1" "token-a"] [])) as [Hfail Hthen].
  - reflexivity.
  - discriminate.
  - reflexivity.
  - split; cbn; [repeat constructor; intros []..|intros r []].
  - vm_compute. discriminate.
  - vm_compute. intros [H|[]]. discriminate.
  - split; [exact Hfail|]. destruct Hthen as [Hok _]; [reflexivity|exact Hok].
Defined.

(** X8 -- The link handed out by [/rssfeed] works.  On an initialised store
    that satisfies its constraints, for a chat that is already known or for
    which [uuid4] draws a new token, the command replies with the text
    ["Your RSS feed link, ...:\n<APP_URL>/rss?token=<t>"]; sent again, it
    gives the same reply and changes nothing; and a GET of [/rss] with that
    [t] is answered with status 200 and a document whose channel links to
    [<APP_URL>/rss/<chat id>].  A command update without message, or whose
    chat identifier is 0, gets no reply and changes nothing. *)
Theorem feed_link_round_trip :
  forall (E : Env) (u : Telegram.Update) (m : Telegram.Message) (st : State) (db : DB),
    (Telegram.message u = None \/
     (Telegram.message u = Some m /\ Telegram.chat_id m = 0%Z) ->
     handle_rssfeed_command E u st = (Ok None, st)) /\
    (Telegram.message u = Some m ->
     Telegram.chat_id m <> 0%Z ->
     db_conn st = Some db ->
     db_ok db ->
     registered (pretty (Telegram.chat_id m)) db \/
     select_token (uuid4 E (ticks st)) db = None ->
     exists t st1 doc,
       let reply := "Your RSS feed link, use it in your RSS reader:"
                    +:+ newline +:+ APP_URL E +:+ "/rss?token=" +:+ t in
       handle_rssfeed_command E u st = (Ok (Some reply), st1) /\
       handle_rssfeed_command E u st1 = (Ok (Some reply), st1) /\
       fst (GET_rss E (Some t) st1)
       = Replied (mkResponse 200 "application/rss+xml" (ET_tostring E doc)) /\
       In (leaf "link" (APP_URL E +:+ "/rss/" +:+ pretty (Telegram.chat_id m)))
          (flat_map children (children doc))).
Proof.
  intros E u m st db. split.
  - intros [Hnone | [Hm Hz]]; unfold handle_rssfeed_command.
    + now rewrite Hnone.
    + rewrite Hm, Hz. reflexivity.
  - intros Hm Hz Hdb Hok Hcase.
    set (c := ChatInt (Telegram.chat_id m)).
    destruct (get_group_token_returns E c st db Hdb Hok Hcase)
      as (t & st1 & db1 & Hget & Hdb1 & [Hok1 _] & Hin1).
    assert (Hagain : get_group_token E c st1 = (Ok t, st1)).
    { now rewrite (get_group_token_known E c st1 db1 _ Hdb1
                     (token_of_group db1 _ t Hok1 Hin1)). }
    assert (Hsel : select_token t db1 = Some (mkGroup (chat_id_str c) t))
      by exact (select_token_unique _ (mkGroup (chat_id_str c) t)
                  (ok_unique_token _ Hok1) Hin1).
    destruct (rss_feed_known E t st1 db1 _ Hdb1 Hsel) as (doc & Htree & Hfeed).
    exists t, st1, doc. cbn zeta.
    rewrite !(command_run E u m _ Hm Hz). fold c. rewrite Hget, Hagain.
    split; [reflexivity|]. split; [reflexivity|].
    unfold GET_rss. rewrite Hfeed. split; [reflexivity|].
    pose proof (rss_tree_run E (ChatStr (chat_id_str c)) st1 db1 Hdb1) as Hrun.
    cbn [g_chat_id] in Htree. rewrite Htree in Hrun. injection Hrun as ->.
    cbn [children flat_map chat_id_str c app]. right. now left.
Qed.

Lemma feed_link_round_trip_witness :
  exists t st1 doc,
    handle_rssfeed_command sample_env update_other sample_state
    = (Ok (Some ("Your RSS feed link, use it in your RSS reader:"
                 +:+ newline +:+ "http://localhost:8080" +:+ "/rss?token=" +:+ t)),
       st1) /\
    fst (GET_rss sample_env (Some t) st1)
    = Replied (mkResponse 200 "application/rss+xml" (ET_tostring sample_env doc)).
Proof.
  destruct (feed_link_round_trip sample_env update_other msg_other sample_state
              (mkDB [mkGroup "1" "token-a"] [])) as [_ H].
  destruct H as (t & st1 & doc & Hcmd & _ & Hget & _).
  - reflexivity.
  - discriminate.
  - reflexivity.
  - split; cbn; [repeat constructor; intros []..|intros r []].
  - right. reflexivity.
  - exists t, st1, doc. split; [exact Hcmd|exact Hget].
Defined.

(** X9 -- Feed requests only read.  Whatever the query, a GET of [/rss]
    leaves the database as it is, is answered with status 200, 401, 422 or
    500, and reads the clock (once) exactly when the status is 200. *)
Theorem feed_requests_only_read :
  forall (E : Env) (q : option string) (st : State),
    db_conn (snd (GET_rss E q st)) = db_conn st /\
    (reply_status (fst (GET_rss E q st)) = 200%Z /\
     ticks (snd (GET_rss E q st)) = S (ticks st) \/
     In (reply_status (fst (GET_rss E q st))) [401; 422; 500]%Z /\
     ticks (snd (GET_rss E q st)) = ticks st).
Proof.
  intros E q st. destruct q as [token|]; cbn [GET_rss].
  2:{ split; [reflexivity|]. right. split; [cbn; tauto|reflexivity]. }
  destruct (db_conn st) as [db|] eqn:Hdb.
  - destruct (select_token token db) as [row|] eqn:Htok.
    + destruct (rss_feed_known E token st db row Hdb Htok) as (doc & _ & ->).
      cbn. split; [reflexivity|]. now left.
    + rewrite (rss_feed_unknown E token st db Hdb Htok). cbn.
      split; [assumption|]. right. split; [tauto|reflexivity].
  - unfold rss_feed, mbind, M_bind, bind, get_db. rewrite Hdb. cbn.
    split; [assumption|]. right. split; [tauto|reflexivity].
Qed.

(** ** Before the database is initialised
       (the [if not db_conn] guards, main.py lines 114, 137, 163, 194, 355, 376) *)

Lemma handle_message_no_db E u st :
  db_conn st = None ->
  handle_message E u st
  = (Ok tt,
     mkState None
       (2 * length (match update_message u with
                    | Some m => Re.findall URL_PATTERN (message_text m)
                    | None => []
                    end) + ticks st)).
Proof.
  intros Hdb.
  destruct (update_message u) as [m|] eqn:Hu.
  2:{ rewrite handle_message_noop by (intros m; congruence).
      destruct st as [d t]. cbn in *. now subst. }
  destruct (Re.findall URL_PATTERN (message_text m)) as [|u0 us] eqn:Hurls.
  { rewrite handle_message_noop by (intros m' Hm'; congruence).
    destruct st as [d t]. cbn in *. now subst. }
  unfold handle_message. rewrite Hu, Hurls.
  erewrite bind_ok.
  2:{ unfold delete_group_links, mbind, M_bind, bind, get_db.
      rewrite Hdb. reflexivity. }
  now rewrite for_each_ingest_no_db.
Qed.

Lemma exec_no_db E a st : db_conn st = None -> db_conn (exec E a st) = None.
Proof.
  intros Hdb. destruct a as [[u|u|q]|c|c l|c n|c m|u|]; cbn [exec handle].
  - now rewrite handle_message_no_db.
  - unfold handle_rssfeed_command.
    destruct (Telegram.message u) as [m|]; [|assumption].
    destruct (Z.eqb (Telegram.chat_id m) 0); [assumption|].
    unfold get_group_token, mbind, M_bind, bind, get_db. now rewrite Hdb.
  - destruct q as [token|]; cbn [GET_rss]; [|assumption].
    unfold rss_feed, mbind, M_bind, bind, get_db. now rewrite Hdb.
  - unfold get_group_token, mbind, M_bind, bind, get_db. now rewrite Hdb.
  - unfold save_link, mbind, M_bind, bind, get_db. now rewrite Hdb.
  - unfold get_links, mbind, M_bind, bind, get_db. now rewrite Hdb.
  - unfold delete_group_links, mbind, M_bind, bind, get_db. now rewrite Hdb.
  - now rewrite fetch_og_tags_run.
  - assumption.
Qed.

(** X10 -- Without a database nothing is stored and nothing fails but the
    feed.  While [db_conn] is unset: [get_group_token] returns the empty
    token, [save_link] and [delete_group_links] do nothing, [get_links]
    returns no link; [handle_message] still fetches every URL, reads the
    clock for each, stores nothing and returns normally; [/health] reports
    the error; a GET of [/rss] with a token is answered 500; and no handler
    and no store call ever sets [db_conn]: only [init_database] does. *)
Theorem without_database :
  forall (E : Env) (st : State),
    db_conn st = None ->
    (forall c, get_group_token E c st = (Ok "", st)) /\
    (forall c l, save_link c l st = (Ok tt, st)) /\
    (forall c n, get_links c n st = (Ok [], st)) /\
    (forall c m, delete_group_links c m st = (Ok tt, st)) /\
    (forall u m,
        update_message u = Some m ->
        handle_message E u st
        = (Ok tt,
           mkState None
             (2 * length (Re.findall URL_PATTERN (message_text m)) + ticks st))) /\
    health st = (Ok (HealthError "Database not initialized"), st) /\
    (forall token,
        GET_rss E (Some token) st = (ErrorBody 500 "Database not initialized", st)) /\
    (forall acts, db_conn (run_schedule E acts st) = None) /\
    (forall file, db_conn (snd (init_database file st)) = Some file).
Proof.
  intros E st Hdb. repeat split.
  - intros c. unfold get_group_token, mbind, M_bind, bind, get_db. now rewrite Hdb.
  - intros c l. unfold save_link, mbind, M_bind, bind, get_db. now rewrite Hdb.
  - intros c n. unfold get_links, mbind, M_bind, bind, get_db. now rewrite Hdb.
  - intros c m. unfold delete_group_links, mbind, M_bind, bind, get_db.
    now rewrite Hdb.
  - intros u m Hu. rewrite (handle_message_no_db E u st Hdb). now rewrite Hu.
  - unfold health, mbind, M_bind, bind, get_db. now rewrite Hdb.
  - intros token. unfold GET_rss, rss_feed, mbind, M_bind, bind, get_db.
    now rewrite Hdb.
  - intros acts. revert st Hdb.
    induction acts as [|a acts IH]; intros st Hdb; [assumption|].
    cbn [run_schedule fold_left]. apply IH. now apply exec_no_db.
Qed.

Lemma without_database_witness :
  handle_message sample_env update_first no_db_state = (Ok tt, mkState None 4) /\
  db_conn (run_schedule sample_env
             [Handler (OnCommand update_first); Handler (OnMessage update_first);
              CallSaveLink (ChatInt 1) (composed sample_env 7 "Ann" 0 "http://a.example/x")]
             no_db_state) = None.
Proof.
  destruct (without_database sample_env no_db_state eq_refl)
    as (_ & _ & _ & _ & Hmsg & _ & _ & Hrun & _).
  split.
  - exact (Hmsg update_first msg_first eq_refl).
  - apply Hrun.
Defined.

(** ** The health endpoint (main.py, lines 373-390) *)

Lemma ingested_urls_length E key mid user urls : forall i,
  length (ingested E key mid user i urls) = length urls.
Proof.
  intros i. rewrite <- (ingested_urls E key mid user urls i) at 2.
  now rewrite length_map.
Qed.

Lemma health_run st db :
  db_conn st = Some db ->
  health st
  = (Ok (HealthOk (Z.of_nat (length (links db))) (Z.of_nat (length (groups db)))), st).
Proof.
  intros Hdb. unfold health, mbind, M_bind, bind, get_db. now rewrite Hdb.
Qed.

(** X11 -- What [/health] counts.  On an initialised store [/health] never
    reports an error and changes nothing.  (1) Across the ingestion of a
    message with URLs in a group that has a row, the group count is
    unchanged and the link count goes down by the number of links stored
    before for that message and up by the number of URLs of its text.
    (2) Along any schedule of handler runs and store calls, from a store that
    satisfies its constraints, [/health] keeps answering and the group count
    never goes down. *)
Theorem health_counts :
  forall (E : Env) (st : State) (db : DB),
    db_conn st = Some db ->
    (forall u m,
        update_message u = Some m ->
        registered (pretty (Telegram.chat_id m)) db ->
        Re.findall URL_PATTERN (message_text m) <> [] ->
        let st' := snd (handle_message E u st) in
        exists n g n',
          health st = (Ok (HealthOk n g), st) /\
          health st' = (Ok (HealthOk n' g), st') /\
          (n' = n - Z.of_nat (length (stored_for (pretty (Telegram.chat_id m))
                                                 (Telegram.message_id m) db))
                + Z.of_nat (length (Re.findall URL_PATTERN (message_text m))))%Z) /\
    (db_ok db ->
     forall acts,
       let st' := run_schedule E acts st in
       exists n g n' g',
         health st = (Ok (HealthOk n g), st) /\
         health st' = (Ok (HealthOk n' g'), st') /\
         (g <= g')%Z).
Proof.
  intros E st db Hdb. split.
  - intros u m Hu Hreg Hurls st'.
    destruct (handle_message_urls E u m st db Hu Hdb Hurls) as [Hyes _].
    specialize (Hyes Hreg).
    assert (Hdb' : db_conn st' = Some (snd (
                     (tt, mkDB (groups db)
                       (List.filter (fun r => negb (from_message
                            (pretty (Telegram.chat_id m)) (Telegram.message_id m) r))
                          (links db)
                        ++ ingested E (pretty (Telegram.chat_id m))
                             (Telegram.message_id m) (message_user_name m)
                             (ticks st) (Re.findall URL_PATTERN (message_text m))))))).
    { subst st'. now rewrite Hyes. }
    cbn [snd] in Hdb'.
    do 3 eexists. split; [exact (health_run st db Hdb)|].
    split; [exact (health_run st' _ Hdb')|].
    cbn [links]. rewrite length_app, ingested_urls_length.
    pose proof (List.filter_length
                  (from_message (pretty (Telegram.chat_id m)) (Telegram.message_id m))
                  (links db)) as Hlen.
    unfold stored_for. lia.
  - intros Hok acts st'.
    destruct (run_schedule_step E acts st db Hdb Hok)
      as (db' & Hdb' & _ & extra & Hg).
    do 4 eexists. split; [exact (health_run st db Hdb)|].
    split; [exact (health_run st' db' Hdb')|].
    rewrite Hg, length_app. lia.
Qed.

Lemma health_counts_witness :
  let st' := snd (handle_message sample_env update_mixed busy_state) in
  exists n g n',
    health busy_state = (Ok (HealthOk n g), busy_state) /\
    health st' = (Ok (HealthOk n' g), st') /\
    n' = (n - 75 + 2)%Z.
Proof.
  intros st'.
  destruct (health_counts sample_env busy_state _ eq_refl) as [H _].
  destruct (H update_mixed msg_mixed eq_refl) as (n & g & n' & H1 & H2 & H3);
    [vm_compute; now left|vm_compute; discriminate|].
  exists n, g, n'. split; [exact H1|]. split; [exact H2|]. exact H3.
Defined.

(** ** More on ingestion: fetches, clock readings and what is stored *)

(** X12 -- One fetch and one clock reading per URL occurrence.  In a group
    that has a row, the ingestion of a message with [k] URL occurrences
    makes exactly [2 k] interactions with the outside world, alternately a
    fetch and a reading of the clock: the link of the [n]-th occurrence is
    composed from the fetch made at interaction [2 n] and dated by the clock
    reading that follows it.  Nothing is cached: a URL that occurs twice is
    fetched twice. *)
Theorem one_fetch_per_url :
  forall (E : Env) (u : Telegram.Update) (m : Telegram.Message) (st : State) (db : DB),
    update_message u = Some m ->
    db_conn st = Some db ->
    registered (pretty (Telegram.chat_id m)) db ->
    Re.findall URL_PATTERN (message_text m) <> [] ->
    let key := pretty (Telegram.chat_id m) in
    let mid := Telegram.message_id m in
    let urls := Re.findall URL_PATTERN (message_text m) in
    let st' := snd (handle_message E u st) in
    ticks st' = 2 * length urls + ticks st /\
    exists db',
      db_conn st' = Some db' /\
      forall n url0,
        nth_error urls n = Some url0 ->
        exists row og,
          nth_error (stored_for key mid db') n = Some row /\
          fst (fetch_og_tags E url0 (mkState (Some db) (2 * n + ticks st))) = Ok og /\
          title (l_data row)
          = (if opt_truthy (og_title og) then py_str (og_title og) else url0) /\
          image (l_data row) = og_image og /\
          date (l_data row) = datetime_now E (S (2 * n + ticks st)).
Proof.
  intros E u m st db Hu Hdb Hreg Hne key mid urls st'.
  destruct (handle_message_urls E u m st db Hu Hdb Hne) as [Hok _].
  subst st'. rewrite (Hok Hreg). cbn [snd ticks db_conn]. split; [reflexivity|].
  eexists. split; [reflexivity|].
  unfold stored_for. cbn [links].
  rewrite List.filter_app, filter_filter_neg, stored_for_ingested. cbn [app].
  intros n url0 Hn.
  exists (mkLink key (composed E mid (message_user_name m) (2 * n + ticks st) url0)).
  exists (fetched E (2 * n + ticks st) url0).
  split; [apply ingested_nth; exact Hn|].
  rewrite fetch_og_tags_run. cbn [fst ticks]. now repeat split.
Qed.

Lemma one_fetch_per_url_witness :
  let st' := snd (handle_message sample_env update_first sample_state) in
  ticks st' = 4 /\
  exists db' row,
    db_conn st' = Some db' /\
    nth_error (stored_for "1" 7 db') 1 = Some row /\
    date (l_data row) = 3%Z.
Proof.
  intros st'.
  destruct (one_fetch_per_url sample_env update_first msg_first sample_state
              (mkDB [mkGroup "1" "token-a"] []) eq_refl eq_refl)
    as (Hticks & db' & Hdb' & Hrows);
    [vm_compute; now left|vm_compute; discriminate|].
  split; [exact Hticks|].
  destruct (Hrows 1 "http://a.example/x" eq_refl) as (row & og & Hrow & _ & _ & _ & Hd).
  exists db', row. split; [exact Hdb'|]. split; [exact Hrow|exact Hd].
Defined.

(** ** What is read from a page (main.py, lines 213-245) *)

Lemma fetch_og_tags_page E u st status text soup :
  http_get E (ticks st) u = HttpResponse status text ->
  is_success status = true ->
  BeautifulSoup E text = Some soup ->
  fetched E (ticks st) u = extract_og soup.
Proof. intros H1 H2 H3. unfold fetched. now rewrite H1, H2, H3. Qed.

(** X13 -- The fields read from a page that was fetched and parsed.
    (1) An [og:title] tag whose [content] is a non-empty string gives the
    title, whatever the [<title>] element says.  (2) When there is no
    [og:title] tag, or its [content] is the empty string, the title is the
    string of the [<title>] element if it has a non-empty one, and is
    [None] if the element has no string or an empty one.  (3) An
    [og:title], [og:description] or [og:image] tag without [content]
    attribute gives the four-letter string ["None"]: [str(None)].  (4) The
    image comes from [og:image] alone.  (5) Stored by the ingestion in a
    group that has a row, a link whose page has an [og:title] tag without
    [content] is titled ["None"]. *)
Theorem page_fields :
  forall (E : Env) (u : string) (st : State) (status : Z) (text : string) (soup : Soup),
    http_get E (ticks st) u = HttpResponse status text ->
    is_success status = true ->
    BeautifulSoup E text = Some soup ->
    exists og,
      fetch_og_tags E u st = (Ok og, mkState (db_conn st) (S (ticks st))) /\
      (forall tag s,
          find_meta_property soup "og:title" = Some tag ->
          tag_content tag = Some s -> s <> "" -> og_title og = Some s) /\
      (find_meta_property soup "og:title" = None \/
       (exists tag, find_meta_property soup "og:title" = Some tag /\
                    tag_content tag = Some "") ->
       forall t, find_title soup = Some t ->
                 og_title og
                 = (if opt_truthy (tag_string t) then tag_string t else None)) /\
      (forall tag, find_meta_property soup "og:title" = Some tag ->
                   tag_content tag = None -> og_title og = Some "None") /\
      (forall tag, find_meta_property soup "og:description" = Some tag ->
                   tag_content tag = None -> og_description og = Some "None") /\
      og_image og
      = option_map (fun tag => py_str (tag_content tag))
                   (find_meta_property soup "og:image") /\
      (forall chat mid user db tag,
          db_conn st = Some db ->
          registered (pretty chat) db ->
          find_meta_property soup "og:title" = Some tag ->
          tag_content tag = None ->
          exists db' row,
            ingest_url E chat mid user u st
            = (Ok tt, mkState (Some db') (S (S (ticks st)))) /\
            links db' = links db ++ [row] /\
            url (l_data row) = u /\ title (l_data row) = "None").
Proof.
  intros E u st status text soup Hget Hstatus Hsoup.
  pose proof (fetch_og_tags_page E u st status text soup Hget Hstatus Hsoup) as Hf.
  exists (extract_og soup). rewrite fetch_og_tags_run, Hf.
  split; [reflexivity|]. unfold extract_og. cbn [og_title og_description og_image].
  split; [|split; [|split; [|split; [|split]]]].
  - intros tag s Htag Hc Hs. rewrite Htag, Hc. cbn [py_str opt_truthy].
    destruct s; [contradiction|reflexivity].
  - intros Hno t Ht. rewrite Ht.
    destruct Hno as [-> | (tag & -> & ->)]; cbn [py_str opt_truthy Str.truthy negb].
    + destruct (tag_string t) as [[|a s]|]; reflexivity.
    + destruct (tag_string t) as [[|a s]|]; reflexivity.
  - intros tag Htag Hc. now rewrite Htag, Hc.
  - intros tag Htag Hc. now rewrite Htag, Hc.
  - now destruct (find_meta_property soup "og:image").
  - intros chat mid user db tag Hdb Hreg Htag Hc.
    rewrite (ingest_url_ok E chat mid user u st db Hdb Hreg).
    do 2 eexists. split; [reflexivity|]. cbn [links]. split; [reflexivity|].
    cbn [l_data]. split; [reflexivity|].
    unfold composed. cbn [title]. rewrite Hf. unfold extract_og. cbn [og_title].
    now rewrite Htag, Hc.
Qed.

Lemma page_fields_witness :
  exists og,
    fetch_og_tags bare_env "https://b.example/y" sample_state
    = (Ok og, mkState (db_conn sample_state) 1) /\
    og_title og = Some "None" /\
    exists db' row,
      ingest_url bare_env 1 3 "Ann" "https://b.example/y" sample_state
      = (Ok tt, mkState (Some db') 2) /\
      links db' = [row] /\ title (l_data row) = "None".
Proof.
  destruct (page_fields bare_env "https://b.example/y" sample_state 200
              "<html></html>" bare_soup eq_refl eq_refl eq_refl)
    as (og & Hfetch & _ & _ & Htitle & _ & _ & Hstored).
  exists og. split; [exact Hfetch|].
  split; [exact (Htitle (mkTag None None) eq_refl eq_refl)|].
  destruct (Hstored 1%Z 3%Z "Ann" (mkDB [mkGroup "1" "token-a"] []) (mkTag None None))
    as (db' & row & Hrun & Hlinks & _ & Ht);
    [reflexivity|vm_compute; now left|reflexivity|reflexivity|].
  exists db', row. split; [exact Hrun|]. split; [exact Hlinks|exact Ht].
Defined.

(** ** The shape of the feed document (main.py, lines 315-339) *)

Lemma child_tags_items E (ls : list LinkData) :
  map tag_of (map (rss_item E) ls) = repeat "item" (length ls).
Proof. induction ls as [|l ls IH]; [reflexivity|]. cbn. now rewrite <- IH. Qed.

Lemma order_by_date_desc_length rows :
  length (order_by_date_desc rows) = length rows.
Proof. apply Permutation_length, ordered_perm. Qed.

(** X14 -- The shape of the feed document.  On an initialised store the
    document built for a chat, known or not, is one [rss] element of version
    2.0 with one [channel]; the channel has a title, a link, a description
    and a build date, followed by one [item] per link of the chat up to
    fifty, and by nothing else (an unknown chat gets the four header
    elements and no item).  Every item renders one stored link of that chat
    and has a title, a link, a description, a publication date and a guid,
    followed by an [enclosure] exactly when the image of the link is
    neither [None] nor the empty string. *)
Theorem feed_document_shape :
  forall (E : Env) (c : chat_ref) (st : State) (db : DB),
    db_conn st = Some db ->
    exists channel,
      fst (rss_tree E c st) = Ok (Elem "rss" [("version", "2.0")] None [channel]) /\
      tag_of channel = "channel" /\
      child_tags channel
      = ["title"; "link"; "description"; "lastBuildDate"]
        ++ repeat "item" (Nat.min 50 (length (stored_in (chat_id_str c) db))) /\
      (forall item,
          In item (children channel) -> tag_of item = "item" ->
          exists row,
            In row (stored_in (chat_id_str c) db) /\
            item = rss_item E (l_data row) /\
            child_tags item
            = ["title"; "link"; "description"; "pubDate"; "guid"]
              ++ (if opt_truthy (image (l_data row)) then ["enclosure"] else []) /\
            (In "enclosure" (child_tags item)
             <-> image (l_data row) <> None /\ image (l_data row) <> Some "")).
Proof.
  intros E c st db Hdb. eexists. rewrite (rss_tree_run E c st db Hdb). cbn [fst].
  split; [reflexivity|]. split; [reflexivity|].
  unfold child_tags. cbn [children]. split.
  - rewrite map_app, child_tags_items, length_map.
    rewrite sql_limit_length by lia. now rewrite order_by_date_desc_length.
  - intros item Hin Htag.
    apply in_app_or in Hin as [Hin|Hin].
    { cbn in Hin. destruct Hin as [<-|[<-|[<-|[<-|[]]]]]; discriminate. }
    apply in_map_iff in Hin as (l & <- & Hin).
    apply in_map_iff in Hin as (row & <- & Hin).
    apply sql_limit_In in Hin.
    apply (Permutation_in _ (ordered_perm _)) in Hin.
    exists row. split; [assumption|]. split; [reflexivity|].
    unfold rss_item. cbn [children]. rewrite map_app.
    destruct (image (l_data row)) as [[|a s]|]; cbn; (split; [reflexivity|]).
    + split; [intros [H|[H|[H|[H|[H|[]]]]]]; discriminate|now intros [_ H]].
    + split; [now split|intros _; tauto].
    + split; [intros [H|[H|[H|[H|[H|[]]]]]]; discriminate|now intros [H _]].
Qed.

Lemma feed_document_shape_witness :
  exists channel,
    fst (rss_tree sample_env (ChatInt 1) busy_state)
    = Ok (Elem "rss" [("version", "2.0")] None [channel]) /\
    length (child_tags channel) = 54.
Proof.
  destruct (feed_document_shape sample_env (ChatInt 1) busy_state _ eq_refl)
    as (channel & Hdoc & _ & Htags & _).
  exists channel. split; [exact Hdoc|]. rewrite Htags. reflexivity.
Defined.

(** ** From start-up on: every stored link has a feed
       (main.py, lines 58-109, 135-158 and 352-370) *)

Lemma sql_limit_all {A} limit (rows : list A) :
  length rows <= Z.to_nat limit -> sql_limit limit rows = rows.
Proof.
  intros H. unfold sql_limit. destruct (limit <? 0)%Z; [reflexivity|].
  now apply firstn_all2.
Qed.

(** X15 -- Every stored link has a feed.  Start the program on a database
    file that satisfies the constraints of its schema (a new file does) and
    let any schedule of handler runs and store calls happen.  Then every row
    of [links] belongs to a group that has a token; a GET of [/rss] with
    that token is answered with status 200 and changes nothing; the items of
    the document render links of that group only; and the row itself is
    among them if the group has at most fifty links. *)
Theorem stored_links_are_served :
  forall (E : Env) (file : DB) (acts : list action) (st : State),
    db_ok file ->
    let st' := run_schedule E acts (snd (init_database file st)) in
    exists db,
      db_conn st' = Some db /\
      forall row,
        In row (links db) ->
        exists t doc,
          select_token t db = Some (mkGroup (l_chat_id row) t) /\
          GET_rss E (Some t) st'
          = (Replied (mkResponse 200 "application/rss+xml" (ET_tostring E doc)),
             mkState (Some db) (S (ticks st'))) /\
          (forall item,
              In item (feed_items doc) ->
              exists row', In row' (stored_in (l_chat_id row) db) /\
                           item = rss_item E (l_data row')) /\
          (length (stored_in (l_chat_id row) db) <= 50 ->
           In (rss_item E (l_data row)) (feed_items doc)).
Proof.
  intros E file acts st Hfile st'.
  destruct (run_schedule_step E acts (snd (init_database file st)) file eq_refl Hfile)
    as (db & Hdb & Hok & _).
  fold st' in Hdb. exists db. split; [assumption|]. intros row Hrow.
  pose proof (ok_foreign_key _ Hok row Hrow) as Hreg.
  destruct (select_group_Some _ _ Hreg) as (g & Hg & Hkey).
  apply find_some in Hg as [Hin _].
  pose proof (select_token_unique (groups db) g (ok_unique_token _ Hok) Hin) as Htok.
  destruct g as [k t]. cbn [g_chat_id g_token] in *. subst k.
  destruct (rss_feed_known E t st' db _ Hdb Htok) as (doc & Htree & Hfeed).
  destruct (rss_tree_items E (ChatStr (l_chat_id row)) st' db Hdb)
    as (doc' & Htree' & _ & _ & Hitems).
  cbn [g_chat_id] in Htree. rewrite Htree in Htree'. injection Htree' as <-.
  cbn [chat_id_str] in Hitems.
  exists t, doc. split; [exact Htok|]. split.
  { cbn [GET_rss]. now rewrite Hfeed. }
  rewrite Hitems. split.
  - intros item Hitem.
    apply in_map_iff in Hitem as (l & <- & Hl).
    apply in_map_iff in Hl as (row' & <- & Hl).
    apply sql_limit_In in Hl. apply (Permutation_in _ (ordered_perm _)) in Hl.
    now exists row'.
  - intros Hlen. apply in_map, in_map.
    rewrite sql_limit_all by (rewrite order_by_date_desc_length; exact Hlen).
    apply (Permutation_in _ (Permutation_sym (ordered_perm _))).
    unfold stored_in. apply filter_In. split; [assumption|].
    unfold in_group. apply String.eqb_refl.
Qed.

Lemma stored_links_are_served_witness :
  let st' := run_schedule sample_env
               [Handler (OnCommand update_other); Handler (OnMessage update_other)]
               (snd (init_database empty_db no_db_state)) in
  exists db row t doc,
    db_conn st' = Some db /\ links db = [row] /\
    GET_rss sample_env (Some t) st'
    = (Replied (mkResponse 200 "application/rss+xml" (ET_tostring sample_env doc)),
       mkState (Some db) (S (ticks st'))) /\
    In (rss_item sample_env (l_data row)) (feed_items doc).
Proof.
  intros st'.
  destruct (stored_links_are_served sample_env empty_db
              [Handler (OnCommand update_other); Handler (OnMessage update_other)]
              no_db_state empty_db_ok) as (db & Hdb & Hrows).
  fold st' in Hdb, Hrows.
  assert (Hl : exists row, links db = [row]).
  { vm_compute in Hdb. injection Hdb as <-. eexists. reflexivity. }
  destruct Hl as (row & Hl).
  destruct (Hrows row) as (t & doc & _ & Hget & _ & Hin); [rewrite Hl; now left|].
  exists db, row, t, doc. split; [exact Hdb|]. split; [exact Hl|].
  split; [exact Hget|]. apply Hin.
  unfold stored_in. etransitivity; [apply List.filter_length_le|]. rewrite Hl. cbn. lia.
Defined.

(** ** Sender, text and caption (main.py, lines 258, 264 and 275-282) *)



(** ** A token drawn twice (main.py, lines 124-130 and the schema, line 86) *)

(** X17 -- A token that is already taken.  When [/rssfeed] is sent from a
    chat without row and [uuid4] draws the token of another group, the
    insertion fails on [token TEXT UNIQUE]: the command raises the integrity
    error, sends no reply and adds no row; the store is unchanged, so the
    token still belongs to the other group alone.  Sent again, with a token
    that no group has, the command succeeds and hands out that new token. *)
Theorem token_clash :
  forall (E : Env) (u : Telegram.Update) (m : Telegram.Message) (st : State) (db : DB)
         (other : group_row),
    Telegram.message u = Some m ->
    Telegram.chat_id m <> 0%Z ->
    db_conn st = Some db ->
    ~ registered (pretty (Telegram.chat_id m)) db ->
    select_token (uuid4 E (ticks st)) db = Some other ->
    let st1 := mkState (Some db) (S (ticks st)) in
    handle_rssfeed_command E u st
    = (Raise (IntegrityError "UNIQUE constraint failed: groups.token"), st1) /\
    g_chat_id other <> pretty (Telegram.chat_id m) /\
    (select_token (uuid4 E (ticks st1)) db = None ->
     handle_rssfeed_command E u st1
     = (Ok (Some ("Your RSS feed link, use it in your RSS reader:"
                  +:+ newline +:+ APP_URL E +:+ "/rss?token=" +:+ uuid4 E (ticks st1))),
        mkState (Some (mkDB (groups db
                             ++ [mkGroup (pretty (Telegram.chat_id m))
                                         (uuid4 E (ticks st1))])
                            (links db)))
                (S (ticks st1)))).
Proof.
  intros E u m st db other Hm Hz Hdb Hreg Htok st1.
  assert (Hrow : select_group (pretty (Telegram.chat_id m)) db = None)
    by now apply select_group_None.
  split; [|split].
  - rewrite (command_run E u m st Hm Hz).
    now rewrite (get_group_token_clash E (ChatInt (Telegram.chat_id m)) st db other
                   Hdb Hrow Htok).
  - intros Heq. apply Hreg. unfold registered. rewrite <- Heq.
    unfold select_token in Htok. apply find_some in Htok as [Hin _].
    now apply in_map.
  - intros Hfresh. rewrite (command_run E u m st1 Hm Hz).
    now rewrite (get_group_token_new E (ChatInt (Telegram.chat_id m)) st1 db
                   eq_refl Hrow Hfresh).
Qed.

Lemma token_clash_witness :
  handle_rssfeed_command sample_env update_other
    (mkState (Some (mkDB [mkGroup "1" "token-0"] [])) 0)
  = (Raise (IntegrityError "UNIQUE constraint failed: groups.token"),
     mkState (Some (mkDB [mkGroup "1" "token-0"] [])) 1) /\
  fst (handle_rssfeed_command sample_env update_other
         (mkState (Some (mkDB [mkGroup "1" "token-0"] [])) 1))
  = Ok (Some ("Your RSS feed link, use it in your RSS reader:"
              +:+ newline +:+ "http://localhost:8080/rss?token=token-1")).
Proof.
  destruct (token_clash sample_env update_other msg_other
              (mkState (Some (mkDB [mkGroup "1" "token-0"] [])) 0)
              (mkDB [mkGroup "1" "token-0"] []) (mkGroup "1" "token-0"))
    as (Hfail & _ & Hnext).
  - reflexivity.
  - discriminate.
  - reflexivity.
  - vm_compute. intros [H|[]]. discriminate.
  - reflexivity.
  - split; [exact Hfail|]. specialize (Hnext eq_refl).
    cbn [ticks] in Hnext. rewrite Hnext. reflexivity.
Defined.
